(** * mcp-stdio-http-proxy: the OAuth engine and the gated request forwarder

    A shallow embedding of [src/mcp-oauth-client.ts] and [src/stdio-proxy.ts],
    with [src/logger.ts] and [src/config.ts].

    The TypeScript code is asynchronous and imperative.  It is rendered here
    as state-passing code in a small monad [M St A]:
    - the mutable object a method works on ([this]) is the state [St];
    - a thrown [Error] (or a rejected promise that is awaited) is [Throw e];
      field writes made before the throw persist, as they do in JavaScript;
    - every call that leaves the repository (the MCP SDK, [fetch], Express,
      [crypto], [open], the logger) appends an [Event] to a chronological
      trace and is answered by an oracle of the environment [Env].  Oracles
      are indexed by the number of oracle calls made so far, so that the
      same call may be answered differently at different moments.

    Real time is not represented: the two five-minute timers and the
    one-second polling loop appear only through their outcome (a callback
    request reached the listener before the deadline, or none did). *)

From Stdlib Require Import String Ascii List Bool Arith NArith ZArith Lia.
From ExtLib Require Import Structures.Monad Structures.MonadExc.
Import ListNotations.
Import MonadNotation.
Local Open Scope string_scope.
Local Open Scope monad_scope.

Set Implicit Arguments.

(** ** JavaScript values used by the code *)

(** The [message] of a JavaScript [Error]. *)
Definition Error := string.

Inductive Result (A : Type) : Type :=
| Ok (a : A)
| Throw (e : Error).
Arguments Ok {A} a.
Arguments Throw {A} e.

Definition is_ok {A} (r : Result A) : bool :=
  match r with Ok _ => true | Throw _ => false end.

(** [!!s] for a string: the empty string is falsy. *)
Definition truthy (s : string) : bool := negb (s =? "").

(** [!!s] for a value that may be [undefined]. *)
Definition truthy_opt (s : option string) : bool :=
  match s with Some x => truthy x | None => false end.

(** A parsed query-string value ([req.query.k]): a string, or an array when
    the key is repeated. *)
Inductive QVal : Type :=
| QStr (s : string)
| QArr (l : list string).

(** [!!v] for [v = req.query.k]; an array is always truthy. *)
Definition qval_truthy (v : option QVal) : bool :=
  match v with
  | None => false
  | Some (QStr s) => truthy s
  | Some (QArr _) => true
  end.

(** [`${v}`]: a string is itself, an array is joined with commas, [undefined]
    prints as such. *)
Definition qval_text (v : option QVal) : string :=
  match v with
  | None => "undefined"
  | Some (QStr s) => s
  | Some (QArr l) => String.concat "," l
  end.

(** [v !== s] where [v] is a query value and [s] a stored string or
    [undefined]. *)
Definition strict_neq (v : option QVal) (s : option string) : bool :=
  match v, s with
  | None, None => false
  | Some (QStr a), Some b => negb (a =? b)
  | _, _ => true
  end.

(** [s.endsWith(suffix)] *)
Definition endsWith (s suffix : string) : bool :=
  let n := String.length s in
  let k := String.length suffix in
  (k <=? n)%nat && (substring (n - k) k s =? suffix).

(** [s.startsWith(p)] *)
Definition startsWith (s p : string) : bool := prefix p s.

(** [s.includes(c)] for one character. *)
Fixpoint contains (c : ascii) (s : string) : bool :=
  match s with
  | EmptyString => false
  | String x r => Ascii.eqb x c || contains c r
  end.

(** [s.replace(pat, rep)] with a string pattern: the first occurrence only. *)
Definition replace (s pat rep : string) : string :=
  match index 0 pat s with
  | Some i =>
      substring 0 i s ++ rep ++
      substring (i + String.length pat) (String.length s - (i + String.length pat)) s
  | None => s
  end.

Definition digit_of (c : ascii) : option N :=
  let n := N_of_ascii c in
  if ((48 <=? n) && (n <=? 57))%N then Some (n - 48)%N else None.

Fixpoint parse_digits (acc : N) (s : string) : N :=
  match s with
  | EmptyString => acc
  | String c r =>
      match digit_of c with
      | Some d => parse_digits (10 * acc + d)%N r
      | None => acc
      end
  end.

(** [parseInt(s)] on the port text of a URL; [None] is [NaN]. *)
Definition parseInt (s : string) : option Z :=
  match s with
  | EmptyString => None
  | String c _ =>
      match digit_of c with
      | Some _ => Some (Z.of_N (parse_digits 0%N s))
      | None => None
      end
  end.

(** ** Data of the OAuth exchange (the SDK's [shared/auth.js] types, reduced
    to the fields the repository reads or writes) *)

Record OAuthTokens : Type := {
  access_token : string;
  refresh_token : option string
}.

Record OAuthClientInformation : Type := {
  client_id : string;
  client_secret : option string
}.

Record OAuthClientMetadata : Type := {
  client_name : string;
  client_uri : string;
  redirect_uris : list string;
  grant_types : list string;
  response_types : list string;
  token_endpoint_auth_method : string;
  scope : option string
}.

Record OAuthProtectedResourceMetadata : Type := {
  resource : option string;
  authorization_servers : option (list string);
  scopes_supported : option (list string)
}.

Record OAuthMetadata : Type := {
  issuer : string;
  authorization_endpoint : string;
  token_endpoint : string;
  code_challenge_methods_supported : option (list string)
}.

(** A [URL] object as the code uses it: everything in front of the query
    and the query parameters.  Keys and values stand for their decoded
    text. *)
Record URL : Type := {
  url_base : string;
  url_query : list (string * string)
}.

Fixpoint render_params (q : list (string * string)) : string :=
  match q with
  | [] => ""
  | [(k, v)] => k ++ "=" ++ v
  | (k, v) :: r => k ++ "=" ++ v ++ "&" ++ render_params r
  end.

(** [u.search] *)
Definition url_search (u : URL) : string :=
  match url_query u with
  | [] => ""
  | q => "?" ++ render_params q
  end.

(** [u.toString()] *)
Definition url_toString (u : URL) : string := url_base u ++ url_search u.

(** The text holds neither ['?'] nor ['#'].  When a URL is parsed, the
    query begins at the first ['?'] and the fragment at the first ['#']:
    in [new URL(base + u.search)] the query is that of [u] when [base] is
    such a text, and not otherwise. *)
Definition plain (base : string) : bool :=
  negb (contains "?" base) && negb (contains "#" base).

(** [u.searchParams.get(k)] *)
Fixpoint searchParams_get (q : list (string * string)) (k : string) : option string :=
  match q with
  | [] => None
  | (k', v) :: r => if k' =? k then Some v else searchParams_get r k
  end.

(** A response as [fetch] resolves it: the status and what [json()] will
    settle to (it rejects when the body is not JSON). *)
Record Response : Type := {
  status : nat;
  statusText : string;
  json : Result OAuthMetadata
}.

(** [response.ok]: the status is in the range 200-299. *)
Definition ok (r : Response) : bool :=
  ((200 <=? status r) && (status r <=? 299))%nat.

(** A request that reaches the callback port, with the connection it
    arrives on: HTTP/1.1 keeps a connection open after a response, so that
    several requests may come on the same one. *)
Record Request : Type := {
  req_connection : nat;
  req_path : string;
  req_query : list (string * QVal)
}.

Fixpoint query_get (q : list (string * QVal)) (k : string) : option QVal :=
  match q with
  | [] => None
  | (k', v) :: r => if k' =? k then Some v else query_get r k
  end.

(** ** Configuration ([src/types.ts]) *)

Module Config.
Record oauth_t : Type := {
  clientId : string;
  clientSecret : string;
  redirectUri : string;
  scopes : list string
}.
Record mcpServer_t : Type := {
  url : string;
  name : string
}.
(* [port] is a JavaScript number: an integer, or [None] for [NaN] *)
Record oauthServer_t : Type := {
  port : option Z
}.
Record t : Type := {
  oauth : oauth_t;
  mcpServer : mcpServer_t;
  oauthServer : oauthServer_t
}.
End Config.

(** ** Events and the environment *)

Inductive LogLevel : Type := debug | info | warn | error.

(** The six forwarding operations of the upstream MCP client. *)
Inductive Op : Type :=
| Op_listTools | Op_callTool | Op_listResources
| Op_readResource | Op_listPrompts | Op_getPrompt.

(** A result of an upstream MCP operation: the three list results carry
    their entries, the other three an opaque payload. *)
Inductive McpResult : Type :=
| ListToolsResult (tools : list string)
| ListResourcesResult (resources : list string)
| ListPromptsResult (prompts : list string)
| CallToolResult (content : string)
| ReadResourceResult (contents : string)
| GetPromptResult (messages : string)
| InitializeResult (protocolVersion : string) (serverName : string).

(** What the SDK's [startAuthorization] is given ([metadata] is always
    passed as [undefined] and is left out). *)
Record StartAuthorizationParams : Type := {
  sa_clientInformation : OAuthClientInformation;
  sa_state : option string;
  sa_redirectUrl : string;
  sa_scope : option string
}.

Inductive Event : Type :=
| EvLog (level : LogLevel) (message : string)
| EvDiscoverPRM (serverUrl : string)
| EvFetch (href : string)
| EvRegisterClient (authorizationServerUrl : string) (m : OAuthClientMetadata)
| EvExchange (authorizationServerUrl : string) (c : OAuthClientInformation)
    (code : QVal) (codeVerifier : string) (redirect : string) (succeeded : bool)
| EvRefresh (authorizationServerUrl : string) (c : OAuthClientInformation)
    (refreshToken : string) (succeeded : bool)
| EvStartAuthorization (authorizationServerUrl : string) (p : StartAuthorizationParams)
| EvRedirectToAuthorization (u : URL)
| EvRandomBytes (n : nat)
| EvListen (port : option Z) (path : string)
| EvOpen (href : string)
| EvAwaitCallback
| EvSend (html : string)
| EvNotFound (path : string)
| EvServerClose
| EvMcpConnect (href : string)
| EvMcpClose
| EvStdioConnect
| EvStdioClose
| EvUpstream (op : Op) (params : string)
| EvGate (open : bool).

(** How binding the callback port ends: the ['listening'] event, or an
    ['error'] event with its code (such as [EADDRINUSE]). *)
Inductive ListenOutcome : Type :=
| Listening
| ListenError (code : string) (e : Error).

(** The collaborators outside the repository.  The first argument of an
    effectful oracle is the number of oracle calls made before it. *)
Record Env : Type := {
  (* the WHATWG URL parser: [new URL(s)] succeeds; [.pathname]; [.port];
     the object it builds *)
  url_parses : string -> bool;
  url_pathname : string -> string;
  url_port : string -> string;
  url_parse : string -> URL;
  (* Express: the route registered for a path accepts a request path *)
  route_matches : string -> string -> bool;
  (* @modelcontextprotocol/sdk/client/auth.js *)
  discoverOAuthProtectedResourceMetadata :
    nat -> string -> Result (option OAuthProtectedResourceMetadata);
  registerClient : nat -> string -> OAuthClientMetadata -> Result OAuthClientInformation;
  exchangeAuthorization :
    nat -> string -> OAuthClientInformation -> QVal -> string -> string -> Result OAuthTokens;
  refreshAuthorization : nat -> string -> OAuthClientInformation -> string -> Result OAuthTokens;
  startAuthorization : nat -> string -> StartAuthorizationParams -> Result (URL * string);
  (* platform *)
  fetch : nat -> string -> Result Response;
  randomBytes : nat -> nat -> list Byte.byte;
  listen : nat -> option Z -> ListenOutcome;
  open : nat -> string -> Result unit;
  (* the requests that reach the callback port before the wait is over *)
  callbacks : nat -> list Request;
  (* the upstream MCP client and the stdio server *)
  mcp_connect : nat -> Result unit;
  mcp_close : nat -> Result unit;
  mcp_request : nat -> Op -> string -> Result McpResult;
  stdio_connect : nat -> Result unit;
  stdio_close : nat -> Result unit
}.

(** ** The monad *)

Record Io : Type := {
  io_trace : list Event;
  io_tick : nat
}.

Definition io0 : Io := {| io_trace := []; io_tick := 0 |}.

Definition M (St A : Type) : Type := St -> Io -> Result A * St * Io.

Definition mret {St A} (a : A) : M St A := fun s io => (Ok a, s, io).

Definition mbind {St A B} (m : M St A) (k : A -> M St B) : M St B :=
  fun s io =>
    match m s io with
    | (Ok a, s', io') => k a s' io'
    | (Throw e, s', io') => (Throw e, s', io')
    end.

(** [throw new Error(e)] *)
Definition throw {St A} (e : Error) : M St A := fun s io => (Throw e, s, io).

(** [try { m } catch (e) { h e }] *)
Definition try_catch {St A} (m : M St A) (h : Error -> M St A) : M St A :=
  fun s io =>
    match m s io with
    | (Ok a, s', io') => (Ok a, s', io')
    | (Throw e, s', io') => h e s' io'
    end.

#[global] Instance Monad_M {St} : Monad (M St) :=
  {| ret := @mret St; bind := @mbind St |}.

#[global] Instance Exception_M {St} : MonadExc Error (M St) :=
  {| raise := @throw St; catch := @try_catch St |}.

Definition gets {St A} (f : St -> A) : M St A := fun s io => (Ok (f s), s, io).

Definition modify {St} (f : St -> St) : M St unit := fun s io => (Ok tt, f s, io).

(** The trace grows at its end. *)
Definition tell (io : Io) (ev : Event) : Io :=
  {| io_trace := (io_trace io ++ [ev])%list; io_tick := io_tick io |}.

(** An answered oracle call: the event is recorded and the tick advances. *)
Definition answered (io : Io) (ev : Event) : Io :=
  {| io_trace := (io_trace io ++ [ev])%list; io_tick := S (io_tick io) |}.

(** An effect that asks nothing of the environment: record the event. *)
Definition emit {St} (ev : Event) : M St unit :=
  fun s io => (Ok tt, s, tell io ev).

(** An external call: ask the oracle at the current tick, record the event
    (which may mention the answer). *)
Definition extern {St A} (oracle : nat -> A) (ev : A -> Event) : M St A :=
  fun s io =>
    let a := oracle (io_tick io) in
    (Ok a, s, answered io (ev a)).

(** [await] of an external promise: a rejection is thrown. *)
Definition await {St A} (oracle : nat -> Result A) (ev : Result A -> Event) : M St A :=
  r <- extern oracle ev ;;
  match r with
  | Ok a => ret a
  | Throw e => raise e
  end.

(** Run a method of a sub-object held in a field. *)
Definition zoom {St T A} (get : St -> T) (set : T -> St -> St) (m : M T A) : M St A :=
  fun s io =>
    match m (get s) io with
    | (r, t', io') => (r, set t' s, io')
    end.

Fixpoint forEach {St A} (l : list A) (f : A -> M St unit) : M St unit :=
  match l with
  | [] => ret tt
  | a :: r => f a ;; forEach r f
  end.

(** The logger ([src/logger.ts]) is an external collaborator: only the call
    and its message are recorded. *)
Definition logInfo {St} (msg : string) : M St unit := emit (EvLog info msg).
Definition logWarn {St} (msg : string) : M St unit := emit (EvLog warn msg).
Definition logError {St} (msg : string) : M St unit := emit (EvLog error msg).
Definition logDebug {St} (msg : string) : M St unit := emit (EvLog debug msg).

(** [new URL(s)]: a [TypeError] when the text is not a URL. *)
Definition new_URL {St} (env : Env) (s : string) : M St string :=
  if url_parses env s then ret s else raise "Invalid URL".

(** ** [discoverOAuthMetadata] *)

Definition no_metadata : Error := "No OAuth metadata found at either endpoint".

Definition discoverOAuthMetadata {St} (env : Env) (serverUrl : string) : M St OAuthMetadata :=
  logInfo "Discovering OAuth metadata from server" ;;
  oauthMetadataUrl <- new_URL env (serverUrl ++ "/.well-known/oauth-authorization-server") ;;
  openIdMetadataUrl <- new_URL env (serverUrl ++ "/.well-known/openid-configuration") ;;
  (* [metadata] holds the promise returned by [json()], not yet awaited *)
  metadata <-
    catch
      (logDebug "Fetching OAuth metadata" ;;
       oauthResponse <- await (fun t => fetch env t oauthMetadataUrl)
                              (fun _ => EvFetch oauthMetadataUrl) ;;
       if ok oauthResponse then
         logInfo "OAuth metadata found" ;;
         ret (Some (json oauthResponse))
       else
         logWarn "Failed to fetch OAuth metadata" ;;
         catch
           (logDebug "Retrying with OpenID Connect metadata endpoint" ;;
            logDebug "Fetching OpenID Connect metadata" ;;
            openIdResponse <- await (fun t => fetch env t openIdMetadataUrl)
                                    (fun _ => EvFetch openIdMetadataUrl) ;;
            if ok openIdResponse then
              logInfo "OAuth metadata found at OpenID endpoint" ;;
              ret (Some (json openIdResponse))
            else ret None)
           (fun _ => logWarn "Failed to fetch OpenID metadata" ;; ret None))
      (fun _ => logWarn "Failed to fetch OAuth metadata" ;; ret None) ;;
  match metadata with
  | Some (Ok m) => ret m
  | Some (Throw e) => raise e
  | None => raise no_metadata
  end.

(** ** [ProxyOAuthProvider]: the token store and the callback listener *)

(** A promise settles once: [resolve] and [reject] on a settled promise do
    nothing. *)
Inductive PromiseState : Type :=
| Pending
| Fulfilled
| Rejected (e : Error).

Definition settle (outcome p : PromiseState) : PromiseState :=
  match p with
  | Pending => outcome
  | _ => p
  end.

(** The Express application returned by [app.listen], with the promise
    that [startOAuthServer] created around it. *)
Record CallbackServer : Type := {
  srv_port : option Z;
  srv_path : string;
  srv_listening : bool;
  srv_promise : PromiseState
}.

Definition hex_digit (n : N) : ascii :=
  ascii_of_N (if (n <? 10)%N then 48 + n else 87 + n)%N.

(** [buffer.toString('hex')] *)
Fixpoint hex (bytes : list Byte.byte) : string :=
  match bytes with
  | [] => ""
  | b :: r =>
      let n := Byte.to_N b in
      String (hex_digit (n / 16)%N) (String (hex_digit (n mod 16)%N) (hex r))
  end.

Module ProxyOAuthProvider.

Record t : Type := {
  config : Config.t;
  _tokens : option OAuthTokens;
  _clientInformation : option OAuthClientInformation;
  _codeVerifier : option string;
  _state : option string;
  oauthServer : option CallbackServer;
  authorizationCode : option QVal;
  (* not a field of the class: the connections that the callback servers of
     this provider accepted and did not close; the route handler that
     serves their requests works on [this] *)
  connections : list nat
}.

(** [new ProxyOAuthProvider(config)] *)
Definition new (cfg : Config.t) : t :=
  {| config := cfg; _tokens := None; _clientInformation := None;
     _codeVerifier := None; _state := None; oauthServer := None;
     authorizationCode := None; connections := [] |}.

Definition set_tokens (v : option OAuthTokens) (p : t) : t :=
  {| config := config p; _tokens := v; _clientInformation := _clientInformation p;
     _codeVerifier := _codeVerifier p; _state := _state p;
     oauthServer := oauthServer p; authorizationCode := authorizationCode p;
     connections := connections p |}.

Definition set_clientInformation (v : option OAuthClientInformation) (p : t) : t :=
  {| config := config p; _tokens := _tokens p; _clientInformation := v;
     _codeVerifier := _codeVerifier p; _state := _state p;
     oauthServer := oauthServer p; authorizationCode := authorizationCode p;
     connections := connections p |}.

Definition set_codeVerifier (v : option string) (p : t) : t :=
  {| config := config p; _tokens := _tokens p; _clientInformation := _clientInformation p;
     _codeVerifier := v; _state := _state p;
     oauthServer := oauthServer p; authorizationCode := authorizationCode p;
     connections := connections p |}.

Definition set_state (v : option string) (p : t) : t :=
  {| config := config p; _tokens := _tokens p; _clientInformation := _clientInformation p;
     _codeVerifier := _codeVerifier p; _state := v;
     oauthServer := oauthServer p; authorizationCode := authorizationCode p;
     connections := connections p |}.

Definition set_oauthServer (v : option CallbackServer) (p : t) : t :=
  {| config := config p; _tokens := _tokens p; _clientInformation := _clientInformation p;
     _codeVerifier := _codeVerifier p; _state := _state p;
     oauthServer := v; authorizationCode := authorizationCode p;
     connections := connections p |}.

Definition set_authorizationCode (v : option QVal) (p : t) : t :=
  {| config := config p; _tokens := _tokens p; _clientInformation := _clientInformation p;
     _codeVerifier := _codeVerifier p; _state := _state p;
     oauthServer := oauthServer p; authorizationCode := v;
     connections := connections p |}.

Definition set_connections (v : list nat) (p : t) : t :=
  {| config := config p; _tokens := _tokens p; _clientInformation := _clientInformation p;
     _codeVerifier := _codeVerifier p; _state := _state p;
     oauthServer := oauthServer p; authorizationCode := authorizationCode p;
     connections := v |}.

(** [get redirectUrl()] *)
Definition redirectUrl (p : t) : string := Config.redirectUri (Config.oauth (config p)).

(** [get clientMetadata()] *)
Definition clientMetadata (p : t) : OAuthClientMetadata :=
  {| client_name := "MCP OAuth Proxy Client";
     client_uri := "https://github.com/modelcontextprotocol/typescript-sdk";
     redirect_uris := [Config.redirectUri (Config.oauth (config p))];
     grant_types := ["authorization_code"];
     response_types := ["code"];
     token_endpoint_auth_method :=
       if truthy (Config.clientSecret (Config.oauth (config p)))
       then "client_secret_post" else "none";
     scope := None |}.

(** [async state()] *)
Definition state (env : Env) : M t (option string) :=
  s <- gets _state ;;
  (if negb (truthy_opt s) then
     bytes <- extern (fun tick => randomBytes env tick 32) (fun _ => EvRandomBytes 32) ;;
     modify (set_state (Some (hex bytes)))
   else ret tt) ;;
  gets _state.

(** [clientInformation()] *)
Definition clientInformation : M t (option OAuthClientInformation) :=
  c <- gets _clientInformation ;;
  (match c with
   | None =>
       cfg <- gets config ;;
       modify (set_clientInformation
                 (Some {| client_id := Config.clientId (Config.oauth cfg);
                          client_secret := Some (Config.clientSecret (Config.oauth cfg)) |}))
   | Some _ => ret tt
   end) ;;
  gets _clientInformation.

(** [saveClientInformation(clientInformation)] *)
Definition saveClientInformation (c : OAuthClientInformation) : M t unit :=
  modify (set_clientInformation (Some c)).

(** [tokens()] *)
Definition tokens : M t (option OAuthTokens) := gets _tokens.

(** [async saveTokens(tokens)] *)
Definition saveTokens (tk : OAuthTokens) : M t unit :=
  modify (set_tokens (Some tk)) ;;
  logInfo "OAuth tokens saved successfully".

(** [async saveCodeVerifier(codeVerifier)] *)
Definition saveCodeVerifier (v : string) : M t unit :=
  modify (set_codeVerifier (Some v)).

(** [async codeVerifier()] *)
Definition codeVerifier : M t string :=
  v <- gets _codeVerifier ;;
  match v with
  | Some s => if truthy s then ret s else raise "Code verifier not found"
  | None => raise "Code verifier not found"
  end.

(** [getAuthorizationCode()] *)
Definition getAuthorizationCode : M t (option QVal) := gets authorizationCode.

(** [clearAuthorizationCode()] *)
Definition clearAuthorizationCode : M t unit := modify (set_authorizationCode None).

(** [this.oauthServer?.close()]: the server stops listening.  The
    connections that are open stay open: in Node 18, which [package.json]
    admits ([node >= 18]), [close()] "stops the server from accepting new
    connections and keeps existing connections".  (Later versions also
    close the connections that are idle at that moment; a run under them
    is a run of this model in which no request comes on those.) *)
Definition close_oauthServer : M t unit :=
  srv <- gets oauthServer ;;
  match srv with
  | Some s =>
      emit EvServerClose ;;
      modify (set_oauthServer
                (Some {| srv_port := srv_port s; srv_path := srv_path s;
                         srv_listening := false; srv_promise := srv_promise s |}))
  | None => ret tt
  end.

(** [resolve()] and [reject(e)] of the promise made by [startOAuthServer]. *)
Definition settle_promise (outcome : PromiseState) : M t unit :=
  modify (fun p =>
    match oauthServer p with
    | Some s =>
        set_oauthServer
          (Some {| srv_port := srv_port s; srv_path := srv_path s;
                   srv_listening := srv_listening s;
                   srv_promise := settle outcome (srv_promise s) |}) p
    | None => p
    end).

Definition resolve : M t unit := settle_promise Fulfilled.
Definition reject (e : Error) : M t unit := settle_promise (Rejected e).

(** [res.send(html)] *)
Definition send (html : string) : M t unit := emit (EvSend html).

(** The route handler registered by [app.get(callbackPath, ...)]. *)
Definition callback_handler (req : Request) : M t unit :=
  catch
    (let code := query_get (req_query req) "code" in
     let returnedState := query_get (req_query req) "state" in
     let error := query_get (req_query req) "error" in
     if qval_truthy error then
       send ("<h1>OAuth Error</h1><p>" ++ qval_text error ++ "</p>") ;;
       close_oauthServer ;;
       reject ("OAuth error: " ++ qval_text error)
     else
       stored <- gets _state ;;
       if strict_neq returnedState stored then
         send "<h1>OAuth Error</h1><p>Invalid state parameter</p>" ;;
         close_oauthServer ;;
         reject "Invalid OAuth state"
       else if negb (qval_truthy code) then
         send "<h1>OAuth Error</h1><p>No authorization code received</p>" ;;
         close_oauthServer ;;
         reject "No authorization code received"
       else
         send "<h1>Authentication Successful</h1><p>You can close this window and return to your application.</p>" ;;
         close_oauthServer ;;
         modify (set_authorizationCode code) ;;
         resolve)
    (fun e =>
       send ("<h1>OAuth Error</h1><p>" ++ e ++ "</p>") ;;
       close_oauthServer ;;
       reject e).

(** One request arriving at the callback port.  A listening server
    accepts the connection it comes on; a server that was closed accepts no
    new connection, but a request that comes on a connection still open is
    served as before.  The route serves its own path, Express answers 404
    on any other. *)
Definition deliver (env : Env) (req : Request) : M t unit :=
  srv <- gets oauthServer ;;
  match srv with
  | Some s =>
      accepted <- gets connections ;;
      let known := existsb (Nat.eqb (req_connection req)) accepted in
      if srv_listening s || known then
        (if known then ret tt
         else modify (set_connections (req_connection req :: accepted))) ;;
        if route_matches env (srv_path s) (req_path req) then callback_handler req
        else emit (EvNotFound (req_path req))
      else ret tt
  | None => ret tt
  end.

(** [startOAuthServer()].  The callback given to [app.listen] logs and
    resolves the promise.  Express 5, which [package.json] asks for, hands
    that callback to the server's ['error'] event as well as to
    ['listening'] (once), and it was registered before the code's own
    ['error'] handler: when the port cannot be bound the promise is
    resolved all the same, and the [reject] of the ['error'] handler comes
    too late.  The five-minute timer armed here is run by
    [McpOAuthClient.waitForAuthorizationCode] when the deadline passes. *)
Definition startOAuthServer (env : Env) : M t unit :=
  uri <- gets redirectUrl ;;
  redirectUrl <- new_URL env uri ;;
  let callbackPath := url_pathname env redirectUrl in
  cfg <- gets config ;;
  let port :=
    if truthy (url_port env redirectUrl) then parseInt (url_port env redirectUrl)
    else Config.port (Config.oauthServer cfg) in
  outcome <- extern (fun tick => listen env tick port) (fun _ => EvListen port callbackPath) ;;
  match outcome with
  | Listening =>
      modify (set_oauthServer
                (Some {| srv_port := port; srv_path := callbackPath;
                         srv_listening := true; srv_promise := Pending |})) ;;
      logInfo "OAuth callback server listening" ;;
      resolve
  | ListenError code e =>
      modify (set_oauthServer
                (Some {| srv_port := port; srv_path := callbackPath;
                         srv_listening := false; srv_promise := Pending |})) ;;
      (* the listen callback, called by Express on ['error'] *)
      logInfo "OAuth callback server listening" ;;
      resolve ;;
      (* the code's own ['error'] handler *)
      (if code =? "EADDRINUSE" then logError "Port already in use" else ret tt) ;;
      reject e
  end.

(** The timer armed by [startOAuthServer], firing after five minutes. *)
Definition oauthServer_timeout : M t unit :=
  close_oauthServer ;;
  reject "OAuth authentication timed out".

(** [async redirectToAuthorization(authorizationUrl)] *)
Definition redirectToAuthorization (env : Env) (authorizationUrl : URL) : M t unit :=
  emit (EvRedirectToAuthorization authorizationUrl) ;;
  logInfo "Opening browser for OAuth authentication" ;;
  startOAuthServer env ;;
  catch
    (await (fun tick => open env tick (url_toString authorizationUrl))
           (fun _ => EvOpen (url_toString authorizationUrl)))
    (fun _ =>
       logWarn "Could not open browser automatically. Please visit the authorization URL manually").

End ProxyOAuthProvider.

(** ** [customAuth] *)

Inductive AuthResult : Type := AUTHORIZED | REDIRECT.

(** The [options] argument of [customAuth].  [resourceMetadataUrl] is never
    passed by this repository and is left out. *)
Module Options.
Record t : Type := {
  serverUrl : string;
  scope : option string;
  authorizationCode : option QVal
}.
End Options.

(** The last part of [customAuth], entered when no code is to be exchanged
    and no refresh succeeded: from [provider.state()] to the [REDIRECT]
    result ("Start new authorization flow"). *)
Definition newAuthorizationFlow (env : Env) (options : Options.t)
  (authorizationServerUrl : string) (metadata : OAuthMetadata)
  (clientInformation : OAuthClientInformation) : M ProxyOAuthProvider.t AuthResult :=
  state <- ProxyOAuthProvider.state env ;;
  logInfo "Metadata for OAuth server:" ;;
  logInfo "Client information for OAuth client:" ;;
  logInfo "State for OAuth flow:" ;;
  let needCodeVerifier :=
    match code_challenge_methods_supported metadata with
    | Some methods => negb (existsb (String.eqb "S256") methods)
    | None => false
    end in
  (* Start new authorization flow *)
  redirectUrl <- gets ProxyOAuthProvider.redirectUrl ;;
  clientMetadata <- gets ProxyOAuthProvider.clientMetadata ;;
  let params :=
    {| sa_clientInformation := clientInformation;
       sa_state := state;
       sa_redirectUrl := redirectUrl;
       sa_scope := if truthy_opt (Options.scope options) then Options.scope options
                   else scope clientMetadata |} in
  started <-
    await (fun tick => startAuthorization env tick authorizationServerUrl params)
          (fun _ => EvStartAuthorization authorizationServerUrl params) ;;
  let '(authorizationUrl, codeVerifier) := started in
  authorizationUrl <-
    (if negb (startsWith (url_toString authorizationUrl) authorizationServerUrl) then
       logWarn "Authorization URL does not match server URL. Adjusting..." ;;
       let authorizationServerUrl :=
         if negb (endsWith authorizationServerUrl "/oauth2/v2.0")
            && endsWith authorizationServerUrl "/v2.0"
         then replace authorizationServerUrl "/v2.0" "/oauth2/v2.0"
         else authorizationServerUrl in
       href <- new_URL env (authorizationServerUrl ++ "/authorize"
                            ++ url_search authorizationUrl) ;;
       ret (if plain authorizationServerUrl
            then {| url_base := authorizationServerUrl ++ "/authorize";
                    url_query := url_query authorizationUrl |}
            else url_parse env href)
     else ret authorizationUrl) ;;
  ProxyOAuthProvider.saveCodeVerifier codeVerifier ;;
  ProxyOAuthProvider.redirectToAuthorization env authorizationUrl ;;
  ret REDIRECT.

Definition customAuth (env : Env) (options : Options.t)
  : M ProxyOAuthProvider.t AuthResult :=
  logInfo "Starting OAuth authentication" ;;
  authorizationServerUrl <-
    catch
      (resourceMetadata <-
         await (fun tick =>
                  discoverOAuthProtectedResourceMetadata env tick (Options.serverUrl options))
               (fun _ => EvDiscoverPRM (Options.serverUrl options)) ;;
       logInfo "Discovered OAuth protected resource metadata" ;;
       match resourceMetadata with
       | Some m =>
           match authorization_servers m with
           | Some (first :: _) =>
               logInfo "Using authorization server" ;;
               ret first
           | _ => ret (Options.serverUrl options)
           end
       | None => raise "Cannot read properties of undefined"
       end)
      (fun _ => ret (Options.serverUrl options)) ;;
  metadata <- discoverOAuthMetadata env authorizationServerUrl ;;
  (* Handle client registration if needed *)
  known <- ProxyOAuthProvider.clientInformation ;;
  clientInformation <-
    match known with
    | Some c => ret c
    | None =>
        match Options.authorizationCode options with
        | Some _ =>
            raise "Existing OAuth client information is required when exchanging an authorization code"
        | None =>
            (* [if (!provider.saveClientInformation)]: the method is always
               defined on [ProxyOAuthProvider], so the check never throws *)
            clientMetadata <- gets ProxyOAuthProvider.clientMetadata ;;
            fullInformation <-
              await (fun tick => registerClient env tick authorizationServerUrl clientMetadata)
                    (fun _ => EvRegisterClient authorizationServerUrl clientMetadata) ;;
            ProxyOAuthProvider.saveClientInformation fullInformation ;;
            ret fullInformation
        end
    end ;;
  match Options.authorizationCode options with
  | Some code =>
      (* Exchange authorization code for tokens *)
      logInfo "Exchanging authorization code for tokens..." ;;
      codeVerifier <- ProxyOAuthProvider.codeVerifier ;;
      redirectUri <- gets ProxyOAuthProvider.redirectUrl ;;
      tokens <-
        await (fun tick =>
                 exchangeAuthorization env tick authorizationServerUrl clientInformation
                   code codeVerifier redirectUri)
              (fun r => EvExchange authorizationServerUrl clientInformation
                          code codeVerifier redirectUri (is_ok r)) ;;
      ProxyOAuthProvider.saveTokens tokens ;;
      ret AUTHORIZED
  | None =>
      tokens <- ProxyOAuthProvider.tokens ;;
      (* Handle token refresh or new authorization *)
      refreshed <-
        match match tokens with Some tk => refresh_token tk | None => None end with
        | Some refreshToken =>
            if truthy refreshToken then
              catch
                (newTokens <-
                   await (fun tick =>
                            refreshAuthorization env tick authorizationServerUrl
                              clientInformation refreshToken)
                         (fun r => EvRefresh authorizationServerUrl clientInformation
                                     refreshToken (is_ok r)) ;;
                 ProxyOAuthProvider.saveTokens newTokens ;;
                 ret true)
                (fun _ => ret false)
            else ret false
        | None => ret false
        end ;;
      (* [true]: the [return "AUTHORIZED"] inside the [try] was reached *)
      if refreshed : bool then ret AUTHORIZED
      else newAuthorizationFlow env options authorizationServerUrl metadata clientInformation
  end.

(** ** [McpOAuthClient] *)

(** The SDK [Client] object. *)
Inductive Client : Type := sdk_client.

Module McpOAuthClient.

Record t : Type := {
  config : Config.t;
  mcpClient : option Client;
  oauthProvider : ProxyOAuthProvider.t;
  isConnected : bool;
  resourceMetadata : option OAuthProtectedResourceMetadata
}.

(** [new McpOAuthClient(config)] *)
Definition new (cfg : Config.t) : t :=
  {| config := cfg; mcpClient := None; oauthProvider := ProxyOAuthProvider.new cfg;
     isConnected := false; resourceMetadata := None |}.

Definition set_mcpClient (v : option Client) (c : t) : t :=
  {| config := config c; mcpClient := v; oauthProvider := oauthProvider c;
     isConnected := isConnected c; resourceMetadata := resourceMetadata c |}.

Definition set_oauthProvider (v : ProxyOAuthProvider.t) (c : t) : t :=
  {| config := config c; mcpClient := mcpClient c; oauthProvider := v;
     isConnected := isConnected c; resourceMetadata := resourceMetadata c |}.

Definition set_isConnected (v : bool) (c : t) : t :=
  {| config := config c; mcpClient := mcpClient c; oauthProvider := oauthProvider c;
     isConnected := v; resourceMetadata := resourceMetadata c |}.

Definition set_resourceMetadata (v : option OAuthProtectedResourceMetadata) (c : t) : t :=
  {| config := config c; mcpClient := mcpClient c; oauthProvider := oauthProvider c;
     isConnected := isConnected c; resourceMetadata := v |}.

(** A method call on [this.oauthProvider]. *)
Definition provider {A} (m : M ProxyOAuthProvider.t A) : M t A :=
  zoom oauthProvider set_oauthProvider m.

(** [waitForAuthorizationCode()]: the requests that reach the callback
    port are served while the code is polled; when the poll sees a code the
    wait is over, and when none was stored at the deadline the listener's
    own timer has fired and the wait rejects. *)
Definition waitForAuthorizationCode (env : Env) : M t unit :=
  reqs <- extern (callbacks env) (fun _ => EvAwaitCallback) ;;
  provider (forEach reqs (ProxyOAuthProvider.deliver env)) ;;
  code <- provider ProxyOAuthProvider.getAuthorizationCode ;;
  if qval_truthy code then ret tt
  else
    provider ProxyOAuthProvider.oauthServer_timeout ;;
    raise "Authorization code timeout".

(** [connectToMcpServer()].  The transport is given [this.oauthProvider]
    as its [authProvider]; what the SDK does with it when the server
    answers 401 is the SDK's doing and is not represented: [mcp_connect]
    and [mcp_request] stand for the answer that reaches this class. *)
Definition connectToMcpServer (env : Env) : M t unit :=
  cfg <- gets config ;;
  target <- new_URL env (Config.url (Config.mcpServer cfg)) ;;
  modify (set_mcpClient (Some sdk_client)) ;;
  await (mcp_connect env) (fun _ => EvMcpConnect target) ;;
  logInfo "Connected to MCP server via SSE with OAuth provider".

(** The scopes [connect] asks for. *)
Definition requestedScopes (cfg : Config.t) (m : OAuthProtectedResourceMetadata)
  : list string :=
  if (0 <? List.length (Config.scopes (Config.oauth cfg)))%nat
  then Config.scopes (Config.oauth cfg)
  else match scopes_supported m with
       | Some l => l
       | None => []
       end.

(** [async connect()] *)
Definition connect (env : Env) : M t unit :=
  catch
    (logInfo "Discovering OAuth protected resource metadata..." ;;
     cfg <- gets config ;;
     discovered <-
       await (fun tick =>
                discoverOAuthProtectedResourceMetadata env tick (Config.url (Config.mcpServer cfg)))
             (fun _ => EvDiscoverPRM (Config.url (Config.mcpServer cfg))) ;;
     modify (set_resourceMetadata discovered) ;;
     match discovered with
     | None => raise "No OAuth protected resource metadata found"
     | Some m =>
         let m :=
           match resource m with
           | Some r =>
               if negb (r =? "") then
                 {| resource := Some "";
                    authorization_servers := authorization_servers m;
                    scopes_supported := scopes_supported m |}
               else m
           | None => m
           end in
         modify (set_resourceMetadata (Some m)) ;;
         logInfo "OAuth protected resource metadata discovered:" ;;
         (* Use configured scopes from env vars, with fallback to discovered scopes *)
         let requestedScopes := requestedScopes cfg m in
         logInfo ("Using OAuth scopes: " ++ String.concat ", " requestedScopes) ;;
         first <-
           provider
             (customAuth env
                {| Options.serverUrl := Config.url (Config.mcpServer cfg);
                   Options.scope := Some (String.concat " " requestedScopes);
                   Options.authorizationCode := None |}) ;;
         authResult <-
           match first with
           | REDIRECT =>
               logInfo "Waiting for OAuth authorization..." ;;
               waitForAuthorizationCode env ;;
               authCode <- provider ProxyOAuthProvider.getAuthorizationCode ;;
               match authCode with
               | Some code =>
                   if negb (qval_truthy authCode) then raise "No authorization code received"
                   else
                     second <-
                       provider
                         (customAuth env
                            {| Options.serverUrl := Config.url (Config.mcpServer cfg);
                               Options.scope := Some (String.concat " " requestedScopes);
                               Options.authorizationCode := Some code |}) ;;
                     provider ProxyOAuthProvider.clearAuthorizationCode ;;
                     ret second
               | None => raise "No authorization code received"
               end
           | AUTHORIZED => ret AUTHORIZED
           end ;;
         match authResult with
         | AUTHORIZED =>
             connectToMcpServer env ;;
             modify (set_isConnected true) ;;
             logInfo "Successfully connected to MCP server with OAuth authentication"
         | REDIRECT => raise "OAuth authorization failed"
         end
     end)
    (fun e =>
       logError "Failed to connect to MCP server:" ;;
       raise e).

(** [async disconnect()] *)
Definition disconnect (env : Env) : M t unit :=
  c <- gets mcpClient ;;
  (match c with
   | Some _ =>
       await (mcp_close env) (fun _ => EvMcpClose) ;;
       modify (set_mcpClient None)
   | None => ret tt
   end) ;;
  modify (set_isConnected false) ;;
  logInfo "Disconnected from MCP server".

(** [get connected()] *)
Definition connected (c : t) : bool :=
  isConnected c && match mcpClient c with Some _ => true | None => false end.

(** [getClient()] *)
Definition getClient (c : t) : option Client := mcpClient c.

(** The body shared by the six delegating methods: throw when there is no
    client, else await the client's method. *)
Definition delegate (env : Env) (op : Op) (params : string) : M t McpResult :=
  c <- gets mcpClient ;;
  match c with
  | None => raise "MCP client not connected"
  | Some _ =>
      await (fun tick => mcp_request env tick op params) (fun _ => EvUpstream op params)
  end.

Definition listTools (env : Env) : M t McpResult := delegate env Op_listTools "".
Definition callTool (env : Env) (params : string) : M t McpResult :=
  delegate env Op_callTool params.
Definition listResources (env : Env) : M t McpResult := delegate env Op_listResources "".
Definition readResource (env : Env) (params : string) : M t McpResult :=
  delegate env Op_readResource params.
Definition listPrompts (env : Env) : M t McpResult := delegate env Op_listPrompts "".
Definition getPrompt (env : Env) (params : string) : M t McpResult :=
  delegate env Op_getPrompt params.

End McpOAuthClient.

(** ** [McpStdioProxy] ([src/stdio-proxy.ts]) *)

Module McpStdioProxy.

Record t : Type := {
  config : Config.t;
  mcpOAuthClient : McpOAuthClient.t;
  (* the stdio [Server]: whether it is connected to its transport *)
  stdioServer : bool;
  isConnected : bool
}.

(** [new McpStdioProxy(config)] *)
Definition new (cfg : Config.t) : t :=
  {| config := cfg; mcpOAuthClient := McpOAuthClient.new cfg;
     stdioServer := false; isConnected := false |}.

Definition set_mcpOAuthClient (v : McpOAuthClient.t) (p : t) : t :=
  {| config := config p; mcpOAuthClient := v;
     stdioServer := stdioServer p; isConnected := isConnected p |}.

Definition set_stdioServer (v : bool) (p : t) : t :=
  {| config := config p; mcpOAuthClient := mcpOAuthClient p;
     stdioServer := v; isConnected := isConnected p |}.

Definition set_isConnected (v : bool) (p : t) : t :=
  {| config := config p; mcpOAuthClient := mcpOAuthClient p;
     stdioServer := stdioServer p; isConnected := v |}.

(** A method call on [this.mcpOAuthClient]. *)
Definition client {A} (m : M McpOAuthClient.t A) : M t A :=
  zoom mcpOAuthClient set_mcpOAuthClient m.

(** [this.isConnected = v]; the write is also put on the trace, so that
    its place among the external calls can be spoken of. *)
Definition assign_isConnected (v : bool) : M t unit :=
  modify (set_isConnected v) ;;
  emit (EvGate v).

(** [ensureConnected()] *)
Definition ensureConnected : M t unit :=
  c <- gets isConnected ;;
  if c then ret tt
  else raise "Proxy not connected to MCP server. Connection may have failed during startup.".

(** The handlers installed by [setupProxyHandlers()]. *)

Definition list_tools (env : Env) : M t McpResult :=
  catch
    (ensureConnected ;;
     logDebug "Received list_tools request" ;;
     tools <- client (McpOAuthClient.listTools env) ;;
     logInfo "Returning tools" ;;
     ret tools)
    (fun _ =>
       logWarn "Error listing tools" ;;
       ret (ListToolsResult [])).

Definition call_tool (env : Env) (params : string) : M t McpResult :=
  catch
    (ensureConnected ;;
     logDebug "Received call_tool request" ;;
     result <- client (McpOAuthClient.callTool env params) ;;
     logInfo "Tool executed successfully" ;;
     ret result)
    (fun e =>
       logError "Error calling tool" ;;
       raise e).

Definition list_resources (env : Env) : M t McpResult :=
  catch
    (resources <- client (McpOAuthClient.listResources env) ;;
     ret resources)
    (fun _ =>
       logWarn "Error listing resources" ;;
       ret (ListResourcesResult [])).

Definition read_resource (env : Env) (params : string) : M t McpResult :=
  catch
    (result <- client (McpOAuthClient.readResource env params) ;;
     ret result)
    (fun e =>
       logError "Error reading resource" ;;
       raise e).

Definition list_prompts (env : Env) : M t McpResult :=
  catch
    (prompts <- client (McpOAuthClient.listPrompts env) ;;
     ret prompts)
    (fun _ =>
       logWarn "Error listing prompts" ;;
       ret (ListPromptsResult [])).

Definition get_prompt (env : Env) (params : string) : M t McpResult :=
  catch
    (result <- client (McpOAuthClient.getPrompt env params) ;;
     ret result)
    (fun e =>
       logError "Error getting prompt" ;;
       raise e).

Definition initialize : M t McpResult :=
  catch
    (cfg <- gets config ;;
     ret (InitializeResult "2024-11-05" (Config.name (Config.mcpServer cfg) ++ "-proxy")))
    (fun e =>
       logError "Error initializing" ;;
       raise e).

(** The handler registered for a forwarding operation. *)
Definition handler (env : Env) (op : Op) (params : string) : M t McpResult :=
  match op with
  | Op_listTools => list_tools env
  | Op_callTool => call_tool env params
  | Op_listResources => list_resources env
  | Op_readResource => read_resource env params
  | Op_listPrompts => list_prompts env
  | Op_getPrompt => get_prompt env params
  end.

(** [getMcpClient()] *)
Definition getMcpClient (p : t) : option Client :=
  McpOAuthClient.getClient (mcpOAuthClient p).

(** [get connected()] *)
Definition connected (p : t) : bool :=
  isConnected p && McpOAuthClient.connected (mcpOAuthClient p).

(** [async start()] *)
Definition start (env : Env) : M t unit :=
  catch
    (logInfo "Starting OAuth authentication and connecting to MCP server" ;;
     client (McpOAuthClient.connect env) ;;
     logInfo "Connected to MCP server with OAuth authentication" ;;
     assign_isConnected true ;;
     logInfo "Starting stdio proxy server" ;;
     await (stdio_connect env) (fun _ => EvStdioConnect) ;;
     modify (set_stdioServer true) ;;
     logInfo "Stdio proxy server started - ready to accept connections")
    (fun e =>
       logError "Error starting proxy" ;;
       assign_isConnected false ;;
       raise e).

(** [async stop()] *)
Definition stop (env : Env) : M t unit :=
  catch
    (logInfo "Shutting down proxy" ;;
     assign_isConnected false ;;
     client (McpOAuthClient.disconnect env) ;;
     await (stdio_close env) (fun _ => EvStdioClose) ;;
     modify (set_stdioServer false) ;;
     logInfo "Proxy shut down successfully")
    (fun _ => logError "Error shutting down proxy").

End McpStdioProxy.

(** * The logger and the configuration loader

    [src/logger.ts] and [src/config.ts], with the string functions of
    JavaScript they use.  Strings stand for ASCII text. *)

(** [s.toLowerCase()], on ASCII text. *)
Definition lower (c : ascii) : ascii :=
  let n := N_of_ascii c in
  if ((65 <=? n) && (n <=? 90))%N then ascii_of_N (n + 32) else c.

Fixpoint toLowerCase (s : string) : string :=
  match s with
  | EmptyString => EmptyString
  | String c r => String (lower c) (toLowerCase r)
  end.

(** [l.includes(x)] *)
Definition includes (l : list string) (x : string) : bool := existsb (String.eqb x) l.

(** [process.argv] and [process.env]. *)
Module process.
Record t : Type := {
  argv : list string;
  env : string -> option string
}.
End process.

(** [process.env.K === v] *)
Definition env_is (proc : process.t) (k v : string) : bool :=
  match process.env proc k with
  | Some x => x =? v
  | None => false
  end.

(** ** The logger ([src/logger.ts]) *)

Module Logger.

(** What [LOG_LEVELS[k]] evaluates to for an arbitrary key [k]: the number
    of one of the four levels, a property that the object literal inherits
    from [Object.prototype] (a function or an object, never a number), or
    [undefined]. *)
Inductive Looked : Type :=
| Priority (n : nat)
| Inherited
| Undefined.

Definition object_prototype_keys : list string :=
  ["constructor"; "__proto__"; "hasOwnProperty"; "isPrototypeOf";
   "propertyIsEnumerable"; "toLocaleString"; "toString"; "valueOf";
   "__defineGetter__"; "__defineSetter__"; "__lookupGetter__"; "__lookupSetter__"].

Definition LOG_LEVELS (k : string) : Looked :=
  if k =? "debug" then Priority 0
  else if k =? "info" then Priority 1
  else if k =? "warn" then Priority 2
  else if k =? "error" then Priority 3
  else if includes object_prototype_keys k then Inherited
  else Undefined.

(** [a < b]: a comparison with anything but a number goes through [NaN]
    and is false. *)
Definition lt (a b : Looked) : bool :=
  match a, b with
  | Priority x, Priority y => (x <? y)%nat
  | _, _ => false
  end.

(** [v !== undefined] *)
Definition defined (v : Looked) : bool :=
  match v with Undefined => false | _ => true end.

Definition level_name (l : LogLevel) : string :=
  match l with
  | debug => "debug"
  | info => "info"
  | warn => "warn"
  | error => "error"
  end.

Definition is_error (l : LogLevel) : bool :=
  match l with error => true | _ => false end.

(** The three module variables. *)
Record t : Type := {
  currentLogLevel : string;
  debugMode : bool;
  loggingEnabled : bool
}.

Definition initial : t :=
  {| currentLogLevel := "info"; debugMode := false; loggingEnabled := true |}.

(** [setLogLevel(level)] *)
Definition setLogLevel (level : string) (s : t) : t :=
  {| currentLogLevel := level; debugMode := debugMode s;
     loggingEnabled := loggingEnabled s |}.

(** [setDebugMode(enabled)] *)
Definition setDebugMode (enabled : bool) (s : t) : t :=
  if enabled
  then {| currentLogLevel := "debug"; debugMode := enabled; loggingEnabled := true |}
  else {| currentLogLevel := currentLogLevel s; debugMode := enabled;
          loggingEnabled := loggingEnabled s |}.

(** [setLoggingEnabled(enabled)] *)
Definition setLoggingEnabled (enabled : bool) (s : t) : t :=
  {| currentLogLevel := currentLogLevel s; debugMode := debugMode s;
     loggingEnabled := enabled |}.

(** [isDebugMode()] *)
Definition isDebugMode (s : t) : bool := debugMode s.

Section Entries.
(** The [data] argument is any JavaScript value; only its truthiness is
    looked at. *)
Variable Data : Type.
Variable data_truthy : Data -> bool.

Record LogEntry : Type := {
  timestamp : string;
  level : LogLevel;
  message : string;
  data : option Data
}.

(** [logJson(level, message, data)]: the entry handed to
    [JSON.stringify] and [console.error], or [None] when the function
    returns without writing.  [now] is [new Date().toISOString()]. *)
Definition logJson (now : string) (s : t) (level : LogLevel) (message : string)
  (data : option Data) : option LogEntry :=
  if negb (loggingEnabled s) && negb (is_error level && negb (debugMode s)) then None
  else if lt (LOG_LEVELS (level_name level)) (LOG_LEVELS (currentLogLevel s)) then None
  else Some {| timestamp := now; level := level; message := message;
               data := match data with
                       | Some d => if data_truthy d then Some d else None
                       | None => None
                       end |}.

Definition logInfo now s := logJson now s info.
Definition logError now s := logJson now s error.
Definition logWarn now s := logJson now s warn.
Definition logDebug now s := logJson now s debug.

End Entries.

(** [configureLogging()] *)
Definition configureLogging (proc : process.t) (s : t) : t :=
  let args := skipn 2 (process.argv proc) in
  let debugFlag := includes args "--debug" || includes args "-d" in
  let quietFlag := includes args "--quiet" || includes args "-q" in
  let envLogLevel := option_map toLowerCase (process.env proc "LOG_LEVEL") in
  let envDebug := env_is proc "DEBUG" "true" || env_is proc "DEBUG" "1" in
  let envQuiet := env_is proc "QUIET" "true" || env_is proc "QUIET" "1" in
  if debugFlag || envDebug then setDebugMode true s
  else if quietFlag || envQuiet then setLoggingEnabled false s
  else
    match envLogLevel with
    | Some l => if truthy l && defined (LOG_LEVELS l) then setLogLevel l s else s
    | None => s
    end.

(** Whether [logJson] writes. *)
Definition writes (s : t) (level : LogLevel) : bool :=
  match logJson (fun _ : unit => true) "" s level "" None with
  | Some _ => true
  | None => false
  end.

Definition priority (l : LogLevel) : nat :=
  match l with debug => 0 | info => 1 | warn => 2 | error => 3 end.

End Logger.

(** [debugFlag || envDebug] of [configureLogging]. *)

(** ** Loading the configuration ([src/config.ts]) *)

(** White space and line terminators, as [trim] and [parseInt] skip them
    in ASCII text.  JavaScript strips the no-break space, the byte order
    mark and the other Unicode spaces as well; these are not represented,
    and what is said below of the text that [trim] keeps is said of ASCII
    text. *)
Definition is_space (c : ascii) : bool :=
  let n := N_of_ascii c in
  ((9 <=? n) && (n <=? 13) || (n =? 32))%N.

(** [s.trimStart()] *)
Fixpoint trimStart (s : string) : string :=
  match s with
  | EmptyString => EmptyString
  | String c r => if is_space c then trimStart r else s
  end.

(** [s.trimEnd()] *)
Fixpoint trimEnd (s : string) : string :=
  match s with
  | EmptyString => EmptyString
  | String c r =>
      match trimEnd r with
      | EmptyString => if is_space c then EmptyString else String c EmptyString
      | r' => String c r'
      end
  end.

(** [s.trim()] *)
Definition trim (s : string) : string := trimEnd (trimStart s).

(** [s.split(sep)] for a separator of one character: never an empty
    array, [[""]] for the empty string. *)
Fixpoint split (sep : ascii) (s : string) : list string :=
  match s with
  | EmptyString => [EmptyString]
  | String c r =>
      if Ascii.eqb c sep then EmptyString :: split sep r
      else match split sep r with
           | h :: t => String c h :: t
           | [] => [String c EmptyString]
           end
  end.

Definition digit_value (c : ascii) : option Z :=
  let n := N_of_ascii c in
  if ((48 <=? n) && (n <=? 57))%N then Some (Z.of_N (n - 48)) else None.

(** The longest prefix of decimal digits, read as a number; [None] when
    there is no digit. *)
Fixpoint digits (acc : option Z) (s : string) : option Z :=
  match s with
  | EmptyString => acc
  | String c r =>
      match digit_value c with
      | Some d => digits (Some (10 * match acc with Some a => a | None => 0 end + d)%Z) r
      | None => acc
      end
  end.

(** [parseInt(s, 10)]: leading white space is skipped, a sign is read,
    then the digits up to the first character that is none; [None] is
    [NaN].  Exact integers stand for the doubles of JavaScript, with which
    they agree up to 2^53; the value is the configured port, which nothing
    below relies on beyond its being read or not. *)
Definition parseInt10 (s : string) : option Z :=
  match trimStart s with
  | String "-" r => option_map Z.opp (digits None r)
  | String "+" r => digits None r
  | r => digits None r
  end.

(** [v || d] for an environment variable. *)
Definition or_default (v : option string) (d : string) : string :=
  match v with
  | Some s => if truthy s then s else d
  | None => d
  end.

(** [v!] for an environment variable that was checked to be set. *)
Definition unwrap (v : option string) : string :=
  match v with
  | Some s => s
  | None => "undefined"
  end.

(** The object [loadConfig] returns ([Config] of [src/types.ts]); the
    port is a number that may be [NaN]. *)
Record LoadedConfig : Type := {
  loaded_oauth : Config.oauth_t;
  loaded_mcpServer : Config.mcpServer_t;
  loaded_port : option Z;
  loaded_logLevel : string
}.

Definition default_redirectUri : string := "http://localhost:3000/oauth/callback".

(** [loadConfig()]; [penv] is [process.env] (after [dotenv.config()]). *)
Definition loadConfig {St} (penv : string -> option string) : M St LoadedConfig :=
  let missingVars :=
    ((if negb (truthy_opt (penv "OAUTH_CLIENT_ID")) then ["OAUTH_CLIENT_ID"] else [])
     ++ (if negb (truthy_opt (penv "MCP_SERVER_URL")) then ["MCP_SERVER_URL"] else []))%list in
  if (0 <? List.length missingVars)%nat then
    logError "Missing required environment variables" ;;
    raise ("Missing required environment variables: " ++ String.concat ", " missingVars)
  else
    ret {| loaded_oauth :=
             {| Config.clientId := unwrap (penv "OAUTH_CLIENT_ID");
                Config.clientSecret := or_default (penv "OAUTH_CLIENT_SECRET") "";
                Config.redirectUri := or_default (penv "OAUTH_REDIRECT_URI") default_redirectUri;
                Config.scopes :=
                  match penv "OAUTH_SCOPES" with
                  | Some s =>
                      filter (fun s => (0 <? String.length s)%nat) (map trim (split "," s))
                  | None => []
                  end |};
           loaded_mcpServer :=
             {| Config.url := unwrap (penv "MCP_SERVER_URL");
                Config.name := or_default (penv "MCP_SERVER_NAME") "MCP Server" |};
           loaded_port := parseInt10 (or_default (penv "OAUTH_SERVER_PORT") "3000");
           loaded_logLevel := or_default (penv "LOG_LEVEL") "info" |}.

(** The part of it that [McpStdioProxy] and [McpOAuthClient] read. *)
Definition as_Config (l : LoadedConfig) : Config.t :=
  {| Config.oauth := loaded_oauth l;
     Config.mcpServer := loaded_mcpServer l;
     Config.oauthServer := {| Config.port := loaded_port l |} |}.

(** * Reasoning about runs *)

(** The three components of a run. *)
Definition outcome {St A} (x : Result A * St * Io) : Result A := fst (fst x).
Definition final {St A} (x : Result A * St * Io) : St := snd (fst x).
Definition trace {St A} (x : Result A * St * Io) : list Event := io_trace (snd x).

(** [post m s io Q]: the run of [m] from [s] and [io] ends in [Q]. *)
Definition post {St A} (m : M St A) (s : St) (io : Io)
  (Q : Result A -> St -> Io -> Prop) : Prop :=
  match m s io with
  | (r, s', io') => Q r s' io'
  end.

Section Calculus.
Context {St : Type}.

Lemma post_run {A} (m : M St A) s io Q :
  post m s io Q -> Q (outcome (m s io)) (final (m s io)) (snd (m s io)).
Proof. unfold post, outcome, final. destruct (m s io) as [[r s'] io']. auto. Qed.

Lemma post_mono {A} (m : M St A) s io (Q Q' : Result A -> St -> Io -> Prop) :
  post m s io Q -> (forall r s' io', Q r s' io' -> Q' r s' io') -> post m s io Q'.
Proof. unfold post. destruct (m s io) as [[r s'] io']. auto. Qed.

Lemma post_ret {A} (a : A) (s : St) io Q : Q (Ok a) s io -> post (ret a) s io Q.
Proof. exact (fun H => H). Qed.

Lemma post_raise {A} (e : Error) (s : St) io (Q : Result A -> St -> Io -> Prop) :
  Q (Throw e) s io -> post (raise e) s io Q.
Proof. exact (fun H => H). Qed.

Lemma post_bind {A B} (m : M St A) (k : A -> M St B) s io Q :
  post m s io (fun r s' io' =>
                 match r with
                 | Ok a => post (k a) s' io' Q
                 | Throw e => Q (Throw e) s' io'
                 end) ->
  post (bind m k) s io Q.
Proof.
  unfold post; cbn; unfold mbind.
  destruct (m s io) as [[[a|e] s'] io']; auto.
Qed.

Lemma post_catch {A} (m : M St A) (h : Error -> M St A) s io Q :
  post m s io (fun r s' io' =>
                 match r with
                 | Ok a => Q (Ok a) s' io'
                 | Throw e => post (h e) s' io' Q
                 end) ->
  post (catch m h) s io Q.
Proof.
  unfold post; cbn; unfold try_catch.
  destruct (m s io) as [[[a|e] s'] io']; auto.
Qed.

Lemma post_gets {A} (f : St -> A) s io Q : Q (Ok (f s)) s io -> post (gets f) s io Q.
Proof. exact (fun H => H). Qed.

Lemma post_modify (f : St -> St) s io Q : Q (Ok tt) (f s) io -> post (modify f) s io Q.
Proof. exact (fun H => H). Qed.

Lemma post_emit ev (s : St) io Q : Q (Ok tt) s (tell io ev) -> post (emit ev) s io Q.
Proof. exact (fun H => H). Qed.

Lemma post_extern {A} (oracle : nat -> A) ev (s : St) io Q :
  Q (Ok (oracle (io_tick io))) s (answered io (ev (oracle (io_tick io)))) ->
  post (extern oracle ev) s io Q.
Proof. exact (fun H => H). Qed.

Lemma post_await {A} (oracle : nat -> Result A) ev (s : St) io Q :
  Q (oracle (io_tick io)) s (answered io (ev (oracle (io_tick io)))) ->
  post (await oracle ev) s io Q.
Proof.
  unfold post, await; cbn; unfold mbind, extern.
  destruct (oracle (io_tick io)); auto.
Qed.

Lemma post_new_URL env (u : string) (s : St) io Q :
  (if url_parses env u then Q (Ok u) s io else Q (Throw "Invalid URL") s io) ->
  post (new_URL env u) s io Q.
Proof. unfold new_URL. destruct (url_parses env u); auto. Qed.

End Calculus.

Lemma post_zoom {St T A} (get : St -> T) (set : T -> St -> St) (m : M T A) s io Q :
  post m (get s) io (fun r t' io' => Q r (set t' s) io') ->
  post (zoom get set m) s io Q.
Proof.
  unfold post, zoom. destruct (m (get s) io) as [[r t'] io']. auto.
Qed.

(** One step of symbolic execution. *)
Ltac step :=
  cbv beta iota;
  lazymatch goal with
  | |- post (bind _ _) _ _ _ => apply post_bind
  | |- post (ret _) _ _ _ => apply post_ret
  | |- post (raise _) _ _ _ => apply post_raise
  | |- post (catch _ _) _ _ _ => apply post_catch
  | |- post (gets _) _ _ _ => apply post_gets
  | |- post (modify _) _ _ _ => apply post_modify
  | |- post (emit _) _ _ _ => apply post_emit
  | |- post (logInfo _) _ _ _ => apply post_emit
  | |- post (logWarn _) _ _ _ => apply post_emit
  | |- post (logError _) _ _ _ => apply post_emit
  | |- post (logDebug _) _ _ _ => apply post_emit
  | |- post (extern _ _) _ _ _ => apply post_extern
  | |- post (await _ _) _ _ _ => apply post_await
  | |- post (new_URL _ _) _ _ _ => apply post_new_URL
  | |- post (zoom _ _ _) _ _ _ => apply post_zoom
  | |- post (McpOAuthClient.provider _) _ _ _ => apply post_zoom
  | |- post (McpStdioProxy.client _) _ _ _ => apply post_zoom
  | |- post ProxyOAuthProvider.tokens _ _ _ => apply post_gets
  | |- post ProxyOAuthProvider.getAuthorizationCode _ _ _ => apply post_gets
  | |- post ProxyOAuthProvider.clearAuthorizationCode _ _ _ => apply post_modify
  | |- post (ProxyOAuthProvider.saveCodeVerifier _) _ _ _ => apply post_modify
  | |- post (ProxyOAuthProvider.saveClientInformation _) _ _ _ => apply post_modify
  | |- post (ProxyOAuthProvider.settle_promise _) _ _ _ => apply post_modify
  | |- post ProxyOAuthProvider.resolve _ _ _ => apply post_modify
  | |- post (ProxyOAuthProvider.reject _) _ _ _ => apply post_modify
  | |- post (ProxyOAuthProvider.send _) _ _ _ => apply post_emit
  | |- post (ProxyOAuthProvider.saveTokens _) _ _ _ =>
      unfold ProxyOAuthProvider.saveTokens
  | |- post ProxyOAuthProvider.close_oauthServer _ _ _ =>
      unfold ProxyOAuthProvider.close_oauthServer
  | |- post ProxyOAuthProvider.codeVerifier _ _ _ =>
      unfold ProxyOAuthProvider.codeVerifier
  | |- post (if ?b then _ else _) _ _ _ => destruct b eqn:?
  | |- post (match ?x with _ => _ end) _ _ _ => destruct x eqn:?
  | |- match ?x with Ok _ => _ | Throw _ => _ end => destruct x eqn:?
  | |- if ?b then _ else _ => destruct b eqn:?
  end; cbv beta iota.

Ltac steps := repeat step.

(** [emits allowed io io']: the trace of [io'] extends that of [io] by
    events that all satisfy [allowed]. *)
Definition emits (allowed : Event -> bool) (io io' : Io) : Prop :=
  exists new, io_trace io' = (io_trace io ++ new)%list /\ forallb allowed new = true.

Lemma emits_refl allowed io : emits allowed io io.
Proof. exists []. split; [now rewrite app_nil_r | reflexivity]. Qed.

Lemma emits_trans allowed io1 io2 io3 :
  emits allowed io1 io2 -> emits allowed io2 io3 -> emits allowed io1 io3.
Proof.
  intros [n1 [E1 F1]] [n2 [E2 F2]]. exists (n1 ++ n2)%list. split.
  - rewrite E2, E1. now rewrite app_assoc.
  - rewrite forallb_app, F1, F2. reflexivity.
Qed.

Lemma emits_tell allowed io io' ev :
  emits allowed io io' -> allowed ev = true -> emits allowed io (tell io' ev).
Proof.
  intros H A. apply emits_trans with io'; [assumption|].
  exists [ev]. split; [reflexivity | cbn; now rewrite A].
Qed.

Lemma emits_answered allowed io io' ev :
  emits allowed io io' -> allowed ev = true -> emits allowed io (answered io' ev).
Proof.
  intros H A. apply emits_trans with io'; [assumption|].
  exists [ev]. split; [reflexivity | cbn; now rewrite A].
Qed.

Lemma emits_weaken (a b : Event -> bool) io io' :
  (forall ev, a ev = true -> b ev = true) -> emits a io io' -> emits b io io'.
Proof.
  intros W [n [E F]]. exists n. split; [assumption|].
  rewrite forallb_forall in *. auto.
Qed.

Create HintDb trace.
#[global] Hint Resolve emits_refl emits_tell emits_answered : trace.

(** Unfold the monad, for runs short enough to be computed outright. *)
Ltac run :=
  cbv beta iota zeta delta
    [bind ret raise catch Monad_M Exception_M mbind mret throw try_catch gets modify
     emit extern await zoom logInfo logWarn logError logDebug new_URL].

(** [precedes P Q tr]: every event of [tr] that satisfies [Q] comes after
    an event that satisfies [P]. *)
Fixpoint preceded_from (P Q : Event -> bool) (seen : bool) (tr : list Event) : bool :=
  match tr with
  | [] => true
  | e :: r => (negb (Q e) || seen) && preceded_from P Q (seen || P e) r
  end.

Definition precedes (P Q : Event -> bool) (tr : list Event) : bool :=
  preceded_from P Q false tr.

Definition is_gate_closing (e : Event) : bool :=
  match e with EvGate false => true | _ => false end.

Definition is_close (e : Event) : bool :=
  match e with EvMcpClose | EvStdioClose => true | _ => false end.

Definition is_upstream (e : Event) : bool :=
  match e with EvUpstream _ _ => true | _ => false end.

(** * The proxy's [stop] *)

(** C10. [stop] never throws, whatever the two close calls answer; it
    writes [false] to the proxy's connected flag before any close call is
    made, so the flag and the [connected] getter are [false] afterwards; a
    failing close ends in the error log, not in a fault. *)
Theorem stop_never_throws_gate_closed_first (env : Env) (p : McpStdioProxy.t) (io : Io) :
  exists p' io' new,
    McpStdioProxy.stop env p io = (Ok tt, p', io')
    /\ io_trace io' = (io_trace io ++ new)%list
    /\ McpStdioProxy.isConnected p' = false
    /\ McpStdioProxy.connected p' = false
    /\ precedes is_gate_closing is_close new = true
    /\ (In (EvLog info "Proxy shut down successfully") new
        \/ In (EvLog error "Error shutting down proxy") new)
    /\ (forall c e,
          McpOAuthClient.mcpClient (McpStdioProxy.mcpOAuthClient p) = Some c ->
          mcp_close env (io_tick io) = Throw e ->
          In (EvLog error "Error shutting down proxy") new
          /\ ~ In EvStdioClose new
          /\ McpOAuthClient.mcpClient (McpStdioProxy.mcpOAuthClient p') = Some c).
Proof.
  unfold McpStdioProxy.stop, McpStdioProxy.client, McpOAuthClient.disconnect,
    McpStdioProxy.assign_isConnected, McpStdioProxy.connected.
  run. unfold tell, answered.
  destruct p as [cfg [ccfg mc prov ic rm] sv g]; cbn.
  destruct mc; cbn;
    [destruct (mcp_close env (io_tick io)) eqn:Hclose; cbn|];
    try (destruct (stdio_close env _); cbn);
    rewrite <- ?app_assoc; cbn; do 3 eexists; repeat split; cbn; auto 12;
    try discriminate; try congruence.
  intros [F|[F|[F|[F|[]]]]]; discriminate.
Qed.

(** * The callback listener *)

Ltac unfold_listener :=
  unfold ProxyOAuthProvider.deliver, ProxyOAuthProvider.callback_handler,
    ProxyOAuthProvider.send, ProxyOAuthProvider.close_oauthServer,
    ProxyOAuthProvider.reject, ProxyOAuthProvider.resolve,
    ProxyOAuthProvider.settle_promise.

(** The request comes on a connection that is open. *)
Definition known (req : Request) (p : ProxyOAuthProvider.t) : bool :=
  existsb (Nat.eqb (req_connection req)) (ProxyOAuthProvider.connections p).

(** The provider once the connection of [req] is accepted. *)
Definition accepted_on (req : Request) (p : ProxyOAuthProvider.t) : ProxyOAuthProvider.t :=
  if known req p then p
  else ProxyOAuthProvider.set_connections
         (req_connection req :: ProxyOAuthProvider.connections p) p.

(** A closed listener accepts no new connection: no event, no change. *)
Lemma deliver_refused env req p s io :
  ProxyOAuthProvider.oauthServer p = Some s ->
  srv_listening s = false ->
  known req p = false ->
  ProxyOAuthProvider.deliver env req p io = (Ok tt, p, io).
Proof.
  intros Hs Hl Hk. unfold known in Hk. unfold ProxyOAuthProvider.deliver. run.
  now rewrite Hs, Hl, Hk.
Qed.

Lemma forEach_cons {St A} (a : A) (r : list A) (f : A -> M St unit) s io :
  forEach (a :: r) f s io =
  match f a s io with
  | (Ok _, s', io') => forEach r f s' io'
  | (Throw e, s', io') => (Throw e, s', io')
  end.
Proof. reflexivity. Qed.

Lemma deliver_all_refused env reqs p s io :
  ProxyOAuthProvider.oauthServer p = Some s ->
  srv_listening s = false ->
  forallb (fun r => negb (known r p)) reqs = true ->
  forEach reqs (ProxyOAuthProvider.deliver env) p io = (Ok tt, p, io).
Proof.
  intros Hs Hl. induction reqs as [|req reqs IH]; [reflexivity|].
  cbn [forallb]. intros H. apply andb_prop in H. destruct H as [Hk H].
  apply negb_true_iff in Hk.
  rewrite forEach_cons, (deliver_refused env req p io Hs Hl Hk). exact (IH H).
Qed.

(** What one request on the callback path does when it is served, by a
    listening server or on a connection that is open: one page is sent,
    [close()] is called, and the authorization code is stored exactly when
    the request carries no error, the stored state and a code. *)
Lemma deliver_served env req p s io :
  ProxyOAuthProvider.oauthServer p = Some s ->
  srv_listening s || known req p = true ->
  route_matches env (srv_path s) (req_path req) = true ->
  exists html,
    ProxyOAuthProvider.deliver env req p io =
      (Ok tt,
       ProxyOAuthProvider.set_authorizationCode
         (if negb (qval_truthy (query_get (req_query req) "error"))
             && negb (strict_neq (query_get (req_query req) "state")
                        (ProxyOAuthProvider._state p))
             && qval_truthy (query_get (req_query req) "code")
          then query_get (req_query req) "code"
          else ProxyOAuthProvider.authorizationCode p)
         (ProxyOAuthProvider.set_oauthServer
            (Some {| srv_port := srv_port s; srv_path := srv_path s;
                     srv_listening := false;
                     srv_promise :=
                       settle
                         (if qval_truthy (query_get (req_query req) "error")
                          then Rejected ("OAuth error: "
                                         ++ qval_text (query_get (req_query req) "error"))
                          else if strict_neq (query_get (req_query req) "state")
                                    (ProxyOAuthProvider._state p)
                          then Rejected "Invalid OAuth state"
                          else if qval_truthy (query_get (req_query req) "code")
                          then Fulfilled
                          else Rejected "No authorization code received")
                         (srv_promise s) |}) (accepted_on req p)),
       tell (tell io (EvSend html)) EvServerClose).
Proof.
  intros Hs Hl Hr. unfold accepted_on, known in *. unfold_listener. run.
  rewrite Hs, Hl.
  destruct p as [cfg tk ci cv st srv code conns]; cbn in *.
  destruct (existsb (Nat.eqb (req_connection req)) conns); cbn; rewrite Hr;
    (destruct (qval_truthy (query_get (req_query req) "error")); cbn;
     [rewrite Hs; cbn; eexists; reflexivity|];
     destruct (strict_neq (query_get (req_query req) "state") st); cbn;
     [rewrite Hs; cbn; eexists; reflexivity|];
     destruct (qval_truthy (query_get (req_query req) "code")); cbn;
     rewrite Hs; cbn; eexists; reflexivity).
Qed.

(** * A concrete world, for the examples *)

Module Demo.

Definition config : Config.t :=
  {| Config.oauth :=
       {| Config.clientId := "proxy-client"; Config.clientSecret := "";
          Config.redirectUri := "http://localhost:3000/oauth/callback";
          Config.scopes := [] |};
     Config.mcpServer := {| Config.url := "https://mcp.example/sse"; Config.name := "demo" |};
     Config.oauthServer := {| Config.port := Some 3000%Z |} |}.

Definition resource_metadata : OAuthProtectedResourceMetadata :=
  {| resource := Some "https://mcp.example";
     authorization_servers := Some ["https://idp.example/tenant"];
     scopes_supported := Some ["read"; "write"] |}.

Definition server_metadata : OAuthMetadata :=
  {| issuer := "https://idp.example/tenant";
     authorization_endpoint := "https://idp.example/tenant/authorize";
     token_endpoint := "https://idp.example/tenant/token";
     code_challenge_methods_supported := Some ["S256"] |}.

Definition good_response : Response :=
  {| status := 200; statusText := "OK"; json := Ok server_metadata |}.

(** The authorization URL as the SDK builds it when no metadata is given:
    [/authorize] under the server, [state] and [scope] only when set. *)
Definition authorization_url (server : string) (p : StartAuthorizationParams) : URL :=
  {| url_base := server ++ "/authorize";
     url_query :=
       ([("response_type", "code");
         ("client_id", client_id (sa_clientInformation p));
         ("code_challenge", "challenge");
         ("code_challenge_method", "S256");
         ("redirect_uri", sa_redirectUrl p)]
        ++ match sa_state p with Some s => [("state", s)] | None => [] end
        ++ match sa_scope p with Some s => [("scope", s)] | None => [] end)%list |}.

(** The random bytes drawn at a tick: all equal to the tick's number. *)
Definition draw (tick n : nat) : list Byte.byte :=
  repeat (match Byte.of_nat tick with Some b => b | None => Byte.x00 end) n.

Definition env (requests : list Request) (fetches : nat -> string -> Result Response)
  (refresh : Result OAuthTokens) (close : Result unit) : Env :=
  {| url_parses := fun _ => true;
     url_pathname := fun _ => "/oauth/callback";
     url_port := fun _ => "3000";
     url_parse := fun s => {| url_base := s; url_query := [] |};
     route_matches := String.eqb;
     discoverOAuthProtectedResourceMetadata := fun _ _ => Ok (Some resource_metadata);
     registerClient := fun _ _ _ => Ok {| client_id := "registered"; client_secret := None |};
     exchangeAuthorization := fun _ _ _ _ _ _ =>
       Ok {| access_token := "access-1"; refresh_token := Some "refresh-1" |};
     refreshAuthorization := fun _ _ _ _ => refresh;
     startAuthorization := fun _ server p => Ok (authorization_url server p, "verifier");
     fetch := fetches;
     randomBytes := draw;
     listen := fun _ _ => Listening;
     open := fun _ _ => Ok tt;
     callbacks := fun _ => requests;
     mcp_connect := fun _ => Ok tt;
     mcp_close := fun _ => close;
     mcp_request := fun _ op params =>
       Ok match op with
          | Op_listTools => ListToolsResult ["echo"]
          | Op_callTool => CallToolResult params
          | Op_listResources => ListResourcesResult ["file:///notes"]
          | Op_readResource => ReadResourceResult params
          | Op_listPrompts => ListPromptsResult ["greet"]
          | Op_getPrompt => GetPromptResult params
          end;
     stdio_connect := fun _ => Ok tt;
     stdio_close := fun _ => Ok tt |}.

(** The state generated from the draw at tick [n]. *)
Definition state_at (n : nat) : string := hex (draw n 32).

(** A request on the callback path, on the connection [k]. *)
Definition callback_on (k : nat) (q : list (string * QVal)) : Request :=
  {| req_connection := k; req_path := "/oauth/callback"; req_query := q |}.

Definition callback (q : list (string * QVal)) : Request := callback_on 0 q.

End Demo.

(** * The forwarding handlers *)

Ltac unfold_handlers :=
  unfold McpStdioProxy.handler, McpStdioProxy.list_tools, McpStdioProxy.call_tool,
    McpStdioProxy.list_resources, McpStdioProxy.read_resource,
    McpStdioProxy.list_prompts, McpStdioProxy.get_prompt,
    McpStdioProxy.ensureConnected, McpStdioProxy.client,
    McpOAuthClient.listTools, McpOAuthClient.callTool, McpOAuthClient.listResources,
    McpOAuthClient.readResource, McpOAuthClient.listPrompts, McpOAuthClient.getPrompt,
    McpOAuthClient.delegate.

Definition not_connected : Error :=
  "Proxy not connected to MCP server. Connection may have failed during startup.".

(** The two handlers that call [ensureConnected] do what is asked of a
    closed gate. *)
Lemma list_tools_gate_closed env p io :
  McpStdioProxy.isConnected p = false ->
  McpStdioProxy.list_tools env p io =
    (Ok (ListToolsResult []), p, tell io (EvLog warn "Error listing tools")).
Proof. intros H. unfold_handlers. run. now rewrite H. Qed.

Lemma call_tool_gate_closed env params p io :
  McpStdioProxy.isConnected p = false ->
  McpStdioProxy.call_tool env params p io =
    (Throw not_connected, p, tell io (EvLog error "Error calling tool")).
Proof. intros H. unfold_handlers. run. now rewrite H. Qed.

(** The four handlers that do not call it look at the upstream client
    only: with a client in place they forward, whatever the gate says. *)
Lemma ungated_handlers_forward env op params p c io :
  McpOAuthClient.mcpClient (McpStdioProxy.mcpOAuthClient p) = Some c ->
  op <> Op_listTools -> op <> Op_callTool ->
  exists r,
    trace (McpStdioProxy.handler env op params p io) =
      (io_trace io ++ EvUpstream op (match op with
                                     | Op_readResource | Op_getPrompt => params
                                     | _ => ""
                                     end) :: r)%list.
Proof.
  intros Hc H1 H2. unfold trace.
  destruct op; try congruence; unfold_handlers; run; rewrite Hc; cbn;
    destruct (mcp_request env (io_tick io) _ _); cbn; eexists;
    rewrite <- ?app_assoc; reflexivity.
Qed.

(** The proxy of the demo after [start] has succeeded and [stop] has met a
    failing upstream close. *)
Definition half_stopped_env : Env :=
  Demo.env
    [Demo.callback [("code", QStr "abc123"); ("state", QStr (Demo.state_at 3))]]
    (fun _ _ => Ok Demo.good_response)
    (Throw "invalid_grant")
    (Throw "socket hang up").

Definition half_stopped : Result unit * McpStdioProxy.t * Io :=
  match McpStdioProxy.start half_stopped_env (McpStdioProxy.new Demo.config) io0 with
  | (_, p, io) => McpStdioProxy.stop half_stopped_env p io
  end.

(** C2 (the code departs from the claim).  After a [stop] whose upstream
    close failed, the gate is closed, the stdio server is still connected
    and the upstream client is still in place.  [list_tools] and
    [call_tool] then do what the claim says, but the four handlers without
    [ensureConnected] call the upstream server and hand its answer back. *)
Theorem ungated_handlers_forward_through_closed_gate :
  let p := final half_stopped in
  let io := snd half_stopped in
  let env := half_stopped_env in
  McpStdioProxy.isConnected p = false
  /\ McpStdioProxy.connected p = false
  /\ McpStdioProxy.stdioServer p = true
  /\ McpStdioProxy.handler env Op_listTools "" p io
     = (Ok (ListToolsResult []), p, tell io (EvLog warn "Error listing tools"))
  /\ McpStdioProxy.handler env Op_callTool "echo" p io
     = (Throw not_connected, p, tell io (EvLog error "Error calling tool"))
  /\ McpStdioProxy.handler env Op_listResources "" p io
     = (Ok (ListResourcesResult ["file:///notes"]), p,
        answered io (EvUpstream Op_listResources ""))
  /\ McpStdioProxy.handler env Op_readResource "file:///notes" p io
     = (Ok (ReadResourceResult "file:///notes"), p,
        answered io (EvUpstream Op_readResource "file:///notes"))
  /\ McpStdioProxy.handler env Op_listPrompts "" p io
     = (Ok (ListPromptsResult ["greet"]), p, answered io (EvUpstream Op_listPrompts ""))
  /\ McpStdioProxy.handler env Op_getPrompt "greet" p io
     = (Ok (GetPromptResult "greet"), p, answered io (EvUpstream Op_getPrompt "greet")).
Proof. vm_compute. repeat split. Qed.

(** * Metadata discovery *)

Definition oauth_endpoint (serverUrl : string) : string :=
  serverUrl ++ "/.well-known/oauth-authorization-server".

Definition openid_endpoint (serverUrl : string) : string :=
  serverUrl ++ "/.well-known/openid-configuration".

(** The URLs fetched, in order. *)
Fixpoint fetched (tr : list Event) : list string :=
  match tr with
  | [] => []
  | EvFetch u :: r => u :: fetched r
  | _ :: r => fetched r
  end.

(** The claim's reading of discovery: a response is usable when it
    arrived, has a 2xx status and parses; the first usable one of the two
    is returned, and discovery fails when neither is usable. *)
Definition usable (r : Result Response) : option OAuthMetadata :=
  match r with
  | Ok x => if ok x then match json x with Ok m => Some m | Throw _ => None end else None
  | Throw _ => None
  end.

Definition discovery_as_claimed (first second : Result Response) : Result OAuthMetadata :=
  match usable first, usable second with
  | Some m, _ => Ok m
  | None, Some m => Ok m
  | None, None => Throw no_metadata
  end.

Definition not_json : Response :=
  {| status := 200; statusText := "OK"; json := Throw "Unexpected token < in JSON" |}.

(** The first endpoint answers 200 with a body that is not JSON. *)
Definition env_first_not_json : Env :=
  Demo.env []
    (fun tick _ => if (tick =? 0)%nat then Ok not_json else Ok Demo.good_response)
    (Throw "invalid_grant") (Ok tt).

(** The first request fails on the network. *)
Definition env_first_unreachable : Env :=
  Demo.env []
    (fun tick _ => if (tick =? 0)%nat then Throw "ECONNRESET" else Ok Demo.good_response)
    (Throw "invalid_grant") (Ok tt).

(** C6, counterexample.  With a first endpoint that answers 200 without
    JSON, or that cannot be reached, and a second endpoint that is in
    order, the claim returns the second body; the code requests only the
    first endpoint and fails. *)
Lemma discovery_does_not_fall_back_on_bad_body_or_network_error :
  let server := "https://idp.example/tenant" in
  (let env := env_first_not_json in
   discovery_as_claimed (fetch env 0 (oauth_endpoint server))
                        (fetch env 1 (openid_endpoint server)) = Ok Demo.server_metadata
   /\ outcome (discoverOAuthMetadata env server tt io0) = Throw "Unexpected token < in JSON"
   /\ fetched (trace (discoverOAuthMetadata env server tt io0)) = [oauth_endpoint server])
  /\
  (let env := env_first_unreachable in
   discovery_as_claimed (fetch env 0 (oauth_endpoint server))
                        (fetch env 1 (openid_endpoint server)) = Ok Demo.server_metadata
   /\ outcome (discoverOAuthMetadata env server tt io0) = Throw no_metadata
   /\ fetched (trace (discoverOAuthMetadata env server tt io0)) = [oauth_endpoint server]).
Proof. vm_compute. repeat split. Qed.

(** C6, as amended.  For a base URL whose two well-known URLs parse:
    discovery requests the OAuth endpoint first and the OpenID endpoint
    only when the first request was answered with a status outside 2xx;
    it settles to the [json()] of the first 2xx response, and it fails
    with the no-metadata error when the first request is rejected, or the
    first status is not 2xx and the second request is rejected or not 2xx
    either. *)
Theorem discovery_falls_back_on_status_only
  {St : Type} (env : Env) (serverUrl : string) (s : St) (io : Io) :
  url_parses env (oauth_endpoint serverUrl) = true ->
  url_parses env (openid_endpoint serverUrl) = true ->
  let first := fetch env (io_tick io) (oauth_endpoint serverUrl) in
  let second := fetch env (S (io_tick io)) (openid_endpoint serverUrl) in
  exists r io' new,
    discoverOAuthMetadata env serverUrl s io = (r, s, io')
    /\ io_trace io' = (io_trace io ++ new)%list
    /\ match first with
       | Throw _ => fetched new = [oauth_endpoint serverUrl] /\ r = Throw no_metadata
       | Ok r1 =>
           if ok r1 then fetched new = [oauth_endpoint serverUrl] /\ r = json r1
           else
             fetched new = [oauth_endpoint serverUrl; openid_endpoint serverUrl]
             /\ r = match second with
                    | Ok r2 => if ok r2 then json r2 else Throw no_metadata
                    | Throw _ => Throw no_metadata
                    end
       end.
Proof.
  intros P1 P2 first second. subst first second.
  unfold discoverOAuthMetadata, oauth_endpoint, openid_endpoint in *.
  run. rewrite P1, P2. unfold tell, answered; cbn.
  destruct (fetch env (io_tick io) _) as [r1|e1]; cbn.
  - destruct (ok r1); cbn.
    + destruct (json r1); cbn; do 3 eexists; rewrite <- ?app_assoc;
        repeat split; reflexivity.
    + destruct (fetch env (S (io_tick io)) _) as [r2|e2]; cbn.
      * destruct (ok r2); cbn; [destruct (json r2); cbn|];
          do 3 eexists; rewrite <- ?app_assoc; repeat split; reflexivity.
      * do 3 eexists; rewrite <- ?app_assoc; repeat split; reflexivity.
  - do 3 eexists; rewrite <- ?app_assoc; repeat split; reflexivity.
Qed.

Lemma discovery_falls_back_on_status_only_witness :
  exists r io' new,
    discoverOAuthMetadata env_first_not_json "https://idp.example/tenant" tt io0 = (r, tt, io')
    /\ io_trace io' = (io_trace io0 ++ new)%list
    /\ fetched new = [oauth_endpoint "https://idp.example/tenant"]
    /\ r = Throw "Unexpected token < in JSON".
Proof.
  exact (discovery_falls_back_on_status_only env_first_not_json
           "https://idp.example/tenant" tt io0 eq_refl eq_refl).
Defined.

(** * The CSRF state and the code verifier *)

(** The [state] parameters given to [startAuthorization], in order. *)
Fixpoint states_used (tr : list Event) : list (option string) :=
  match tr with
  | [] => []
  | EvStartAuthorization _ p :: r => sa_state p :: states_used r
  | _ :: r => states_used r
  end.

(** The random draws made, counted. *)
Fixpoint draws (tr : list Event) : nat :=
  match tr with
  | [] => 0
  | EvRandomBytes _ :: r => S (draws r)
  | _ :: r => draws r
  end.

(** No callback ever arrives: each attempt ends at the deadline. *)
Definition env_no_callback : Env :=
  Demo.env [] (fun _ _ => Ok Demo.good_response) (Throw "invalid_grant") (Ok tt).

Definition first_attempt : Result unit * McpOAuthClient.t * Io :=
  McpOAuthClient.connect env_no_callback (McpOAuthClient.new Demo.config) io0.

Definition retry : Result unit * McpOAuthClient.t * Io :=
  McpOAuthClient.connect env_no_callback (final first_attempt) (snd first_attempt).

(** C5, counterexample.  A first attempt times out; the retry on the same
    client sends the very state of the first attempt to the authorization
    server, and draws no new random bytes, although the environment would
    have answered a new draw differently. *)
Lemma retry_reuses_csrf_state :
  outcome first_attempt = Throw "Authorization code timeout"
  /\ states_used (trace first_attempt) = [Some (Demo.state_at 3)]
  /\ states_used (trace retry) = [Some (Demo.state_at 3); Some (Demo.state_at 3)]
  /\ draws (trace retry) = 1
  /\ hex (randomBytes env_no_callback (io_tick (snd first_attempt) + 3) 32)
     <> Demo.state_at 3.
Proof. vm_compute. repeat split. discriminate. Qed.

Lemma hex_truthy (bytes : list Byte.byte) : bytes <> [] -> truthy (hex bytes) = true.
Proof. destruct bytes; [congruence | reflexivity]. Qed.

(** * What [customAuth] may emit *)

Ltac trace_ok :=
  repeat first [ apply emits_refl | assumption | apply emits_tell | apply emits_answered
               | eapply emits_trans; [|eassumption] ];
  auto.

(** The [scope] that [customAuth] hands to [startAuthorization]:
    [options.scope || provider.clientMetadata.scope], the latter never set. *)
Definition scope_argument (options : Options.t) : option string :=
  if truthy_opt (Options.scope options) then Options.scope options else None.

Section Safety.
Variables (env : Env) (A : Event -> bool).
Hypothesis A_log : forall l m, A (EvLog l m) = true.
Hypothesis A_fetch : forall u, A (EvFetch u) = true.
Hypothesis A_prm : forall u, A (EvDiscoverPRM u) = true.

Lemma discoverOAuthMetadata_safe {St} u (s : St) io :
  post (discoverOAuthMetadata env u) s io (fun r s' io' => s' = s /\ emits A io io').
Proof.
  unfold discoverOAuthMetadata. steps; (split; [reflexivity | trace_ok]).
Qed.

End Safety.

(** The authorization server [customAuth] settles on: the first one that
    the protected-resource metadata lists, and the server URL it was given
    when the discovery fails, finds nothing or lists none. *)
Definition chosen_server (env : Env) (tick : nat) (serverUrl : string) : string :=
  match discoverOAuthProtectedResourceMetadata env tick serverUrl with
  | Ok (Some m) =>
      match authorization_servers m with
      | Some (first :: _) => first
      | _ => serverUrl
      end
  | _ => serverUrl
  end.

(** The server URL under which the authorization URL is rebuilt when it
    does not begin with the server URL: [/v2.0] at the end becomes
    [/oauth2/v2.0]. *)
Definition v2_server (a : string) : string :=
  if negb (endsWith a "/oauth2/v2.0") && endsWith a "/v2.0"
  then replace a "/v2.0" "/oauth2/v2.0" else a.

(** The beginning of [customAuth], up to the client information, for a
    goal [post (customAuth env options) p io Q]: the authorization server
    [asu] is chosen ([Hasu]), the provider [p] is untouched but for
    [_clientInformation], which is never left absent, so that the
    registration branch is not entered.  Two goals are left: [Q] when
    metadata discovery has thrown, and the rest of the function. *)
Ltac enter_customAuth_in env options A p io :=
  unfold customAuth;
  step; step;
  apply post_bind;
  apply post_mono with
    (Q := fun r s' io' =>
            r = Ok (chosen_server env (io_tick io) (Options.serverUrl options))
            /\ s' = p /\ emits A io io');
  [ unfold chosen_server; cbn [tell io_tick];
    steps; cbn [tell io_tick answered] in *;
    (split;
     [ repeat (match goal with
               | H : discoverOAuthProtectedResourceMetadata _ _ _ = _ |- _ => rewrite H
               | H : authorization_servers _ = _ |- _ => rewrite H
               end; cbv beta iota);
       reflexivity
     | split; [reflexivity | trace_ok]]) | ];
  let r := fresh "r" in
  let s' := fresh "s'" in
  let io1 := fresh "io1" in
  let E1 := fresh "E1" in
  let asu := fresh "asu" in
  let Hasu := fresh "Hasu" in
  intros r s' io1 (-> & -> & E1);
  remember (chosen_server env (io_tick io) (Options.serverUrl options)) as asu eqn:Hasu;
  apply post_bind;
  (eapply post_mono; [apply (discoverOAuthMetadata_safe _ A); auto |]);
  let r2 := fresh "r" in
  let s2 := fresh "s'" in
  let io2 := fresh "io2" in
  let E2 := fresh "E2" in
  intros r2 s2 io2 (-> & E2);
  assert (emits A io io2) by (eapply emits_trans; eauto);
  clear E1 E2;
  destruct r2 as [?md|?e];
  [ apply post_bind; unfold ProxyOAuthProvider.clientInformation;
    apply post_mono with
      (Q := fun r s' io' =>
              exists c, r = Ok (Some c)
                        /\ ProxyOAuthProvider.set_clientInformation (Some c) p = s'
                        /\ io' = io2);
    [ steps; cbn; eexists; repeat split; destruct p; cbn in *; subst; reflexivity | ];
    let r3 := fresh "r" in
    let p1 := fresh "p1" in
    let io3 := fresh "io3" in
    let c := fresh "c" in
    let F := fresh "F" in
    intros r3 p1 io3 (c & -> & F & ->);
    step; step
  | ].

Ltac enter_customAuth A p io :=
  lazymatch goal with
  | |- post (customAuth ?env ?options) _ _ _ => enter_customAuth_in env options A p io
  end.

Definition is_exchange (e : Event) : bool :=
  match e with EvExchange _ _ _ _ _ _ => true | _ => false end.

Definition is_register (e : Event) : bool :=
  match e with EvRegisterClient _ _ => true | _ => false end.

Definition is_refresh (e : Event) : bool :=
  match e with EvRefresh _ _ _ _ => true | _ => false end.

(** An interaction with the authorize endpoint or the browser: building
    the authorization URL, redirecting to it, opening the listener and the
    browser. *)
Definition is_authorize (e : Event) : bool :=
  match e with
  | EvStartAuthorization _ _ | EvRedirectToAuthorization _ | EvListen _ _ | EvOpen _ => true
  | _ => false
  end.

Section StartSafety.
Variables (env : Env) (A : Event -> bool) (options : Options.t).
Hypothesis A_log : forall l m, A (EvLog l m) = true.
Hypothesis A_fetch : forall u, A (EvFetch u) = true.
Hypothesis A_prm : forall u, A (EvDiscoverPRM u) = true.
Hypothesis A_refresh : forall a c r b, A (EvRefresh a c r b) = true.
Hypothesis A_random : forall n, A (EvRandomBytes n) = true.
Hypothesis A_listen : forall p q, A (EvListen p q) = true.
Hypothesis A_open : forall u, A (EvOpen u) = true.
Hypothesis A_start : forall a params,
  sa_scope params = scope_argument options -> A (EvStartAuthorization a params) = true.
Hypothesis A_redirect : forall tick a params u v base,
  startAuthorization env tick a params = Ok (u, v) ->
  sa_scope params = scope_argument options ->
  A (EvRedirectToAuthorization {| url_base := base; url_query := url_query u |}) = true.
Hypothesis A_parsed : forall tick tick' a params u v,
  a = chosen_server env tick' (Options.serverUrl options) ->
  startAuthorization env tick a params = Ok (u, v) ->
  sa_scope params = scope_argument options ->
  plain (v2_server a) = false ->
  A (EvRedirectToAuthorization
       (url_parse env (v2_server a ++ "/authorize" ++ url_search u))) = true.

Lemma redirectToAuthorization_safe u p io :
  A (EvRedirectToAuthorization u) = true ->
  post (ProxyOAuthProvider.redirectToAuthorization env u) p io (fun r p' io' =>
    ProxyOAuthProvider.authorizationCode p' = ProxyOAuthProvider.authorizationCode p
    /\ emits A io io').
Proof.
  intros Hu.
  unfold ProxyOAuthProvider.redirectToAuthorization, ProxyOAuthProvider.startOAuthServer.
  steps; (split; [destruct p as [? ? ? ? ? [[]|] ?]; reflexivity | trace_ok]).
Qed.

Lemma newAuthorizationFlow_safe tick' asu md c p io :
  asu = chosen_server env tick' (Options.serverUrl options) ->
  post (newAuthorizationFlow env options asu md c) p io (fun r p' io' =>
    ProxyOAuthProvider.authorizationCode p' = ProxyOAuthProvider.authorizationCode p
    /\ emits A io io').
Proof.
  intros Hchosen.
  unfold newAuthorizationFlow.
  apply post_bind.
  apply post_mono with
    (Q := fun r s' io' =>
            (exists st, r = Ok st)
            /\ ProxyOAuthProvider.authorizationCode s' = ProxyOAuthProvider.authorizationCode p
            /\ emits A io io').
  { unfold ProxyOAuthProvider.state.
    steps; (split; [eauto | split; [reflexivity | trace_ok]]). }
  intros r p3 io4 ([st ->] & F3 & E4).
  do 12 step.
  destruct (startAuthorization env _ _ _) as [[u v]|e] eqn:Hstart; cbv beta iota.
  2:{ split; [assumption | trace_ok]. }
  assert (Astart : A (EvStartAuthorization asu
            {| sa_clientInformation := c; sa_state := st;
               sa_redirectUrl := ProxyOAuthProvider.redirectUrl p3;
               sa_scope := if truthy_opt (Options.scope options) then Options.scope options
                           else scope (ProxyOAuthProvider.clientMetadata p3) |}) = true)
    by (apply A_start; reflexivity).
  apply post_bind.
  apply post_mono with
    (Q := fun r s' io' =>
            match r with
            | Ok u' => A (EvRedirectToAuthorization u') = true
            | Throw _ => True
            end
            /\ s' = p3 /\ emits A io io').
  { fold (v2_server asu).
    steps; (split; [| split; [reflexivity | trace_ok]]); auto.
    - destruct (plain (v2_server asu)) eqn:Hplain.
      + exact (@A_redirect _ _ _ _ _ _ Hstart eq_refl).
      + exact (@A_parsed _ _ _ _ _ _ Hchosen Hstart eq_refl Hplain).
    - destruct u as [b q]. exact (@A_redirect _ _ _ _ _ b Hstart eq_refl). }
  intros r s' io5 (Hu & -> & E5).
  destruct r as [u'|e]; [|split; assumption].
  step. step. step.
  eapply post_mono; [apply (redirectToAuthorization_safe _ _ Hu)|].
  intros r p4 io6 (F4 & E6).
  assert (E : emits A io io6) by (eapply emits_trans; eauto).
  destruct r; [step|]; (split; [rewrite F4; cbn; assumption | assumption]).
Qed.

(** An attempt that is given no code never writes the authorization code
    and emits allowed events only. *)
Lemma customAuth_start_safe p io :
  Options.authorizationCode options = None ->
  post (customAuth env options) p io (fun r p' io' =>
     ProxyOAuthProvider.authorizationCode p' = ProxyOAuthProvider.authorizationCode p
     /\ emits A io io').
Proof.
  intros no_code.
  enter_customAuth A p io.
  2:{ split; [reflexivity | assumption]. }
  rewrite no_code. step. step.
  apply post_bind.
  apply post_mono with
    (Q := fun r s' io' =>
            (exists b, r = Ok b)
            /\ ProxyOAuthProvider.authorizationCode s' = ProxyOAuthProvider.authorizationCode p
            /\ emits A io io').
  { steps; (split; [eauto | split; [subst p1; reflexivity | trace_ok]]). }
  intros r p2 io3 ([b ->] & F2 & E3).
  destruct b; [step; split; assumption|].
  cbv beta iota.
  eapply post_mono; [eapply newAuthorizationFlow_safe; exact Hasu|].
  intros r p3 io4 (F3 & E4). split; [congruence | eapply emits_trans; eauto].
Qed.

End StartSafety.

Section ExchangeSafety.
Variables (env : Env) (A : Event -> bool) (options : Options.t).
Hypothesis A_log : forall l m, A (EvLog l m) = true.
Hypothesis A_fetch : forall u, A (EvFetch u) = true.
Hypothesis A_prm : forall u, A (EvDiscoverPRM u) = true.
Hypothesis A_exchange : forall a c code v r b, A (EvExchange a c code v r b) = true.

(** The exchange leaves the stored CSRF state and the stored code alone. *)
Lemma customAuth_exchange_safe code p io :
  Options.authorizationCode options = Some code ->
  post (customAuth env options) p io (fun r p' io' =>
     ProxyOAuthProvider._state p' = ProxyOAuthProvider._state p
     /\ ProxyOAuthProvider.authorizationCode p' = ProxyOAuthProvider.authorizationCode p
     /\ emits A io io').
Proof.
  intros has_code.
  enter_customAuth A p io.
  2:{ repeat split; assumption. }
  rewrite has_code.
  steps; subst p1; (repeat split; [trace_ok]).
Qed.

End ExchangeSafety.

(** * One request per attempt *)

(** A provider whose callback server is listening. *)
Definition listening_provider : ProxyOAuthProvider.t :=
  ProxyOAuthProvider.set_oauthServer
    (Some {| srv_port := Some 3000%Z; srv_path := "/oauth/callback";
             srv_listening := true; srv_promise := Fulfilled |})
    (ProxyOAuthProvider.set_state (Some (Demo.state_at 3))
       (ProxyOAuthProvider.new Demo.config)).

Definition success_page : string :=
  "<h1>Authentication Successful</h1><p>You can close this window and return to your application.</p>".

(** C9 (the code departs from the claim).  Every branch of the route
    handler calls [close()] after its one page, but [close()] only stops
    the listening: a connection that is open stays open.  A first request
    that carries neither a code nor an error is answered and the server
    closed; a request on another connection is then refused; but a second
    request on the connection of the first is served: the handler runs
    again, sends the success page and stores the code. *)
Theorem callback_listener_serves_a_second_request :
  let env := env_no_callback in
  let first := Demo.callback_on 7 [("state", QStr (Demo.state_at 3))] in
  let second :=
    Demo.callback_on 7 [("code", QStr "abc123"); ("state", QStr (Demo.state_at 3))] in
  let elsewhere :=
    Demo.callback_on 8 [("code", QStr "abc123"); ("state", QStr (Demo.state_at 3))] in
  let after_first := ProxyOAuthProvider.deliver env first listening_provider io0 in
  let after_second :=
    ProxyOAuthProvider.deliver env second (final after_first) (snd after_first) in
  trace after_first
  = [EvSend "<h1>OAuth Error</h1><p>No authorization code received</p>"; EvServerClose]
  /\ option_map srv_listening (ProxyOAuthProvider.oauthServer (final after_first)) = Some false
  /\ ProxyOAuthProvider.authorizationCode (final after_first) = None
  /\ ProxyOAuthProvider.deliver env elsewhere (final after_first) (snd after_first)
     = (Ok tt, final after_first, snd after_first)
  /\ trace after_second
     = [EvSend "<h1>OAuth Error</h1><p>No authorization code received</p>"; EvServerClose;
        EvSend success_page; EvServerClose]
  /\ ProxyOAuthProvider.authorizationCode (final after_second) = Some (QStr "abc123").
Proof. vm_compute. repeat split. Qed.

(** * Waiting for the callback *)

(** The handler stores the code of a request exactly when the request
    carries no error, the stored state, and a code. *)
Definition accepts (stored : option string) (req : Request) : bool :=
  negb (qval_truthy (query_get (req_query req) "error"))
  && negb (strict_neq (query_get (req_query req) "state") stored)
  && qval_truthy (query_get (req_query req) "code").

(** What the listener and the wait may emit. *)
Definition listener_event (e : Event) : bool :=
  match e with
  | EvSend _ | EvNotFound _ | EvServerClose | EvAwaitCallback => true
  | _ => false
  end.

Lemma deliver_post env req p io :
  post (ProxyOAuthProvider.deliver env req) p io (fun r p' io' =>
    r = Ok tt
    /\ ProxyOAuthProvider._state p' = ProxyOAuthProvider._state p
    /\ emits listener_event io io'
    /\ (accepts (ProxyOAuthProvider._state p) req = false ->
        ProxyOAuthProvider.authorizationCode p' = ProxyOAuthProvider.authorizationCode p)).
Proof.
  unfold post.
  destruct (ProxyOAuthProvider.oauthServer p) as [s|] eqn:Hs.
  - destruct (srv_listening s || known req p) eqn:Hl.
    + destruct (route_matches env (srv_path s) (req_path req)) eqn:Hr.
      * destruct (deliver_served env req p io Hs Hl Hr) as [html E].
        rewrite E. unfold accepted_on.
        repeat split; [destruct (known req p); reflexivity | trace_ok |].
        unfold accepts. intros ->. destruct (known req p); reflexivity.
      * unfold ProxyOAuthProvider.deliver. run. unfold known in Hl. rewrite Hs, Hl.
        destruct (existsb _ _); cbn; rewrite Hr; repeat split; trace_ok.
    + apply orb_false_elim in Hl. destruct Hl as [Hl Hk].
      rewrite (deliver_refused env req p io Hs Hl Hk). repeat split; trace_ok.
  - unfold ProxyOAuthProvider.deliver. run. rewrite Hs. repeat split; trace_ok.
Qed.

Lemma deliver_all_post env reqs : forall p io,
  post (forEach reqs (ProxyOAuthProvider.deliver env)) p io (fun r p' io' =>
    r = Ok tt
    /\ ProxyOAuthProvider._state p' = ProxyOAuthProvider._state p
    /\ emits listener_event io io'
    /\ ((forall req, In req reqs -> accepts (ProxyOAuthProvider._state p) req = false) ->
        ProxyOAuthProvider.authorizationCode p' = ProxyOAuthProvider.authorizationCode p)).
Proof.
  induction reqs as [|req reqs IH]; intros p io.
  - repeat split; trace_ok.
  - cbn [forEach]. apply post_bind.
    eapply post_mono; [apply deliver_post|].
    intros r p1 io1 (-> & S1 & E1 & C1).
    eapply post_mono; [apply IH|].
    intros r p2 io2 (-> & S2 & E2 & C2).
    repeat split; [congruence | eapply emits_trans; eauto |].
    intros Hall. rewrite C2, C1; auto using in_eq.
    intros req' Hin. rewrite S1. auto using in_cons.
Qed.

Definition timeout : Error := "Authorization code timeout".

(** The wait changes nothing of the client but its provider, keeps the
    stored state, and, when no code is pending and every request that
    arrives is one the handler does not accept, ends at the deadline with
    no code stored. *)
Lemma waitForAuthorizationCode_post env c io :
  post (McpOAuthClient.waitForAuthorizationCode env) c io (fun r c' io' =>
    let p := McpOAuthClient.oauthProvider c in
    let p' := McpOAuthClient.oauthProvider c' in
    c' = McpOAuthClient.set_oauthProvider p' c
    /\ ProxyOAuthProvider._state p' = ProxyOAuthProvider._state p
    /\ emits listener_event io io'
    /\ (ProxyOAuthProvider.authorizationCode p = None ->
        (forall req, In req (callbacks env (io_tick io)) ->
                     accepts (ProxyOAuthProvider._state p) req = false) ->
        r = Throw timeout /\ ProxyOAuthProvider.authorizationCode p' = None)).
Proof.
  unfold McpOAuthClient.waitForAuthorizationCode.
  step. step. step. step.
  eapply post_mono; [apply deliver_all_post|].
  intros r p1 io1 (-> & S1 & E1 & C1).
  assert (E : emits listener_event io io1).
  { eapply emits_trans; [|exact E1]. trace_ok. }
  step. step. step. step.
  - split; [destruct c; reflexivity|]. split; [exact S1|]. split; [exact E|].
    intros Hnone Hrej. exfalso. cbn in Heqb.
    rewrite C1 in Heqb by exact Hrej. rewrite Hnone in Heqb. discriminate.
  - unfold ProxyOAuthProvider.oauthServer_timeout.
    assert (K : ProxyOAuthProvider.authorizationCode (McpOAuthClient.oauthProvider c) = None ->
                (forall req, In req (callbacks env (io_tick io)) ->
                   accepts (ProxyOAuthProvider._state (McpOAuthClient.oauthProvider c)) req
                   = false) ->
                ProxyOAuthProvider.authorizationCode p1 = None).
    { intros Hnone Hrej. rewrite C1 by exact Hrej. exact Hnone. }
    steps; cbn in Heqo |- *; rewrite ?Heqo; cbn;
      (split; [destruct c; reflexivity|]; split; [exact S1|]; split; [trace_ok|];
       intros Hnone Hrej; split; [reflexivity | auto]).
Qed.

(** * A connection attempt whose callbacks are all turned down *)

Definition is_await (e : Event) : bool :=
  match e with EvAwaitCallback => true | _ => false end.

Definition no_exchange (e : Event) : bool := negb (is_exchange e).

(** Neither a token exchange nor a wait for the callback. *)
Definition quiet (e : Event) : bool := negb (is_exchange e) && negb (is_await e).

Lemma forallb_negb_existsb {X} (f : X -> bool) l :
  forallb (fun x => negb (f x)) l = true -> existsb f l = false.
Proof.
  induction l as [|x l IH]; [reflexivity|]. cbn.
  destruct (f x); cbn; [discriminate | exact IH].
Qed.

(** How the trace of a turned-down attempt looks: nothing was awaited, or
    the attempt ended at the deadline; no exchange either way. *)
Definition turned_down (r : Result unit) (io io' : Io) : Prop :=
  emits quiet io io' \/ (emits no_exchange io io' /\ r = Throw timeout).

Lemma turned_down_log r io io' l m :
  turned_down r io io' -> turned_down r io (tell io' (EvLog l m)).
Proof.
  intros [E|[E T]]; [left | right; split; [|exact T]]; trace_ok.
Qed.

Lemma turned_down_trace r io io' :
  turned_down r io io' ->
  exists new,
    io_trace io' = (io_trace io ++ new)%list
    /\ existsb is_exchange new = false
    /\ (existsb is_await new = true -> r = Throw timeout).
Proof.
  intros [[new [E F]]|[[new [E F]] T]]; exists new; (split; [exact E|]).
  - split.
    + apply forallb_negb_existsb. rewrite forallb_forall in *.
      intros x Hx. specialize (F x Hx). unfold quiet in F.
      now apply andb_prop in F.
    + intros Ha. exfalso.
      assert (existsb is_await new = false); [|congruence].
      apply forallb_negb_existsb. rewrite forallb_forall in *.
      intros x Hx. specialize (F x Hx). unfold quiet in F.
      now apply andb_prop in F.
  - split; [apply forallb_negb_existsb; exact F | auto].
Qed.

Lemma connectToMcpServer_post env (A : Event -> bool) c io :
  (forall l m, A (EvLog l m) = true) ->
  (forall u, A (EvMcpConnect u) = true) ->
  post (McpOAuthClient.connectToMcpServer env) c io (fun r c' io' =>
    McpOAuthClient.oauthProvider c' = McpOAuthClient.oauthProvider c
    /\ emits A io io').
Proof.
  intros A_log A_mcp. unfold McpOAuthClient.connectToMcpServer.
  steps; (split; [reflexivity | trace_ok]).
Qed.

Lemma connect_turned_down env c io :
  post (McpOAuthClient.connect env) c io (fun r c' io' =>
    let p := McpOAuthClient.oauthProvider c in
    let p' := McpOAuthClient.oauthProvider c' in
    ProxyOAuthProvider.authorizationCode p = None ->
    (forall tick req, In req (callbacks env tick) ->
                      accepts (ProxyOAuthProvider._state p') req = false) ->
    ProxyOAuthProvider.authorizationCode p' = None /\ turned_down r io io').
Proof.
  unfold McpOAuthClient.connect.
  apply post_catch.
  apply post_mono with
    (Q := fun r c' io' =>
            ProxyOAuthProvider.authorizationCode (McpOAuthClient.oauthProvider c) = None ->
            (forall tick req, In req (callbacks env tick) ->
               accepts (ProxyOAuthProvider._state (McpOAuthClient.oauthProvider c')) req = false) ->
            ProxyOAuthProvider.authorizationCode (McpOAuthClient.oauthProvider c') = None
            /\ turned_down r io io').
  2:{ intros r c' io' H. destruct r; [exact H|].
      steps. intros Hnone Hrej. destruct (H Hnone Hrej) as [K T].
      split; [exact K | now apply turned_down_log]. }
  steps.
  2,3: intros Hnone _; split; [exact Hnone | left; trace_ok].
  (* the first [customAuth], with no code *)
  eapply post_mono;
    [apply (customAuth_start_safe env quiet); try reflexivity; intros; reflexivity|].
  intros r p1 io1 (F1 & E1). cbn in F1.
  assert (E1' : emits quiet io io1) by (eapply emits_trans; [|exact E1]; trace_ok).
  clear E1.
  destruct r as [[|]|e]; cbv beta iota.
  - (* AUTHORIZED by refresh *)
    steps.
    eapply post_mono; [apply (connectToMcpServer_post env quiet); reflexivity|].
    intros r c2 io2 (P2 & E2).
    assert (E : emits quiet io io2) by (eapply emits_trans; eauto).
    destruct r; steps; intros Hnone _;
      (split; [cbn; rewrite ?P2; cbn; congruence | left; trace_ok]).
  - (* REDIRECT: wait for the callback *)
    steps.
    eapply post_mono; [apply waitForAuthorizationCode_post|].
    intros r c2 io2 (C2 & S2 & E2 & W). cbn in S2, W.
    assert (E : emits no_exchange io io2).
    { eapply emits_trans.
      - eapply emits_weaken; [|exact E1']. unfold quiet, no_exchange.
        intros ev Hev. now apply andb_prop in Hev.
      - eapply emits_trans; [|eapply emits_weaken; [|exact E2]].
        + trace_ok.
        + intros [] Hev; try discriminate; reflexivity. }
    assert (Wrej :
      ProxyOAuthProvider.authorizationCode (McpOAuthClient.oauthProvider c) = None ->
      (forall tick req, In req (callbacks env tick) ->
         accepts (ProxyOAuthProvider._state (McpOAuthClient.oauthProvider c2)) req = false) ->
      r = Throw timeout
      /\ ProxyOAuthProvider.authorizationCode (McpOAuthClient.oauthProvider c2) = None).
    { intros Hnone Hrej. apply W; [congruence|].
      intros req Hin. rewrite <- S2. exact (Hrej _ req Hin). }
    clear W.
    destruct r as [[]|e].
    + (* the wait was satisfied: some request was accepted *)
      step. step. step. step.
      * step.
        -- intros Hnone Hrej. exfalso. cbn in Hrej.
           destruct (Wrej Hnone Hrej); discriminate.
        -- step. step.
           eapply post_mono;
             [eapply (customAuth_exchange_safe env (fun _ => true));
              try reflexivity; intros; reflexivity|].
           intros r p3 io3 (S3 & _ & _). cbn in S3.
           assert (Absurd :
             ProxyOAuthProvider.authorizationCode (McpOAuthClient.oauthProvider c) = None ->
             (forall tick req, In req (callbacks env tick) ->
                accepts (ProxyOAuthProvider._state p3) req = false) -> False).
           { intros Hnone Hrej. rewrite S3 in Hrej.
             destruct (Wrej Hnone Hrej); discriminate. }
           destruct r as [[|]|e]; steps.
           all: try (intros Hnone Hrej; exfalso; exact (Absurd Hnone Hrej)).
           all: eapply post_mono; [apply (connectToMcpServer_post env quiet); reflexivity|];
             intros r c4 io4 (P4 & _); destruct r; steps;
             intros Hnone Hrej; exfalso; apply (Absurd Hnone);
             intros tick req Hin; specialize (Hrej tick req Hin);
             cbn in Hrej; rewrite ?P4 in Hrej; exact Hrej.
      * intros Hnone Hrej. exfalso. cbn in Hrej.
        destruct (Wrej Hnone Hrej); discriminate.
    + (* the deadline passed *)
      intros Hnone Hrej. destruct (Wrej Hnone Hrej) as [W1 W2].
      split; [exact W2 | right; split; [exact E | exact W1]].
  - intros Hnone _. split; [cbn; congruence | left; exact E1'].
Qed.

(** [this.oauthProvider.getAuthorizationCode()] *)
Definition stored_code (c : McpOAuthClient.t) : option QVal :=
  ProxyOAuthProvider.authorizationCode (McpOAuthClient.oauthProvider c).

(** A returned state that differs from the stored one is not accepted. *)
Lemma mismatch_not_accepted stored req :
  strict_neq (query_get (req_query req) "state") stored = true ->
  accepts stored req = false.
Proof.
  intros H. unfold accepts. rewrite H. cbn. now rewrite andb_false_r.
Qed.

(** What does hold.  In a connection attempt that starts with no
    authorization code pending, when every callback request returns a
    state that differs from the stored CSRF state, no code is stored, no
    token exchange is made, and the attempt, once it has begun to wait for
    the callback, fails at the deadline.  The handler itself, in whatever
    state the provider is, leaves the stored code alone on such a
    request. *)
Lemma turned_down_callbacks_end_at_the_deadline
  (env : Env) (c : McpOAuthClient.t) (io : Io) :
  ProxyOAuthProvider.authorizationCode (McpOAuthClient.oauthProvider c) = None ->
  (forall tick req,
     In req (callbacks env tick) ->
     strict_neq (query_get (req_query req) "state")
       (ProxyOAuthProvider._state
          (McpOAuthClient.oauthProvider (final (McpOAuthClient.connect env c io)))) = true) ->
  ProxyOAuthProvider.authorizationCode
    (McpOAuthClient.oauthProvider (final (McpOAuthClient.connect env c io))) = None
  /\ (exists new,
        trace (McpOAuthClient.connect env c io) = (io_trace io ++ new)%list
        /\ existsb is_exchange new = false
        /\ (existsb is_await new = true ->
            outcome (McpOAuthClient.connect env c io) = Throw timeout))
  /\ (forall p req io1,
        strict_neq (query_get (req_query req) "state") (ProxyOAuthProvider._state p) = true ->
        ProxyOAuthProvider.authorizationCode (final (ProxyOAuthProvider.deliver env req p io1))
        = ProxyOAuthProvider.authorizationCode p
        /\ existsb is_exchange (trace (ProxyOAuthProvider.deliver env req p io1))
           = existsb is_exchange (io_trace io1)).
Proof.
  intros Hnone Hmis.
  pose proof (connect_turned_down env c io) as H. apply post_run in H.
  cbv beta zeta in H.
  destruct H as [Hcode Htd]; [exact Hnone | |].
  { intros tick req Hin. apply mismatch_not_accepted. exact (Hmis tick req Hin). }
  split; [exact Hcode|]. split; [exact (turned_down_trace Htd)|].
  intros p req io1 Hp.
  pose proof (deliver_post env req p io1) as D. apply post_run in D.
  destruct D as (_ & _ & [new [E F]] & K).
  split; [apply K, mismatch_not_accepted, Hp|].
  unfold trace. rewrite E, existsb_app.
  replace (existsb is_exchange new) with false; [now rewrite orb_false_r|].
  symmetry. apply forallb_negb_existsb. rewrite forallb_forall in *.
  intros x Hx. specialize (F x Hx). destruct x; try discriminate; reflexivity.
Qed.

(** The codes sent to the token endpoint, in order. *)
Fixpoint codes_exchanged (tr : list Event) : list QVal :=
  match tr with
  | [] => []
  | EvExchange _ _ code _ _ _ :: r => code :: codes_exchanged r
  | _ :: r => codes_exchanged r
  end.

(** What the callback listener did, in order. *)
Definition listener_log (tr : list Event) : list Event :=
  filter (fun e => match e with EvSend _ | EvServerClose => true | _ => false end) tr.

Definition invalid_state_page : string :=
  "<h1>OAuth Error</h1><p>Invalid state parameter</p>".

(** A callback with a state that is not the stored one, and after it, on
    the same connection, a callback with the stored state. *)
Definition env_forged_then_genuine : Env :=
  Demo.env
    [Demo.callback_on 7 [("code", QStr "forged-code"); ("state", QStr "forged")];
     Demo.callback_on 7 [("code", QStr "abc123"); ("state", QStr (Demo.state_at 3))]]
    (fun _ _ => Ok Demo.good_response) (Throw "invalid_grant") (Ok tt).

(** A first attempt whose callback is in order but whose code the token
    endpoint refuses; then a second attempt whose only callback has a state
    that is not the stored one.  (The first attempt makes eleven calls.) *)
Definition env_refused_then_forged : Env :=
  let e := env_no_callback in
  {| url_parses := url_parses e;
     url_pathname := url_pathname e;
     url_port := url_port e;
     url_parse := url_parse e;
     route_matches := route_matches e;
     discoverOAuthProtectedResourceMetadata := discoverOAuthProtectedResourceMetadata e;
     registerClient := registerClient e;
     exchangeAuthorization := fun tick a c code v r =>
       if (tick <? 11)%nat then Throw "invalid_grant"
       else exchangeAuthorization e tick a c code v r;
     refreshAuthorization := refreshAuthorization e;
     startAuthorization := startAuthorization e;
     fetch := fetch e;
     randomBytes := randomBytes e;
     listen := listen e;
     open := open e;
     callbacks := fun tick =>
       if (tick <? 11)%nat
       then [Demo.callback_on 1 [("code", QStr "abc123"); ("state", QStr (Demo.state_at 3))]]
       else [Demo.callback_on 2 [("code", QStr "forged-code"); ("state", QStr "forged")]];
     mcp_connect := mcp_connect e;
     mcp_close := mcp_close e;
     mcp_request := mcp_request e;
     stdio_connect := stdio_connect e;
     stdio_close := stdio_close e |}.

Definition refused_attempt : Result unit * McpOAuthClient.t * Io :=
  McpOAuthClient.connect env_refused_then_forged (McpOAuthClient.new Demo.config) io0.

Definition attempt_after_refusal : Result unit * McpOAuthClient.t * Io :=
  McpOAuthClient.connect env_refused_then_forged (final refused_attempt) (snd refused_attempt).

(** C1 (the code departs from the claim).  On a callback whose state is
    not the stored one the handler sends the error page, calls [close()]
    and calls [reject]; but the promise was resolved when the server began
    to listen, so the attempt is not aborted: [connect()] goes on polling
    for a code.  The code of that callback is never stored.  Yet the attempt
    reaches the token exchange and succeeds
    - when a second callback, with the stored state, comes on the same
      connection: it is served by the closed server and its code is
      exchanged;
    - when a code is left in the provider by an earlier attempt whose
      exchange was refused: the poll finds it and it is exchanged again. *)
Theorem mismatched_state_does_not_abort_the_attempt :
  (let attempt :=
     McpOAuthClient.connect env_forged_then_genuine (McpOAuthClient.new Demo.config) io0 in
   listener_log (trace attempt)
   = [EvSend invalid_state_page; EvServerClose; EvSend success_page; EvServerClose]
   /\ codes_exchanged (trace attempt) = [QStr "abc123"]
   /\ outcome attempt = Ok tt
   /\ McpOAuthClient.connected (final attempt) = true)
  /\
  (outcome refused_attempt = Throw "invalid_grant"
   /\ stored_code (final refused_attempt) = Some (QStr "abc123")
   /\ listener_log (skipn (List.length (trace refused_attempt)) (trace attempt_after_refusal))
      = [EvSend invalid_state_page; EvServerClose]
   /\ codes_exchanged (skipn (List.length (trace refused_attempt))
                         (trace attempt_after_refusal)) = [QStr "abc123"]
   /\ outcome attempt_after_refusal = Ok tt
   /\ McpOAuthClient.connected (final attempt_after_refusal) = true).
Proof. vm_compute. repeat split. Qed.

(** * A denied authorization *)

(** The provider answers the redirect with [error=access_denied]. *)
Definition env_denied : Env :=
  Demo.env [Demo.callback [("error", QStr "access_denied")]]
    (fun _ _ => Ok Demo.good_response) (Throw "invalid_grant") (Ok tt).

Definition denied_attempt : Result unit * McpStdioProxy.t * Io :=
  McpStdioProxy.start env_denied (McpStdioProxy.new Demo.config) io0.

(** C4 (the code departs from the claim).  On a callback with
    [error=access_denied] the handler answers with the error page, closes
    the server and calls [reject] with the OAuth error; but the promise of
    [startOAuthServer] was resolved when the server began to listen, so the
    rejection is lost.  The attempt fails, and the gate stays closed, yet
    the fault thrown to the caller is the polling loop's timeout, not the
    denial. *)
Theorem denied_callback_surfaces_as_timeout :
  outcome denied_attempt = Throw "Authorization code timeout"
  /\ outcome denied_attempt <> Throw "OAuth error: access_denied"
  /\ McpStdioProxy.isConnected (final denied_attempt) = false
  /\ McpStdioProxy.connected (final denied_attempt) = false
  /\ In (EvSend "<h1>OAuth Error</h1><p>access_denied</p>") (trace denied_attempt)
  /\ option_map srv_promise
       (ProxyOAuthProvider.oauthServer
          (McpOAuthClient.oauthProvider (McpStdioProxy.mcpOAuthClient (final denied_attempt))))
     = Some Fulfilled.
Proof.
  vm_compute. repeat split; try discriminate. auto 50.
Qed.

(** * Client registration *)

(** No client id and no secret are configured. *)
Definition config_without_client : Config.t :=
  {| Config.oauth :=
       {| Config.clientId := ""; Config.clientSecret := "";
          Config.redirectUri := "http://localhost:3000/oauth/callback";
          Config.scopes := [] |};
     Config.mcpServer := Config.mcpServer Demo.config;
     Config.oauthServer := Config.oauthServer Demo.config |}.

Definition unregistered_attempt : Result unit * McpOAuthClient.t * Io :=
  McpOAuthClient.connect env_no_callback (McpOAuthClient.new config_without_client) io0.

(** The client ids handed to [startAuthorization]. *)
Fixpoint client_ids_used (tr : list Event) : list string :=
  match tr with
  | [] => []
  | EvStartAuthorization _ p :: r => client_id (sa_clientInformation p) :: client_ids_used r
  | _ :: r => client_ids_used r
  end.

(** [clientInformation()] never answers [undefined]: it fills the store
    from the configuration, whatever the configuration holds. *)
Lemma clientInformation_never_absent p io :
  exists c p',
    ProxyOAuthProvider.clientInformation p io = (Ok (Some c), p', io)
    /\ ProxyOAuthProvider._clientInformation p' = Some c
    /\ (ProxyOAuthProvider._clientInformation p = None ->
        c = {| client_id := Config.clientId (Config.oauth (ProxyOAuthProvider.config p));
               client_secret :=
                 Some (Config.clientSecret (Config.oauth (ProxyOAuthProvider.config p))) |}).
Proof.
  unfold ProxyOAuthProvider.clientInformation. run.
  destruct p as [cfg tk [c|] cv st srv code]; cbn;
    do 2 eexists; repeat split; congruence.
Qed.

(** C7 (the code departs from the claim).  With an empty client id and
    secret configured, and an authorization server that would register a
    client, the attempt makes no registration request: it goes to the
    authorization server with the empty client id and keeps that as its
    client information. *)
Theorem no_registration_without_static_credentials :
  existsb is_register (trace unregistered_attempt) = false
  /\ client_ids_used (trace unregistered_attempt) = [""]
  /\ ProxyOAuthProvider._clientInformation
       (McpOAuthClient.oauthProvider (final unregistered_attempt))
     = Some {| client_id := ""; client_secret := Some "" |}
  /\ is_ok (registerClient env_no_callback 0 "https://idp.example/tenant"
              (ProxyOAuthProvider.clientMetadata
                 (ProxyOAuthProvider.new config_without_client))) = true.
Proof. vm_compute. repeat split. Qed.

(** * The scope of the authorization URL *)

(** The [scope] parameter for a list of scopes: their join with single
    spaces, and no parameter at all when the join is empty. *)
Definition scope_text (scopes : list string) : option string :=
  if truthy (String.concat " " scopes) then Some (String.concat " " scopes) else None.

Definition opt_eqb (a b : option string) : bool :=
  match a, b with
  | Some x, Some y => x =? y
  | None, None => true
  | _, _ => false
  end.

Lemma opt_eqb_eq a b : opt_eqb a b = true <-> a = b.
Proof.
  destruct a as [x|], b as [y|]; cbn; split; try congruence.
  - intros H. apply String.eqb_eq in H. congruence.
  - intros [= ->]. apply String.eqb_refl.
Qed.

(** The URLs handed to [redirectToAuthorization]. *)
Fixpoint redirects (tr : list Event) : list URL :=
  match tr with
  | [] => []
  | EvRedirectToAuthorization u :: r => u :: redirects r
  | _ :: r => redirects r
  end.

Lemma redirects_emitted (A : Event -> bool) new u :
  forallb A new = true -> In u (redirects new) -> A (EvRedirectToAuthorization u) = true.
Proof.
  induction new as [|e new IH]; [intros _ []|].
  cbn [forallb]. intros H. apply andb_prop in H. destruct H as [He Hnew].
  destruct e; cbn; auto. intros [->|Hin]; auto.
Qed.

Lemma requestedScopes_blank cfg m :
  McpOAuthClient.requestedScopes cfg
    match resource m with
    | Some r =>
        if negb (r =? "") then
          {| resource := Some "";
             authorization_servers := authorization_servers m;
             scopes_supported := scopes_supported m |}
        else m
    | None => m
    end
  = McpOAuthClient.requestedScopes cfg m.
Proof.
  unfold McpOAuthClient.requestedScopes.
  destruct (resource m) as [r|]; [destruct (negb (r =? ""))|]; reflexivity.
Qed.

(** The rest of [connect], once its first [customAuth] has answered: the
    wait, the exchange and the upstream connection emit events allowed by
    [A], given [HL : forall e, listener_event e = true -> A e = true] and
    the other facts about [A] among the hypotheses.  Solves goals of the
    form [post _ _ _ (fun _ _ io' => emits A io io')]. *)
Ltac connect_rest env A HL :=
  steps;
  lazymatch goal with
  | |- post (McpOAuthClient.connectToMcpServer _) _ _ _ =>
      eapply post_mono; [apply (connectToMcpServer_post env A); auto |];
      let E := fresh "E" in
      intros ? ? ? (_ & E); connect_rest env A HL
  | |- post (McpOAuthClient.waitForAuthorizationCode _) _ _ _ =>
      eapply post_mono; [apply waitForAuthorizationCode_post |];
      let E := fresh "E" in
      intros ? ? ? (_ & _ & E & _);
      apply (emits_weaken _ HL) in E; connect_rest env A HL
  | |- post (customAuth _ _) _ _ _ =>
      eapply post_mono;
      [eapply (customAuth_exchange_safe env A); auto; reflexivity |];
      let E := fresh "E" in
      intros ? ? ? (_ & _ & E); connect_rest env A HL
  | |- _ => trace_ok
  end.

Section ConnectSafety.
Variables (env : Env) (A : Event -> bool) (c : McpOAuthClient.t) (io : Io).
Hypothesis A_log : forall l m, A (EvLog l m) = true.
Hypothesis A_fetch : forall u, A (EvFetch u) = true.
Hypothesis A_prm : forall u, A (EvDiscoverPRM u) = true.
Hypothesis A_refresh : forall a c r b, A (EvRefresh a c r b) = true.
Hypothesis A_random : forall n, A (EvRandomBytes n) = true.
Hypothesis A_listen : forall p q, A (EvListen p q) = true.
Hypothesis A_open : forall u, A (EvOpen u) = true.
Hypothesis A_exchange : forall a c code v r b, A (EvExchange a c code v r b) = true.
Hypothesis A_listener : forall e, listener_event e = true -> A e = true.
Hypothesis A_mcp : forall u, A (EvMcpConnect u) = true.

(** What the first call of [connect] discovered. *)
Let discovered : Result (option OAuthProtectedResourceMetadata) :=
  discoverOAuthProtectedResourceMetadata env (io_tick io)
    (Config.url (Config.mcpServer (McpOAuthClient.config c))).

Hypothesis A_start : forall m a params,
  discovered = Ok (Some m) ->
  sa_scope params = scope_text (McpOAuthClient.requestedScopes (McpOAuthClient.config c) m) ->
  A (EvStartAuthorization a params) = true.
Hypothesis A_redirect : forall m tick a params u v base,
  discovered = Ok (Some m) ->
  startAuthorization env tick a params = Ok (u, v) ->
  sa_scope params = scope_text (McpOAuthClient.requestedScopes (McpOAuthClient.config c) m) ->
  A (EvRedirectToAuthorization {| url_base := base; url_query := url_query u |}) = true.
Hypothesis A_parsed : forall tick tick' a params u v,
  a = chosen_server env tick' (Config.url (Config.mcpServer (McpOAuthClient.config c))) ->
  startAuthorization env tick a params = Ok (u, v) ->
  plain (v2_server a) = false ->
  A (EvRedirectToAuthorization
       (url_parse env (v2_server a ++ "/authorize" ++ url_search u))) = true.

Lemma connect_emits :
  post (McpOAuthClient.connect env) c io (fun _ _ io' => emits A io io').
Proof.
  unfold McpOAuthClient.connect.
  apply post_catch.
  apply post_mono with (Q := fun _ _ io' => emits A io io').
  2:{ intros r c' io' H. destruct r; [exact H|]. steps. trace_ok. }
  steps.
  2,3: trace_ok.
  cbn [tell io_tick] in Heqr. fold discovered in Heqr. subst a.
  rewrite requestedScopes_blank.
  eapply post_mono.
  { apply (customAuth_start_safe env A); auto.
    - intros a params Hs. exact (A_start a params Heqr Hs).
    - intros tick a params u v base Hst Hs.
      exact (@A_redirect o tick a params u v base Heqr Hst Hs).
    - intros tick tick' a params u v Ha Hst _ Hp.
      exact (@A_parsed tick tick' a params u v Ha Hst Hp). }
  intros r p1 io1 (_ & E1).
  assert (E1' : emits A io io1) by (eapply emits_trans; [|exact E1]; trace_ok).
  clear E1.
  destruct r as [[|]|e]; cbv beta iota; [| |exact E1'];
    connect_rest env A A_listener.
Qed.

End ConnectSafety.

Lemma contains_app c a b : contains c (a ++ b) = contains c a || contains c b.
Proof.
  induction a as [|x a IH]; [reflexivity|]. cbn. now rewrite IH, orb_assoc.
Qed.

Lemma contains_substring c s : forall n m,
  contains c (substring n m s) = true -> contains c s = true.
Proof.
  induction s as [|x s IH]; intros n m.
  - destruct n, m; cbn; auto.
  - destruct n as [|n].
    + destruct m as [|m]; cbn; [discriminate|].
      intros H. apply orb_prop in H. destruct H as [H|H]; [now rewrite H|].
      rewrite (IH _ _ H). apply orb_true_r.
    + cbn. intros H. rewrite (IH _ _ H). apply orb_true_r.
Qed.

Lemma plain_app a b : plain (a ++ b) = plain a && plain b.
Proof.
  unfold plain. rewrite !contains_app.
  destruct (contains "?" a), (contains "#" a), (contains "?" b), (contains "#" b);
    reflexivity.
Qed.

Lemma plain_substring n m s : plain s = true -> plain (substring n m s) = true.
Proof.
  unfold plain. intros H. apply andb_prop in H. destruct H as [H1 H2].
  apply negb_true_iff in H1. apply negb_true_iff in H2.
  destruct (contains "?" (substring n m s)) eqn:E1;
    [apply contains_substring in E1; congruence|].
  destruct (contains "#" (substring n m s)) eqn:E2;
    [apply contains_substring in E2; congruence|].
  reflexivity.
Qed.

(** The change of [/v2.0] into [/oauth2/v2.0] brings in neither ['?'] nor
    ['#']. *)
Lemma plain_v2_server a : plain a = true -> plain (v2_server a) = true.
Proof.
  intros H. unfold v2_server.
  destruct (negb (endsWith a "/oauth2/v2.0") && endsWith a "/v2.0"); [|exact H].
  unfold replace. destruct (index 0 "/v2.0" a) as [i|]; [|exact H].
  rewrite !plain_app, !plain_substring by exact H. reflexivity.
Qed.

(** The SDK's [startAuthorization] puts the scope it is given, and no
    other, into the URL it returns. *)
Definition scope_carried (env : Env) : Prop :=
  forall tick a params u v,
    startAuthorization env tick a params = Ok (u, v) ->
    searchParams_get (url_query u) "scope" = sa_scope params.

Lemma demo_scope_carried requests fetches refresh close :
  scope_carried (Demo.env requests fetches refresh close).
Proof.
  intros tick a params u v H. cbn in H. injection H as <- _.
  unfold Demo.authorization_url. cbn.
  destruct (sa_state params), (sa_scope params); reflexivity.
Qed.

(** What the resource server publishes when it advertises an empty list
    of scopes. *)
Definition metadata_without_scopes : OAuthProtectedResourceMetadata :=
  {| resource := Some "https://mcp.example";
     authorization_servers := Some ["https://idp.example/tenant"];
     scopes_supported := Some [] |}.

(** The resource server advertises no scope, and none is configured. *)
Definition env_no_scopes : Env :=
  let e := env_no_callback in
  {| url_parses := url_parses e;
     url_pathname := url_pathname e;
     url_port := url_port e;
     url_parse := url_parse e;
     route_matches := route_matches e;
     discoverOAuthProtectedResourceMetadata := fun _ _ => Ok (Some metadata_without_scopes);
     registerClient := registerClient e;
     exchangeAuthorization := exchangeAuthorization e;
     refreshAuthorization := refreshAuthorization e;
     startAuthorization := startAuthorization e;
     fetch := fetch e;
     randomBytes := randomBytes e;
     listen := listen e;
     open := open e;
     callbacks := callbacks e;
     mcp_connect := mcp_connect e;
     mcp_close := mcp_close e;
     mcp_request := mcp_request e;
     stdio_connect := stdio_connect e;
     stdio_close := stdio_close e |}.

(** C8, counterexample.  Nothing is configured and the advertised list is
    empty: the claim gives the [scope] parameter the value of the empty
    join, but the authorization URL that is built has no [scope]
    parameter. *)
Lemma no_scope_parameter_without_scopes :
  exists u,
    redirects (trace (McpOAuthClient.connect env_no_scopes
                        (McpOAuthClient.new Demo.config) io0)) = [u]
    /\ Config.scopes (Config.oauth Demo.config) = []
    /\ searchParams_get (url_query u) "scope" = None
    /\ searchParams_get (url_query u) "scope"
       <> option_map (String.concat " ") (scopes_supported metadata_without_scopes).
Proof.
  eexists. split; [vm_compute; reflexivity|].
  split; [reflexivity|]. split; [reflexivity | discriminate].
Qed.

(** C8, as amended.  When [startAuthorization] carries the scope it is
    given into the URL, and the authorization server in use (the first one
    that the resource metadata lists, else the MCP server) has a URL with
    neither ['?'] nor ['#'] in it, every authorization URL that [connect]
    hands to the redirect was built after a successful resource-metadata
    discovery, and its [scope] parameter is the join, with single spaces,
    of the configured scopes when at least one is configured and of the
    advertised [scopes_supported] otherwise; when that join is empty the
    URL has no [scope] parameter. *)
Theorem authorization_url_scope (env : Env) (c : McpOAuthClient.t) (io : Io) :
  scope_carried env ->
  (forall tick,
     plain (chosen_server env tick
              (Config.url (Config.mcpServer (McpOAuthClient.config c)))) = true) ->
  exists new,
    trace (McpOAuthClient.connect env c io) = (io_trace io ++ new)%list
    /\ forall u,
         In u (redirects new) ->
         exists m,
           discoverOAuthProtectedResourceMetadata env (io_tick io)
             (Config.url (Config.mcpServer (McpOAuthClient.config c))) = Ok (Some m)
           /\ searchParams_get (url_query u) "scope"
              = scope_text
                  (if (0 <? List.length (Config.scopes (Config.oauth (McpOAuthClient.config c))))%nat
                   then Config.scopes (Config.oauth (McpOAuthClient.config c))
                   else match scopes_supported m with
                        | Some l => l
                        | None => []
                        end).
Proof.
  intros Hsdk Hplain.
  set (found := discoverOAuthProtectedResourceMetadata env (io_tick io)
                  (Config.url (Config.mcpServer (McpOAuthClient.config c)))).
  set (A := fun e =>
              match e with
              | EvRedirectToAuthorization u =>
                  match found with
                  | Ok (Some m) =>
                      opt_eqb (searchParams_get (url_query u) "scope")
                        (scope_text
                           (McpOAuthClient.requestedScopes (McpOAuthClient.config c) m))
                  | _ => false
                  end
              | _ => true
              end).
  assert (H : post (McpOAuthClient.connect env) c io (fun _ _ io' => emits A io io')).
  { apply connect_emits; try (intros; reflexivity).
    - intros [] He; try discriminate; reflexivity.
    - intros m tick a params u v base Hm Hst Hs. unfold A. fold found in Hm. rewrite Hm.
      apply opt_eqb_eq. cbn. rewrite (Hsdk _ _ _ _ _ Hst). exact Hs.
    - intros tick tick' a params u v Ha Hst Hp. exfalso.
      rewrite plain_v2_server in Hp; [discriminate|]. rewrite Ha. apply Hplain. }
  apply post_run in H. destruct H as [new [E F]].
  exists new. split; [exact E|].
  intros u Hu. pose proof (redirects_emitted A new u F Hu) as Au.
  unfold A in Au. destruct found as [[m|]|]; try discriminate.
  exists m. split; [reflexivity|]. apply opt_eqb_eq. exact Au.
Qed.

Lemma authorization_url_scope_witness :
  exists u,
    redirects (trace (McpOAuthClient.connect env_no_callback
                        (McpOAuthClient.new Demo.config) io0)) = [u]
    /\ searchParams_get (url_query u) "scope" = Some "read write".
Proof.
  destruct (@authorization_url_scope env_no_callback (McpOAuthClient.new Demo.config) io0
              (@demo_scope_carried [] (fun _ _ => Ok Demo.good_response)
                 (Throw "invalid_grant") (Ok tt))
              (fun _ => eq_refl)) as (new & E & H).
  cbn [io0 io_trace app] in E. subst new.
  eexists. split; [vm_compute; reflexivity|].
  edestruct H as (m & Hm & Hs); [vm_compute; left; reflexivity|].
  rewrite Hs. injection Hm as <-. reflexivity.
Defined.

(** * The refresh shortcut *)

Definition is_start_authorization (e : Event) : bool :=
  match e with EvStartAuthorization _ _ => true | _ => false end.

(** Logging and metadata discovery. *)
Definition discovery_event (e : Event) : bool :=
  match e with
  | EvLog _ _ | EvDiscoverPRM _ | EvFetch _ => true
  | _ => false
  end.

Definition no_refresh (e : Event) : bool := negb (is_refresh e).

(** [started io io']: since [io], [startAuthorization] has been called and
    no refresh has been tried. *)
Definition started (io io' : Io) : Prop :=
  exists T,
    io_trace io' = (io_trace io ++ T)%list
    /\ forallb no_refresh T = true
    /\ existsb is_start_authorization T = true.

Lemma started_intro io io1 ev :
  emits no_refresh io io1 -> is_start_authorization ev = true -> no_refresh ev = true ->
  started io (answered io1 ev).
Proof.
  intros [T [E F]] Hs Hn. exists (T ++ [ev])%list. cbn. rewrite E, <- app_assoc.
  split; [reflexivity|]. rewrite forallb_app, existsb_app, F. cbn. rewrite Hs, Hn.
  split; [reflexivity | apply orb_true_r].
Qed.

Lemma started_emits io io1 io2 :
  started io io1 -> emits no_refresh io1 io2 -> started io io2.
Proof.
  intros [T [E [F S]]] [T' [E' F']]. exists (T ++ T')%list.
  rewrite E', E, <- app_assoc. split; [reflexivity|].
  rewrite forallb_app, existsb_app, F, F', S. split; reflexivity.
Qed.

Lemma newAuthorizationFlow_started env options asu md c p io :
  post (newAuthorizationFlow env options asu md c) p io (fun _ _ io' => started io io').
Proof.
  unfold newAuthorizationFlow.
  apply post_bind.
  apply post_mono with
    (Q := fun r s' io' => (exists st, r = Ok st) /\ emits no_refresh io io').
  { unfold ProxyOAuthProvider.state. steps; (split; [eauto | trace_ok]). }
  intros r p3 io4 ([st ->] & E4).
  do 12 step.
  match goal with
  | |- match ?o with Ok _ => _ | Throw _ => _ end =>
      match o with
      | startAuthorization _ (io_tick ?i) _ ?params =>
          assert (S0 : started io (answered i (EvStartAuthorization asu params)))
            by (apply started_intro; [trace_ok | reflexivity | reflexivity])
      end
  end.
  destruct (startAuthorization env _ _ _) as [[u v]|e]; cbv beta iota; [|exact S0].
  apply post_bind.
  match type of S0 with
  | started _ ?i =>
      apply post_mono with (Q := fun r s' io' => emits no_refresh i io')
  end.
  { steps; trace_ok. }
  intros r s' io5 E5.
  destruct r as [u'|e]; [|exact (started_emits S0 E5)].
  step. step. step.
  eapply post_mono;
    [apply (redirectToAuthorization_safe env no_refresh); try reflexivity;
     intros; reflexivity|].
  intros r p4 io6 (_ & E6).
  assert (S6 : started io io6).
  { eapply started_emits; [exact S0|]. eapply emits_trans; eauto. }
  destruct r; [step|]; exact S6.
Qed.

(** The shape of an attempt that starts with a refresh token in the
    store: discovery, then the refresh grant, then either the saved tokens
    or the authorization flow. *)
Lemma customAuth_refresh_shape env options p io tk rt :
  Options.authorizationCode options = None ->
  ProxyOAuthProvider._tokens p = Some tk ->
  refresh_token tk = Some rt ->
  truthy rt = true ->
  post (customAuth env options) p io (fun r p' io' =>
    exists D,
      forallb discovery_event D = true
      /\ ((io_trace io' = (io_trace io ++ D)%list /\ exists e, r = Throw e)
          \/ (exists a c tk',
                io_trace io' =
                  (io_trace io ++ D
                   ++ [EvRefresh a c rt true; EvLog info "OAuth tokens saved successfully"])%list
                /\ r = Ok AUTHORIZED
                /\ ProxyOAuthProvider._tokens p' = Some tk')
          \/ (exists a c T,
                io_trace io' = (io_trace io ++ D ++ EvRefresh a c rt false :: T)%list
                /\ forallb no_refresh T = true
                /\ existsb is_start_authorization T = true))).
Proof.
  intros no_code Htk Hrt Htruthy.
  enter_customAuth discovery_event p io.
  2:{ destruct H as [D [ED FD]]. exists D. split; [exact FD|]. left. eauto. }
  destruct H as [D [ED FD]].
  rewrite no_code. step. step.
  replace (ProxyOAuthProvider._tokens p1) with (Some tk)
    by (subst p1; destruct p; cbn in *; congruence).
  cbv beta iota. rewrite Hrt, Htruthy.
  do 5 step.
  - (* the refresh succeeded *)
    steps. exists D. split; [exact FD|]. right. left.
    do 3 eexists. split; [|split; reflexivity].
    cbn. rewrite ED, <- !app_assoc. reflexivity.
  - (* the refresh failed: go on with the authorization flow *)
    steps.
    eapply post_mono; [apply newAuthorizationFlow_started|].
    intros r p3 io3 (T & ET & FT & ST).
    exists D. split; [exact FD|]. right. right.
    exists asu, c, T. split; [|split; assumption].
    rewrite ET. cbn. rewrite ED, <- !app_assoc. reflexivity.
Qed.

Lemma existsb_none (A f : Event -> bool) l :
  (forall e, A e = true -> f e = false) -> forallb A l = true -> existsb f l = false.
Proof.
  intros W. induction l as [|e l IH]; [reflexivity|]. cbn.
  intros H. apply andb_prop in H. destruct H as [He Hl].
  now rewrite (W e He), IH.
Qed.

Lemma preceded_true P Q l : preceded_from P Q true l = true.
Proof.
  induction l as [|e l IH]; [reflexivity|]. cbn. now rewrite orb_true_r, IH.
Qed.

Lemma preceded_after_quiet P Q D T :
  forallb (fun e => negb (Q e)) D = true ->
  preceded_from P Q false T = true ->
  forall seen, preceded_from P Q seen (D ++ T) = true.
Proof.
  intros HD HT. induction D as [|e D IH]; intros seen.
  - cbn. destruct seen; [apply preceded_true | exact HT].
  - cbn in HD |- *. apply andb_prop in HD. destruct HD as [He HD].
    rewrite He, (IH HD). reflexivity.
Qed.

Lemma forallb_weaken {X} (a b : X -> bool) l :
  (forall x, a x = true -> b x = true) -> forallb a l = true -> forallb b l = true.
Proof. intros W H. rewrite forallb_forall in *. auto. Qed.




(** * Further properties of the forwarding handlers

    ([McpStdioProxy.setupProxyHandlers], with the delegating methods of
    [McpOAuthClient] they call.) *)

Definition is_list_op (op : Op) : bool :=
  match op with
  | Op_listTools | Op_listResources | Op_listPrompts => true
  | _ => false
  end.

(** The two handlers that call [ensureConnected]. *)
Definition gated (op : Op) : bool :=
  match op with
  | Op_listTools | Op_callTool => true
  | _ => false
  end.

(** The result a list handler makes up in its [catch]. *)
Definition empty_list (op : Op) : McpResult :=
  match op with
  | Op_listTools => ListToolsResult []
  | Op_listResources => ListResourcesResult []
  | _ => ListPromptsResult []
  end.

(** What a handler passes upstream: the list methods take no argument. *)
Definition sent_params (op : Op) (params : string) : string :=
  if is_list_op op then "" else params.

Definition has_client (p : McpStdioProxy.t) : bool :=
  match McpOAuthClient.mcpClient (McpStdioProxy.mcpOAuthClient p) with
  | Some _ => true
  | None => false
  end.

(** The fields that the handlers and the delegating methods work on:
    all of the proxy and of its client but the OAuth provider, which the
    upstream transport holds and may call. *)
Definition own_fields (p : McpStdioProxy.t)
  : Config.t * bool * bool * (Config.t * option Client * bool
                              * option OAuthProtectedResourceMetadata) :=
  (McpStdioProxy.config p, McpStdioProxy.stdioServer p, McpStdioProxy.isConnected p,
   (McpOAuthClient.config (McpStdioProxy.mcpOAuthClient p),
    McpOAuthClient.mcpClient (McpStdioProxy.mcpOAuthClient p),
    McpOAuthClient.isConnected (McpStdioProxy.mcpOAuthClient p),
    McpOAuthClient.resourceMetadata (McpStdioProxy.mcpOAuthClient p))).

(** The three list handlers swallow every fault: they always answer, with
    the upstream server's answer to this very request or with the empty
    list, and they write none of the proxy's own fields. *)
Theorem list_handlers_never_throw
  (env : Env) (op : Op) (params : string) (p : McpStdioProxy.t) (io : Io) :
  is_list_op op = true ->
  exists r,
    outcome (McpStdioProxy.handler env op params p io) = Ok r
    /\ own_fields (final (McpStdioProxy.handler env op params p io)) = own_fields p
    /\ (r = empty_list op \/ mcp_request env (io_tick io) op "" = Ok r).
Proof.
  intros Hop. unfold outcome, final.
  destruct p as [cfg [ccfg mc prov ic rm] sv g].
  destruct op; try discriminate; unfold_handlers; run; cbn;
    try (destruct g; cbn); destruct mc; cbn;
    try (destruct (mcp_request env (io_tick io) _ _) eqn:Hreq; cbn);
    eexists; (split; [reflexivity|]); (split; [reflexivity|]);
    first [left; reflexivity | right; reflexivity | right; exact Hreq].
Qed.

Lemma list_handlers_never_throw_witness :
  exists r,
    outcome (McpStdioProxy.handler half_stopped_env Op_listPrompts ""
               (McpStdioProxy.new Demo.config) io0) = Ok r
    /\ own_fields (final (McpStdioProxy.handler half_stopped_env Op_listPrompts ""
                            (McpStdioProxy.new Demo.config) io0))
       = own_fields (McpStdioProxy.new Demo.config)
    /\ (r = empty_list Op_listPrompts
        \/ mcp_request half_stopped_env (io_tick io0) Op_listPrompts "" = Ok r).
Proof.
  apply (@list_handlers_never_throw half_stopped_env Op_listPrompts ""
           (McpStdioProxy.new Demo.config) io0).
  reflexivity.
Defined.

(** The three request handlers, when they forward (a client is in place
    and, for [call_tool], the gate is open), hand back what the upstream
    server answered: its result, or the very fault it raised, after an
    error log; they write none of the proxy's own fields. *)
Theorem request_handlers_hand_back_upstream_answer
  (env : Env) (op : Op) (params : string) (p : McpStdioProxy.t) (io : Io) :
  is_list_op op = false ->
  has_client p = true ->
  (op = Op_callTool -> McpStdioProxy.isConnected p = true) ->
  outcome (McpStdioProxy.handler env op params p io)
  = mcp_request env (io_tick io) op params
  /\ own_fields (final (McpStdioProxy.handler env op params p io)) = own_fields p
  /\ (forall e, mcp_request env (io_tick io) op params = Throw e ->
      exists m, last (trace (McpStdioProxy.handler env op params p io)) (EvGate true)
                = EvLog error m).
Proof.
  intros Hop Hc Hg. unfold outcome, final, trace, has_client in *.
  destruct p as [cfg [ccfg mc prov ic rm] sv g]. cbn in Hc, Hg.
  destruct mc; [|discriminate].
  destruct op; try discriminate; try (rewrite (Hg eq_refl));
    unfold_handlers; run; cbn;
    destruct (mcp_request env (io_tick io) _ _) eqn:Hreq; cbn;
    (split; [reflexivity|]); (split; [reflexivity|]);
    intros e' He'; try discriminate;
    rewrite last_last; eauto.
Qed.

Lemma request_handlers_hand_back_upstream_answer_witness :
  outcome (McpStdioProxy.handler half_stopped_env Op_readResource "file:///notes"
             (final half_stopped) (snd half_stopped))
  = Ok (ReadResourceResult "file:///notes").
Proof.
  refine (proj1 (@request_handlers_hand_back_upstream_answer half_stopped_env
                   Op_readResource "file:///notes" (final half_stopped) (snd half_stopped)
                   eq_refl _ _)).
  - vm_compute. reflexivity.
  - discriminate.
Defined.

(** No handler writes a field of the proxy's own, and each makes at most
    one upstream call, for its own operation: exactly one when a client is
    in place and the handler is not held back by the gate, none
    otherwise. *)
Theorem handlers_make_at_most_one_upstream_call
  (env : Env) (op : Op) (params : string) (p : McpStdioProxy.t) (io : Io) :
  exists new,
    trace (McpStdioProxy.handler env op params p io) = (io_trace io ++ new)%list
    /\ own_fields (final (McpStdioProxy.handler env op params p io)) = own_fields p
    /\ filter is_upstream new
       = if has_client p && (negb (gated op) || McpStdioProxy.isConnected p)
         then [EvUpstream op (sent_params op params)] else [].
Proof.
  unfold final, trace, has_client.
  destruct p as [cfg [ccfg mc prov ic rm] sv g].
  destruct op; unfold_handlers; run; cbn;
    try (destruct g; cbn); destruct mc; cbn;
    try (destruct (mcp_request env (io_tick io) _ _) eqn:Hreq; cbn);
    rewrite <- ?app_assoc; eexists; (split; [reflexivity|]); split; reflexivity.
Qed.

(** * Further properties of the connection and of the proxy's life cycle *)

(** No restriction on what is emitted. *)
Definition any_event (_ : Event) : bool := true.

Definition is_mcp_connect (e : Event) : bool :=
  match e with EvMcpConnect _ => true | _ => false end.

(** Symbolic execution up to the call of [connectToMcpServer]. *)
Ltac steps_to_upstream :=
  repeat (lazymatch goal with
          | |- post (bind (McpOAuthClient.connectToMcpServer _) _) _ _ _ => fail
          | _ => step
          end).

(** The state and the last events of [connect], by its outcome. *)
Lemma connect_outcome env c io :
  post (McpOAuthClient.connect env) c io (fun r c' io' =>
    McpOAuthClient.config c' = McpOAuthClient.config c
    /\ match r with
       | Ok _ =>
           McpOAuthClient.isConnected c' = true
           /\ McpOAuthClient.mcpClient c' = Some sdk_client
           /\ (exists m, McpOAuthClient.resourceMetadata c' = Some m
                         /\ (resource m = None \/ resource m = Some ""))
           /\ exists pre u,
                io_trace io' =
                  (io_trace io ++ pre ++
                   [EvMcpConnect u;
                    EvLog info "Connected to MCP server via SSE with OAuth provider";
                    EvLog info "Successfully connected to MCP server with OAuth authentication"])%list
       | Throw _ =>
           McpOAuthClient.isConnected c' = McpOAuthClient.isConnected c
           /\ exists pre,
                io_trace io' =
                  (io_trace io ++ pre ++ [EvLog error "Failed to connect to MCP server:"])%list
       end).
Proof.
  unfold McpOAuthClient.connect.
  apply post_catch.
  apply post_mono with
    (Q := fun r c' io' =>
      McpOAuthClient.config c' = McpOAuthClient.config c
      /\ match r with
         | Ok _ =>
             McpOAuthClient.isConnected c' = true
             /\ McpOAuthClient.mcpClient c' = Some sdk_client
             /\ (exists m, McpOAuthClient.resourceMetadata c' = Some m
                           /\ (resource m = None \/ resource m = Some ""))
             /\ exists pre u,
                  io_trace io' =
                    (io_trace io ++ pre ++
                     [EvMcpConnect u;
                      EvLog info "Connected to MCP server via SSE with OAuth provider";
                      EvLog info "Successfully connected to MCP server with OAuth authentication"])%list
         | Throw _ =>
             McpOAuthClient.isConnected c' = McpOAuthClient.isConnected c
             /\ emits any_event io io'
         end).
  2:{ intros r c' io' (Hc & H). destruct r; [split; assumption|]. steps.
      destruct H as [Hi [n [E _]]]. split; [exact Hc|]. split; [exact Hi|].
      exists n. cbn. rewrite E, <- app_assoc. reflexivity. }
  steps.
  2,3: split; [reflexivity | split; [reflexivity | trace_ok]].
  match goal with
  | |- context [McpOAuthClient.set_resourceMetadata (Some ?m) (McpOAuthClient.set_resourceMetadata _ _)] =>
      assert (Hm : resource m = None \/ resource m = Some "")
        by (destruct (resource o) as [r|] eqn:Hr;
            [destruct (negb (r =? "")) eqn:Hb; cbn;
             [right; reflexivity
             | rewrite Hr; right; apply negb_false_iff, String.eqb_eq in Hb; now subst]
            | left; exact Hr]);
      set (m' := m) in *
  end.
  eapply post_mono;
    [apply (customAuth_start_safe env any_event); try reflexivity; intros; reflexivity|].
  intros r p1 io1 (_ & E1).
  assert (E1' : emits any_event io io1) by (eapply emits_trans; [|exact E1]; trace_ok).
  clear E1.
  assert (Fin : forall c1 io2,
            McpOAuthClient.config c1 = McpOAuthClient.config c ->
            McpOAuthClient.isConnected c1 = McpOAuthClient.isConnected c ->
            McpOAuthClient.resourceMetadata c1 = Some m' ->
            emits any_event io io2 ->
            post (McpOAuthClient.connectToMcpServer env ;;
                  modify (McpOAuthClient.set_isConnected true) ;;
                  logInfo "Successfully connected to MCP server with OAuth authentication")
                 c1 io2
                 (fun r c' io' =>
      McpOAuthClient.config c' = McpOAuthClient.config c
      /\ match r with
         | Ok _ =>
             McpOAuthClient.isConnected c' = true
             /\ McpOAuthClient.mcpClient c' = Some sdk_client
             /\ (exists m, McpOAuthClient.resourceMetadata c' = Some m
                           /\ (resource m = None \/ resource m = Some ""))
             /\ exists pre u,
                  io_trace io' =
                    (io_trace io ++ pre ++
                     [EvMcpConnect u;
                      EvLog info "Connected to MCP server via SSE with OAuth provider";
                      EvLog info "Successfully connected to MCP server with OAuth authentication"])%list
         | Throw _ =>
             McpOAuthClient.isConnected c' = McpOAuthClient.isConnected c
             /\ emits any_event io io'
         end)).
  { intros c1 io2 Hcfg Hic Hrm E2.
    unfold McpOAuthClient.connectToMcpServer. steps; cbn.
    - split; [exact Hcfg|]. split; [reflexivity|]. split; [reflexivity|].
      split; [exists m'; split; assumption|].
      destruct E2 as [n [E _]].
      exists n. eexists. rewrite E, <- !app_assoc. reflexivity.
    - split; [exact Hcfg|]. split; [exact Hic|]. trace_ok.
    - split; [exact Hcfg|]. split; [exact Hic|]. trace_ok. }
  destruct r as [[|]|e]; cbv beta iota.
  - step. apply Fin; try reflexivity. exact E1'.
  - steps.
    eapply post_mono; [apply waitForAuthorizationCode_post|].
    intros r c2 io2 (C2 & _ & E2 & _).
    assert (E : emits any_event io io2).
    { eapply emits_trans; [|eapply emits_weaken; [|exact E2]]; [trace_ok|].
      intros; reflexivity. }
    clear E2.
    destruct r as [[]|e]; [|rewrite C2; split; [reflexivity | split; [reflexivity | exact E]]].
    steps.
    all: try (rewrite C2; split; [reflexivity | split; [reflexivity | trace_ok]]).
    eapply post_mono;
      [eapply (customAuth_exchange_safe env any_event); try reflexivity; intros; reflexivity|].
    intros r p3 io3 (_ & _ & E3).
    assert (E' : emits any_event io io3) by (eapply emits_trans; eauto).
    destruct r as [[|]|e]; steps_to_upstream.
    + apply Fin; [rewrite C2; reflexivity | rewrite C2; reflexivity
                 | rewrite C2; reflexivity | exact E'].
    + rewrite C2; split; [reflexivity | split; [reflexivity | trace_ok]].
    + rewrite C2; split; [reflexivity | split; [reflexivity | trace_ok]].
  - split; [reflexivity | split; [reflexivity | exact E1']].
Qed.

(** Two facts about the same run hold together. *)
Lemma post_conj {St A} (m : M St A) s io (Q1 Q2 : Result A -> St -> Io -> Prop) :
  post m s io Q1 -> post m s io Q2 ->
  post m s io (fun r s' io' => Q1 r s' io' /\ Q2 r s' io').
Proof. unfold post. destruct (m s io) as [[r s'] io']. auto. Qed.

Lemma precedes_none P Q l :
  forallb (fun e => negb (Q e)) l = true -> precedes P Q l = true.
Proof.
  intros H. unfold precedes. rewrite <- (app_nil_r l).
  now apply preceded_after_quiet.
Qed.

Lemma precedes_after P Q D e T :
  forallb (fun e => negb (Q e)) D = true -> P e = true -> Q e = false ->
  precedes P Q (D ++ e :: T) = true.
Proof.
  intros HD HP HQ. unfold precedes. apply preceded_after_quiet; [exact HD|].
  cbn. rewrite HP, HQ. cbn. apply preceded_true.
Qed.

(** [connect()] returns only once the upstream client is connected, and a
    failed attempt leaves the connected flag as it found it. *)
Theorem connect_returns_connected
  (env : Env) (c : McpOAuthClient.t) (io : Io) :
  let run := McpOAuthClient.connect env c io in
  McpOAuthClient.config (final run) = McpOAuthClient.config c
  /\ (is_ok (outcome run) = true ->
      McpOAuthClient.connected (final run) = true
      /\ McpOAuthClient.getClient (final run) = Some sdk_client
      /\ (exists m, McpOAuthClient.resourceMetadata (final run) = Some m
                    /\ (resource m = None \/ resource m = Some ""))
      /\ exists pre u,
           trace run =
             (io_trace io ++ pre ++
              [EvMcpConnect u;
               EvLog info "Connected to MCP server via SSE with OAuth provider";
               EvLog info "Successfully connected to MCP server with OAuth authentication"])%list)
  /\ (is_ok (outcome run) = false ->
      McpOAuthClient.isConnected (final run) = McpOAuthClient.isConnected c
      /\ exists pre,
           trace run =
             (io_trace io ++ pre ++ [EvLog error "Failed to connect to MCP server:"])%list).
Proof.
  cbv zeta. pose proof (connect_outcome env c io) as H. apply post_run in H.
  unfold trace. destruct H as [Hc H]. split; [exact Hc|].
  destruct (outcome (McpOAuthClient.connect env c io)); cbn [is_ok].
  - destruct H as (Hi & Hm & Hr & Ht). split; [|discriminate]. intros _.
    unfold McpOAuthClient.connected, McpOAuthClient.getClient. rewrite Hi, Hm.
    repeat split; assumption.
  - split; [discriminate|]. intros _. exact H.
Qed.

(** * The proxy's [start] *)

Definition is_gate_open (e : Event) : bool :=
  match e with EvGate true => true | _ => false end.

Definition is_stdio_connect (e : Event) : bool :=
  match e with EvStdioConnect => true | _ => false end.

(** What [connect] may emit: no write to the proxy's gate, nothing of the
    stdio server, no close. *)
Definition connecting (e : Event) : bool :=
  match e with
  | EvGate _ | EvStdioConnect | EvStdioClose | EvMcpClose => false
  | _ => true
  end.

Lemma connect_connecting env c io :
  post (McpOAuthClient.connect env) c io (fun _ _ io' => emits connecting io io').
Proof.
  apply connect_emits; try (intros; reflexivity).
  intros [] H; try discriminate; reflexivity.
Qed.

(** The upstream connection comes before the opening of the gate, which
    comes before the stdio server; nothing is closed. *)
Definition start_order (new : list Event) : Prop :=
  precedes is_mcp_connect is_gate_open new = true
  /\ precedes is_gate_open is_stdio_connect new = true
  /\ existsb is_close new = false.

(** The gate and the order of events of [start], by its outcome. *)
Lemma start_outcome env p io :
  post (McpStdioProxy.start env) p io (fun r p' io' =>
    McpStdioProxy.isConnected p' = is_ok r
    /\ McpStdioProxy.connected p' = is_ok r
    /\ (is_ok r = true -> McpStdioProxy.stdioServer p' = true)
    /\ exists new,
         io_trace io' = (io_trace io ++ new)%list
         /\ start_order new
         /\ (is_ok r = false ->
             exists pre, new = (pre ++ [EvLog error "Error starting proxy"; EvGate false])%list)).
Proof.
  unfold McpStdioProxy.start, McpStdioProxy.assign_isConnected.
  step. step. step. step. step.
  eapply post_mono; [apply post_conj; [apply connect_outcome | apply connect_connecting]|].
  intros r c' io1 ((_ & H) & [N [EN FN]]). cbn in EN.
  assert (Q1 : forallb (fun e => negb (is_gate_open e)) N = true)
    by (apply (forallb_weaken connecting (fun e => negb (is_gate_open e)) N); [|exact FN];
        intros [] Hx; try discriminate; reflexivity).
  assert (Q2 : forallb (fun e => negb (is_stdio_connect e)) N = true)
    by (apply (forallb_weaken connecting (fun e => negb (is_stdio_connect e)) N); [|exact FN];
        intros [] Hx; try discriminate; reflexivity).
  assert (Q3 : existsb is_close N = false)
    by (apply (existsb_none connecting is_close N); [|exact FN];
        intros [] Hx; try discriminate; reflexivity).
  destruct r as [[]|e].
  - destruct H as (Hi & Hm & _ & pre & u & Ht).
    assert (EN' : N = (pre ++ [EvMcpConnect u;
               EvLog info "Connected to MCP server via SSE with OAuth provider";
               EvLog info "Successfully connected to MCP server with OAuth authentication"])%list).
    { rewrite EN in Ht. cbn in Ht. now apply app_inv_head in Ht. }
    assert (Qpre : forallb (fun e => negb (is_gate_open e)) pre = true).
    { rewrite EN', forallb_app in Q1. now apply andb_prop in Q1. }
    steps; cbn.
    + split; [reflexivity|].
      split; [unfold McpStdioProxy.connected, McpOAuthClient.connected; cbn;
              now rewrite Hi, Hm|].
      split; [reflexivity|].
      eexists. split; [rewrite EN, <- !app_assoc; reflexivity|].
      split; [|discriminate].
      split; [|split].
      * rewrite EN', <- app_assoc.
        apply (precedes_after _ _ (_ :: pre)); [exact Qpre | reflexivity | reflexivity].
      * apply (preceded_after_quiet _ _ (_ :: N)); [exact Q2 | reflexivity].
      * cbn. rewrite existsb_app, Q3. reflexivity.
    + split; [reflexivity|]. split; [reflexivity|]. split; [discriminate|].
      eexists. split; [rewrite EN, <- !app_assoc; reflexivity|].
      split.
      * split; [|split].
        -- rewrite EN', <- app_assoc.
           apply (precedes_after _ _ (_ :: pre)); [exact Qpre | reflexivity | reflexivity].
        -- apply (preceded_after_quiet _ _ (_ :: N)); [exact Q2 | reflexivity].
        -- cbn. rewrite existsb_app, Q3. reflexivity.
      * intros _. eexists (_ :: N ++ [_; _; _; _])%list.
        cbn. rewrite <- !app_assoc. reflexivity.
  - steps; cbn.
    split; [reflexivity|]. split; [reflexivity|]. split; [discriminate|].
    eexists. split; [rewrite EN, <- !app_assoc; reflexivity|].
    split.
    + split; [|split].
      * apply precedes_none. cbn. rewrite forallb_app, Q1. reflexivity.
      * apply precedes_none. cbn. rewrite forallb_app, Q2. reflexivity.
      * cbn. rewrite existsb_app, Q3. reflexivity.
    + intros _. exists (EvLog info "Starting OAuth authentication and connecting to MCP server" :: N)%list.
      reflexivity.
Qed.

(** [start()] leaves the gate as its outcome says: open, with the
    upstream client connected and the stdio server attached, when it
    returns; closed when it throws, the fault having been logged. *)
Theorem start_gate_tracks_outcome (env : Env) (p : McpStdioProxy.t) (io : Io) :
  let run := McpStdioProxy.start env p io in
  McpStdioProxy.isConnected (final run) = is_ok (outcome run)
  /\ McpStdioProxy.connected (final run) = is_ok (outcome run)
  /\ (is_ok (outcome run) = true -> McpStdioProxy.stdioServer (final run) = true)
  /\ (is_ok (outcome run) = false ->
      exists pre,
        trace run = (io_trace io ++ pre ++ [EvLog error "Error starting proxy"; EvGate false])%list).
Proof.
  cbv zeta. pose proof (start_outcome env p io) as H. apply post_run in H.
  destruct H as (H1 & H2 & H3 & new & E & _ & H4).
  split; [exact H1|]. split; [exact H2|]. split; [exact H3|].
  intros F. destruct (H4 F) as [pre ->]. exists pre. exact E.
Qed.

(** The order of [start()]: the gate is opened only after the upstream
    connection was made, the stdio server is attached only after the gate
    was opened, and nothing is ever closed, not even the upstream
    connection when attaching the stdio server fails. *)
Theorem start_opens_gate_after_upstream_before_stdio
  (env : Env) (p : McpStdioProxy.t) (io : Io) :
  exists new,
    trace (McpStdioProxy.start env p io) = (io_trace io ++ new)%list
    /\ precedes is_mcp_connect is_gate_open new = true
    /\ precedes is_gate_open is_stdio_connect new = true
    /\ existsb is_close new = false.
Proof.
  pose proof (start_outcome env p io) as H. apply post_run in H.
  destruct H as (_ & _ & _ & new & E & (O1 & O2 & O3) & _).
  exists new. repeat split; assumption.
Qed.

(** * [disconnect] *)

(** [disconnect()] is all or nothing: when the upstream close rejects,
    the fault is passed on and the client is left exactly as it was,
    still holding the upstream client and its flag; otherwise the upstream
    client is dropped and the flag cleared.  The close call is made only
    when there is an upstream client. *)
Theorem disconnect_is_all_or_nothing (env : Env) (c : McpOAuthClient.t) (io : Io) :
  let run := McpOAuthClient.disconnect env c io in
  (outcome run = Ok tt
   /\ McpOAuthClient.getClient (final run) = None
   /\ McpOAuthClient.isConnected (final run) = false
   /\ McpOAuthClient.connected (final run) = false
   /\ trace run =
        (io_trace io
         ++ match McpOAuthClient.mcpClient c with Some _ => [EvMcpClose] | None => [] end
         ++ [EvLog info "Disconnected from MCP server"])%list)
  \/ (exists e,
        mcp_close env (io_tick io) = Throw e
        /\ McpOAuthClient.mcpClient c <> None
        /\ run = (Throw e, c, answered io EvMcpClose)).
Proof.
  cbv zeta. unfold McpOAuthClient.disconnect, outcome, final, trace. run.
  destruct c as [cfg mc prov ic rm]. cbn.
  destruct mc as [cl|]; cbn.
  - destruct (mcp_close env (io_tick io)) as [[]|e] eqn:Hc; cbn.
    + left. rewrite <- app_assoc. repeat split.
    + right. exists e. repeat split. discriminate.
  - left. repeat split.
Qed.

(** * Requests after [stop] *)

(** After [stop()], a handler that is held back by the gate, and every
    handler when the upstream client was dropped (there was none, or its
    close succeeded), contacts the upstream server no more: the list
    handlers answer the empty list and the others throw. *)
Theorem requests_after_stop_are_not_forwarded
  (env : Env) (p : McpStdioProxy.t) (io : Io) (op : Op) (params : string) :
  gated op = true \/ has_client p = false \/ mcp_close env (io_tick io) = Ok tt ->
  let stopped := McpStdioProxy.stop env p io in
  let served := McpStdioProxy.handler env op params (final stopped) (snd stopped) in
  filter is_upstream (trace served) = filter is_upstream (io_trace io)
  /\ outcome served =
       (if is_list_op op then Ok (empty_list op)
        else Throw (if gated op then not_connected else "MCP client not connected")).
Proof.
  intros H. cbv zeta. unfold outcome, final, trace, has_client in *.
  destruct p as [cfg [ccfg mc prov ic rm] sv g]. cbn in H.
  unfold McpStdioProxy.stop, McpStdioProxy.client, McpOAuthClient.disconnect,
    McpStdioProxy.assign_isConnected.
  destruct mc as [cl|].
  - destruct (mcp_close env (io_tick io)) as [[]|e] eqn:Hc.
    + destruct op; unfold_handlers; run; cbn; rewrite Hc; cbn;
        destruct (stdio_close env _); cbn;
        rewrite ?filter_app; cbn; rewrite ?app_nil_r; split; reflexivity.
    + destruct H as [H|[H|H]]; try discriminate.
      destruct op; try discriminate; unfold_handlers; run; cbn; rewrite Hc; cbn;
        rewrite ?filter_app; cbn; rewrite ?app_nil_r; split; reflexivity.
  - clear H.
    destruct op; unfold_handlers; run; cbn;
      destruct (stdio_close env _); cbn;
      rewrite ?filter_app; cbn; rewrite ?app_nil_r; split; reflexivity.
Qed.

Lemma requests_after_stop_are_not_forwarded_witness :
  outcome (McpStdioProxy.handler half_stopped_env Op_readResource "file:///notes"
             (final (McpStdioProxy.stop half_stopped_env (McpStdioProxy.new Demo.config) io0))
             (snd (McpStdioProxy.stop half_stopped_env (McpStdioProxy.new Demo.config) io0)))
  = Throw "MCP client not connected".
Proof.
  exact (proj2 (@requests_after_stop_are_not_forwarded half_stopped_env
                  (McpStdioProxy.new Demo.config) io0 Op_readResource "file:///notes"
                  (or_intror (or_introl eq_refl)))).
Defined.

(** * The callback that is accepted *)

Lemma deliver_accepted env req p s io :
  ProxyOAuthProvider.oauthServer p = Some s ->
  srv_listening s = true ->
  route_matches env (srv_path s) (req_path req) = true ->
  accepts (ProxyOAuthProvider._state p) req = true ->
  ProxyOAuthProvider.deliver env req p io =
    (Ok tt,
     ProxyOAuthProvider.set_oauthServer
       (Some {| srv_port := srv_port s; srv_path := srv_path s; srv_listening := false;
                srv_promise := settle Fulfilled (srv_promise s) |})
       (ProxyOAuthProvider.set_authorizationCode (query_get (req_query req) "code")
          (accepted_on req p)),
     tell (tell io (EvSend success_page)) EvServerClose).
Proof.
  intros Hs Hl Hr Hacc. unfold accepts in Hacc.
  apply andb_prop in Hacc. destruct Hacc as [Hacc Hcode].
  apply andb_prop in Hacc. destruct Hacc as [Herr Hst].
  apply negb_true_iff in Herr. apply negb_true_iff in Hst.
  unfold accepted_on, known. unfold_listener. run. rewrite Hs, Hl.
  destruct p as [cfg tk ci cv st srv code conns]; cbn in *.
  destruct (existsb (Nat.eqb (req_connection req)) conns); cbn;
    rewrite Hr; cbn; rewrite Herr; cbn; rewrite Hst; cbn; rewrite Hcode; cbn;
    rewrite Hs; cbn; reflexivity.
Qed.

Lemma forEach_app {St A} (a b : list A) (f : A -> M St unit) s io :
  forEach (a ++ b) f s io =
  match forEach a f s io with
  | (Ok _, s', io') => forEach b f s' io'
  | (Throw e, s', io') => (Throw e, s', io')
  end.
Proof.
  revert s io. induction a as [|x a IH]; intros s io; [reflexivity|].
  cbn [app]. rewrite !forEach_cons.
  destruct (f x s io) as [[[u|e] s'] io']; [apply IH | reflexivity].
Qed.

(** The provider once the connections of [reqs] are accepted, in order. *)
Definition accepted_all (reqs : list Request) (p : ProxyOAuthProvider.t)
  : ProxyOAuthProvider.t :=
  fold_left (fun q r => accepted_on r q) reqs p.

Lemma accepted_on_fields req p :
  ProxyOAuthProvider.oauthServer (accepted_on req p) = ProxyOAuthProvider.oauthServer p
  /\ ProxyOAuthProvider._state (accepted_on req p) = ProxyOAuthProvider._state p
  /\ ProxyOAuthProvider.authorizationCode (accepted_on req p)
     = ProxyOAuthProvider.authorizationCode p.
Proof. unfold accepted_on. destruct (known req p); repeat split. Qed.

Lemma accepted_all_fields reqs : forall p,
  ProxyOAuthProvider.oauthServer (accepted_all reqs p) = ProxyOAuthProvider.oauthServer p
  /\ ProxyOAuthProvider._state (accepted_all reqs p) = ProxyOAuthProvider._state p
  /\ ProxyOAuthProvider.authorizationCode (accepted_all reqs p)
     = ProxyOAuthProvider.authorizationCode p.
Proof.
  induction reqs as [|r reqs IH]; intros p; [repeat split|].
  cbn. unfold accepted_all in IH. destruct (IH (accepted_on r p)) as (A & B & C).
  destruct (accepted_on_fields r p) as (A' & B' & C').
  rewrite A, B, C, A', B', C'. repeat split.
Qed.

(** The request comes on a connection that neither the provider holds
    open nor one of the [earlier] requests came on. *)
Definition on_new_connection (p : ProxyOAuthProvider.t) (earlier : list Request)
  (r : Request) : bool :=
  negb (known r p)
  && negb (existsb (fun q => (req_connection r =? req_connection q)%nat) earlier).

Lemma known_accepted_on r q p :
  known r (accepted_on q p) = (req_connection r =? req_connection q)%nat || known r p.
Proof.
  unfold accepted_on. destruct (known q p) eqn:Hq; [|reflexivity].
  destruct (req_connection r =? req_connection q)%nat eqn:E; [|reflexivity].
  apply Nat.eqb_eq in E. unfold known in *. now rewrite E, Hq.
Qed.

Lemma known_accepted_all r reqs : forall p,
  known r (accepted_all reqs p)
  = known r p || existsb (fun q => (req_connection r =? req_connection q)%nat) reqs.
Proof.
  induction reqs as [|q reqs IH]; intros p; cbn; [now rewrite orb_false_r|].
  rewrite IH, known_accepted_on.
  destruct (req_connection r =? req_connection q)%nat, (known r p); reflexivity.
Qed.

(** Requests on other paths get Express's 404; their connections are
    accepted and nothing else changes. *)
Lemma deliver_strays env strays s : forall p io,
  ProxyOAuthProvider.oauthServer p = Some s ->
  srv_listening s = true ->
  Forall (fun r => route_matches env (srv_path s) (req_path r) = false) strays ->
  forEach strays (ProxyOAuthProvider.deliver env) p io =
    (Ok tt, accepted_all strays p,
     {| io_trace := (io_trace io ++ map (fun r => EvNotFound (req_path r)) strays)%list;
        io_tick := io_tick io |}).
Proof.
  induction strays as [|r strays IH]; intros p io Hs Hl Hf.
  - cbn. rewrite app_nil_r. destruct io; reflexivity.
  - inversion Hf as [|? ? Hr Hrest]; subst.
    rewrite forEach_cons.
    assert (D : ProxyOAuthProvider.deliver env r p io
                = (Ok tt, accepted_on r p, tell io (EvNotFound (req_path r)))).
    { unfold ProxyOAuthProvider.deliver, accepted_on, known. run. rewrite Hs, Hl. cbn.
      destruct (existsb _ _); cbn; now rewrite Hr. }
    rewrite D.
    rewrite (IH (accepted_on r p) (tell io (EvNotFound (req_path r)))); [| |exact Hl|exact Hrest].
    + cbn. now rewrite <- app_assoc.
    + destruct (accepted_on_fields r p) as (A & _). now rewrite A.
Qed.

(** The first request on the callback path that carries the stored state,
    a code and no error ends the wait: its code is stored, the success page
    is sent and the listener is closed.  The requests on other paths that
    came before it were answered with 404 and stored nothing; of the
    requests that come after it, those on a new connection are not served
    (one on a connection that is still open would be). *)
Theorem first_accepted_callback_ends_the_wait
  (env : Env) (c : McpOAuthClient.t) (io : Io)
  (strays : list Request) (req : Request) (later : list Request) (s : CallbackServer) :
  callbacks env (io_tick io) = (strays ++ req :: later)%list ->
  ProxyOAuthProvider.oauthServer (McpOAuthClient.oauthProvider c) = Some s ->
  srv_listening s = true ->
  Forall (fun r => route_matches env (srv_path s) (req_path r) = false) strays ->
  route_matches env (srv_path s) (req_path req) = true ->
  accepts (ProxyOAuthProvider._state (McpOAuthClient.oauthProvider c)) req = true ->
  forallb (on_new_connection (McpOAuthClient.oauthProvider c) (strays ++ [req])) later = true ->
  let run := McpOAuthClient.waitForAuthorizationCode env c io in
  outcome run = Ok tt
  /\ ProxyOAuthProvider.authorizationCode (McpOAuthClient.oauthProvider (final run))
     = query_get (req_query req) "code"
  /\ trace run =
       (io_trace io ++ EvAwaitCallback
        :: map (fun r => EvNotFound (req_path r)) strays
        ++ [EvSend success_page; EvServerClose])%list.
Proof.
  intros Hcb Hs Hl Hst Hr Hacc Hnew. cbv zeta.
  assert (Hcode : qval_truthy (query_get (req_query req) "code") = true)
    by (unfold accepts in Hacc; now apply andb_prop in Hacc).
  set (p := McpOAuthClient.oauthProvider c) in *.
  destruct (accepted_all_fields strays p) as (Fs & Fst & _).
  assert (Hs' : ProxyOAuthProvider.oauthServer (accepted_all strays p) = Some s)
    by (rewrite Fs; exact Hs).
  assert (Hacc' : accepts (ProxyOAuthProvider._state (accepted_all strays p)) req = true)
    by (rewrite Fst; exact Hacc).
  set (closed := ProxyOAuthProvider.set_oauthServer
       (Some {| srv_port := srv_port s; srv_path := srv_path s; srv_listening := false;
                srv_promise := settle Fulfilled (srv_promise s) |})
       (ProxyOAuthProvider.set_authorizationCode (query_get (req_query req) "code")
          (accepted_on req (accepted_all strays p)))).
  assert (Hlater : forallb (fun r => negb (known r closed)) later = true).
  { apply forallb_forall. intros r Hin.
    rewrite forallb_forall in Hnew. specialize (Hnew r Hin).
    unfold on_new_connection in Hnew. apply andb_prop in Hnew. destruct Hnew as [N1 N2].
    apply negb_true_iff in N1. apply negb_true_iff in N2.
    rewrite existsb_app in N2. cbn in N2. rewrite orb_false_r in N2.
    apply orb_false_elim in N2. destruct N2 as [N2 N3].
    change (known r closed) with (known r (accepted_on req (accepted_all strays p))).
    now rewrite known_accepted_on, known_accepted_all, N1, N2, N3. }
  unfold outcome, final, trace, McpOAuthClient.waitForAuthorizationCode,
    McpOAuthClient.provider, ProxyOAuthProvider.getAuthorizationCode.
  run. rewrite Hcb, forEach_app. fold p.
  rewrite (@deliver_strays env strays s p _ Hs Hl Hst), forEach_cons,
    (deliver_accepted env req _ _ Hs' Hl Hr Hacc').
  fold closed.
  erewrite (@deliver_all_refused env later closed); [|reflexivity|reflexivity|exact Hlater].
  cbn. rewrite Hcode. cbn. rewrite <- !app_assoc. repeat split.
Qed.

(** A browser that asks for the icon of the page, then the callback, then
    a second callback on a connection of its own. *)
Definition env_busy_browser : Env :=
  Demo.env
    [{| req_connection := 1; req_path := "/favicon.ico"; req_query := [] |};
     Demo.callback_on 2 [("code", QStr "abc123"); ("state", QStr (Demo.state_at 3))];
     Demo.callback_on 3 [("code", QStr "late"); ("state", QStr (Demo.state_at 3))]]
    (fun _ _ => Ok Demo.good_response) (Throw "invalid_grant") (Ok tt).

Lemma first_accepted_callback_ends_the_wait_witness :
  let run :=
    McpOAuthClient.waitForAuthorizationCode env_busy_browser
      (McpOAuthClient.set_oauthProvider listening_provider (McpOAuthClient.new Demo.config))
      io0 in
  outcome run = Ok tt
  /\ ProxyOAuthProvider.authorizationCode (McpOAuthClient.oauthProvider (final run))
     = Some (QStr "abc123")
  /\ trace run
     = [EvAwaitCallback; EvNotFound "/favicon.ico"; EvSend success_page; EvServerClose].
Proof.
  refine (@first_accepted_callback_ends_the_wait env_busy_browser
            (McpOAuthClient.set_oauthProvider listening_provider
               (McpOAuthClient.new Demo.config)) io0
            [{| req_connection := 1; req_path := "/favicon.ico"; req_query := [] |}]
            (Demo.callback_on 2 [("code", QStr "abc123"); ("state", QStr (Demo.state_at 3))])
            [Demo.callback_on 3 [("code", QStr "late"); ("state", QStr (Demo.state_at 3))]]
            {| srv_port := Some 3000%Z; srv_path := "/oauth/callback";
               srv_listening := true; srv_promise := Fulfilled |}
            eq_refl eq_refl eq_refl _ eq_refl _ eq_refl).
  - repeat constructor.
  - vm_compute. reflexivity.
Defined.

(** * Opening the browser *)

(** [redirectToAuthorization] binds the callback listener before it opens
    the browser, on the port of the redirect URI when the URI names one and
    on the configured port otherwise, at the path of the redirect URI; a
    browser that cannot be opened is reported by a warning and is not a
    fault. *)
Theorem redirectToAuthorization_survives_browser_failure
  (env : Env) (u : URL) (p : ProxyOAuthProvider.t) (io : Io) :
  let uri := ProxyOAuthProvider.redirectUrl p in
  let port :=
    if truthy (url_port env uri) then parseInt (url_port env uri)
    else Config.port (Config.oauthServer (ProxyOAuthProvider.config p)) in
  url_parses env uri = true ->
  listen env (io_tick io) port = Listening ->
  let run := ProxyOAuthProvider.redirectToAuthorization env u p io in
  outcome run = Ok tt
  /\ final run =
       ProxyOAuthProvider.set_oauthServer
         (Some {| srv_port := port; srv_path := url_pathname env uri;
                  srv_listening := true; srv_promise := Fulfilled |}) p
  /\ trace run =
       (io_trace io
        ++ [EvRedirectToAuthorization u;
            EvLog info "Opening browser for OAuth authentication";
            EvListen port (url_pathname env uri);
            EvLog info "OAuth callback server listening";
            EvOpen (url_toString u)]
        ++ match open env (S (io_tick io)) (url_toString u) with
           | Ok _ => []
           | Throw _ =>
               [EvLog warn "Could not open browser automatically. Please visit the authorization URL manually"]
           end)%list.
Proof.
  cbv zeta. intros Hu Hl.
  unfold outcome, final, trace, ProxyOAuthProvider.redirectToAuthorization,
    ProxyOAuthProvider.startOAuthServer, ProxyOAuthProvider.resolve,
    ProxyOAuthProvider.settle_promise.
  run. rewrite Hu. cbn. rewrite Hl. cbn.
  destruct (open env (S (io_tick io)) (url_toString u)) as [[]|e]; cbn;
    rewrite <- !app_assoc; repeat split; destruct p; reflexivity.
Qed.

Lemma redirectToAuthorization_survives_browser_failure_witness :
  outcome (ProxyOAuthProvider.redirectToAuthorization half_stopped_env
             {| url_base := "https://idp.example/tenant/authorize"; url_query := [] |}
             (ProxyOAuthProvider.new Demo.config) io0) = Ok tt.
Proof.
  exact (proj1 (@redirectToAuthorization_survives_browser_failure half_stopped_env
                  {| url_base := "https://idp.example/tenant/authorize"; url_query := [] |}
                  (ProxyOAuthProvider.new Demo.config) io0 eq_refl eq_refl)).
Defined.

(** * Further properties of [customAuth] *)

(** What [customAuth] leaves behind when it answers [REDIRECT]: a CSRF
    state and a code verifier are stored, and a callback server is in place
    for the path of the redirect URI, its promise resolved; that server is
    listening when the port could be bound, and is not when the
    [listen] call ended with an error. *)
Definition awaiting_callback (env : Env) (p p' : ProxyOAuthProvider.t) : Prop :=
  ProxyOAuthProvider._state p' <> None
  /\ (exists v, ProxyOAuthProvider._codeVerifier p' = Some v)
  /\ (exists srv tick,
        ProxyOAuthProvider.oauthServer p' = Some srv
        /\ srv_path srv = url_pathname env (ProxyOAuthProvider.redirectUrl p)
        /\ srv_promise srv = Fulfilled
        /\ srv_listening srv
           = match listen env tick (srv_port srv) with
             | Listening => true
             | ListenError _ _ => false
             end).

(** The authorization flow never answers [AUTHORIZED], leaves the tokens
    alone, and leaves the provider as said when it answers [REDIRECT]. *)
Lemma newAuthorizationFlow_redirects env options asu md ci p io :
  post (newAuthorizationFlow env options asu md ci) p io (fun r p' io' =>
    ProxyOAuthProvider._tokens p' = ProxyOAuthProvider._tokens p
    /\ ProxyOAuthProvider.config p' = ProxyOAuthProvider.config p
    /\ match r with
       | Ok AUTHORIZED => False
       | Ok REDIRECT => awaiting_callback env p p'
       | Throw _ => True
       end).
Proof.
  unfold newAuthorizationFlow, ProxyOAuthProvider.state,
    ProxyOAuthProvider.redirectToAuthorization, ProxyOAuthProvider.startOAuthServer.
  steps.
  all: destruct p as [? ? ? ? ? ? ? ?]; cbn in *.
  all: try (split; [reflexivity|]; split; [reflexivity|]; exact I).
  all: split; [reflexivity|]; split; [reflexivity|]; unfold awaiting_callback; cbn.
  all: split;
         [|split;
           [eexists; reflexivity
           |eexists;
            match goal with
            | H : listen _ ?t _ = _ |- _ =>
                exists t; split; [reflexivity|]; split; [reflexivity|];
                split; [reflexivity|]; cbn; rewrite H; reflexivity
            end]].
  all: try discriminate.
  all: match goal with
       | H : negb (truthy_opt ?st) = false |- ?st <> None =>
           destruct st; [discriminate | cbn in H; discriminate]
       end.
Qed.

(** Where the tokens that [customAuth] stored came from. *)
Definition tokens_obtained (env : Env) (options : Options.t)
  (p : ProxyOAuthProvider.t) (tk : OAuthTokens) : Prop :=
  exists tick asu ci,
    match Options.authorizationCode options with
    | Some code =>
        exists v,
          ProxyOAuthProvider._codeVerifier p = Some v
          /\ exchangeAuthorization env tick asu ci code v (ProxyOAuthProvider.redirectUrl p)
             = Ok tk
    | None =>
        exists old rt,
          ProxyOAuthProvider._tokens p = Some old
          /\ refresh_token old = Some rt
          /\ refreshAuthorization env tick asu ci rt = Ok tk
    end.

(** The token store after [customAuth], by its outcome. *)
Lemma customAuth_outcome env options p io :
  post (customAuth env options) p io (fun r p' io' =>
    ProxyOAuthProvider.config p' = ProxyOAuthProvider.config p
    /\ match r with
       | Ok AUTHORIZED =>
           exists tk, ProxyOAuthProvider._tokens p' = Some tk
                      /\ tokens_obtained env options p tk
       | Ok REDIRECT =>
           ProxyOAuthProvider._tokens p' = ProxyOAuthProvider._tokens p
           /\ Options.authorizationCode options = None
           /\ awaiting_callback env p p'
       | Throw _ => ProxyOAuthProvider._tokens p' = ProxyOAuthProvider._tokens p
       end).
Proof.
  enter_customAuth any_event p io.
  2:{ split; reflexivity. }
  subst p1.
  destruct (Options.authorizationCode options) as [code|] eqn:Hcode.
  - steps; destruct p as [? ? ? ? ? ? ?]; cbn in *; try (split; reflexivity).
    split; [reflexivity|]. eexists. split; [reflexivity|].
    unfold tokens_obtained. rewrite Hcode. cbn.
    do 3 eexists. eexists. split; eassumption.
  - step. step.
    apply post_bind.
    apply post_mono with
      (Q := fun r s' io' =>
              exists b, r = Ok b
              /\ ProxyOAuthProvider.config s' = ProxyOAuthProvider.config p
              /\ ProxyOAuthProvider.redirectUrl s' = ProxyOAuthProvider.redirectUrl p
              /\ if b : bool
                 then exists tk, ProxyOAuthProvider._tokens s' = Some tk
                                 /\ tokens_obtained env options p tk
                 else ProxyOAuthProvider._tokens s' = ProxyOAuthProvider._tokens p).
    { steps; destruct p as [? ? ? ? ? ? ?]; cbn in *;
        eexists; (split; [reflexivity|]); (split; [reflexivity|]); (split; [reflexivity|]);
        try reflexivity.
      eexists. split; [reflexivity|].
      unfold tokens_obtained. rewrite Hcode. cbn.
      match goal with
      | H : match ?t with Some _ => _ | None => _ end = Some _ |- _ =>
          destruct t as [old|] eqn:Hold; [|discriminate]
      end.
      do 3 eexists. exists old. eexists. split; [reflexivity|]. split; eassumption. }
    intros r p2 io3 (b & -> & C2 & R2 & T2).
    destruct b; cbv beta iota.
    + step. split; assumption.
    + eapply post_mono; [apply newAuthorizationFlow_redirects|].
      intros r p3 io4 (T3 & C3 & K).
      split; [congruence|].
      destruct r as [[|]|e]; [destruct K | | congruence].
      split; [congruence|]. split; [reflexivity|].
      destruct K as (K1 & K2 & srv & tick & K3 & K4 & K5).
      split; [exact K1|]. split; [exact K2|]. exists srv, tick. rewrite <- R2. auto.
Qed.

(** The shape of a call that is given a code: logging and discovery,
    then the attempt ends with a fault or makes one exchange, for that code
    and with the stored verifier. *)
Lemma customAuth_exchange_shape env options code p io :
  Options.authorizationCode options = Some code ->
  post (customAuth env options) p io (fun r p' io' =>
    exists D,
      forallb discovery_event D = true
      /\ ((io_trace io' = (io_trace io ++ D)%list /\ exists e, r = Throw e)
          \/ (exists asu ci v,
                ProxyOAuthProvider._codeVerifier p = Some v
                /\ truthy v = true
                /\ io_trace io' =
                     (io_trace io ++ D
                      ++ EvExchange asu ci code v (ProxyOAuthProvider.redirectUrl p) (is_ok r)
                      :: (if is_ok r then [EvLog info "OAuth tokens saved successfully"]
                          else []))%list
                /\ (is_ok r = true -> r = Ok AUTHORIZED)))).
Proof.
  intros has_code.
  enter_customAuth discovery_event p io.
  2:{ destruct H as [D [ED FD]]. exists D. split; [exact FD|]. left. eauto. }
  destruct H as [D [ED FD]]. subst p1.
  rewrite has_code.
  steps; destruct p as [? ? ? ? ? ? ?]; cbn in *.
  - exists (D ++ [EvLog info "Exchanging authorization code for tokens..."])%list.
    split; [rewrite forallb_app, FD; reflexivity|]. right.
    do 3 eexists. split; [eassumption|]. split; [assumption|].
    split; [|reflexivity].
    cbn. rewrite ED, <- !app_assoc. reflexivity.
  - exists (D ++ [EvLog info "Exchanging authorization code for tokens..."])%list.
    split; [rewrite forallb_app, FD; reflexivity|]. right.
    do 3 eexists. split; [eassumption|]. split; [assumption|].
    split; [|discriminate].
    cbn. rewrite ED, <- !app_assoc. reflexivity.
  - exists (D ++ [EvLog info "Exchanging authorization code for tokens..."])%list.
    split; [rewrite forallb_app, FD; reflexivity|]. left.
    split; [rewrite ED, <- app_assoc; reflexivity | eauto].
  - exists (D ++ [EvLog info "Exchanging authorization code for tokens..."])%list.
    split; [rewrite forallb_app, FD; reflexivity|]. left.
    split; [rewrite ED, <- app_assoc; reflexivity | eauto].
Qed.

(** The event, when it is a request to an authorization server, goes to
    [asu]. *)
Definition addressed_to (asu : string) (e : Event) : bool :=
  match e with
  | EvFetch u => (u =? oauth_endpoint asu) || (u =? openid_endpoint asu)
  | EvRegisterClient a _ => a =? asu
  | EvExchange a _ _ _ _ _ => a =? asu
  | EvRefresh a _ _ _ => a =? asu
  | EvStartAuthorization a _ => a =? asu
  | _ => true
  end.

(** Solves [emits (addressed_to asu) _ _] along a run. *)
Ltac addressed :=
  trace_ok;
  unfold addressed_to, oauth_endpoint, openid_endpoint;
  rewrite ?String.eqb_refl, ?orb_true_r; reflexivity.

Lemma discoverOAuthMetadata_addressed env asu (p : ProxyOAuthProvider.t) io0 io :
  emits (addressed_to asu) io0 io ->
  post (discoverOAuthMetadata env asu) p io (fun _ p' io' =>
    p' = p /\ emits (addressed_to asu) io0 io').
Proof.
  intros E. unfold discoverOAuthMetadata.
  steps; (split; [reflexivity | addressed]).
Qed.

Lemma newAuthorizationFlow_addressed env options asu md ci p io0 io :
  emits (addressed_to asu) io0 io ->
  post (newAuthorizationFlow env options asu md ci) p io (fun _ _ io' =>
    emits (addressed_to asu) io0 io').
Proof.
  intros E.
  unfold newAuthorizationFlow, ProxyOAuthProvider.state,
    ProxyOAuthProvider.redirectToAuthorization, ProxyOAuthProvider.startOAuthServer.
  steps; addressed.
Qed.

Lemma customAuth_addressed env options p io :
  post (customAuth env options) p io (fun _ _ io' =>
    emits (addressed_to (chosen_server env (io_tick io) (Options.serverUrl options))) io io').
Proof.
  set (asu := chosen_server env (io_tick io) (Options.serverUrl options)).
  unfold customAuth.
  step. step.
  apply post_bind.
  apply post_mono with
    (Q := fun r s' io' => r = Ok asu /\ s' = p /\ emits (addressed_to asu) io io').
  { subst asu. unfold chosen_server. cbn [tell io_tick].
    steps; cbn [tell io_tick answered] in *;
      (split; [try reflexivity | split; [reflexivity | addressed]]).
    all: match goal with
         | H : discoverOAuthProtectedResourceMetadata _ _ _ = _ |- _ => rewrite H
         end; cbn; rewrite ?Heqo0; try reflexivity. }
  intros r s' io1 (-> & -> & E1).
  apply post_bind.
  eapply post_mono; [apply discoverOAuthMetadata_addressed; exact E1|].
  intros r s' io2 (-> & E2).
  destruct r as [md|e]; [|exact E2].
  apply post_bind. unfold ProxyOAuthProvider.clientInformation.
  apply post_mono with
    (Q := fun r s' io' => (exists c, r = Ok (Some c)) /\ io' = io2).
  { steps; cbn; split; try reflexivity; destruct p; cbn in *; subst; eauto. }
  intros r p1 io3 ([c ->] & ->).
  step. step.
  destruct (Options.authorizationCode options) as [code|].
  - steps; addressed.
  - step. step.
    apply post_bind.
    apply post_mono with
      (Q := fun r s' io' => (exists b, r = Ok b) /\ emits (addressed_to asu) io io').
    { steps; (split; [eauto | addressed]). }
    intros r p2 io4 ([b ->] & E4).
    destruct b; cbv beta iota; [step; exact E4|].
    apply newAuthorizationFlow_addressed. exact E4.
Qed.

Lemma filter_none (A f : Event -> bool) l :
  (forall e, A e = true -> f e = false) -> forallb A l = true -> filter f l = [].
Proof.
  intros W. induction l as [|e l IH]; [reflexivity|]. cbn.
  intros H. apply andb_prop in H. destruct H as [He Hl].
  now rewrite (W e He), IH.
Qed.

(** [customAuth] answers [AUTHORIZED] only after it has stored tokens
    that the token endpoint returned in this very call, for the code it
    was given or for the refresh token that was stored; when it answers
    [REDIRECT] or throws, the stored tokens are as they were: a refresh
    that failed does not clear them. *)
Theorem customAuth_stores_tokens_only_when_authorized
  (env : Env) (options : Options.t) (p : ProxyOAuthProvider.t) (io : Io) :
  let run := customAuth env options p io in
  match outcome run with
  | Ok AUTHORIZED =>
      exists tk, ProxyOAuthProvider._tokens (final run) = Some tk
                 /\ tokens_obtained env options p tk
  | _ => ProxyOAuthProvider._tokens (final run) = ProxyOAuthProvider._tokens p
  end.
Proof.
  cbv zeta. pose proof (customAuth_outcome env options p io) as H. apply post_run in H.
  destruct H as [_ H].
  destruct (outcome (customAuth env options p io)) as [[|]|e]; [exact H | apply H | exact H].
Qed.

(** When [customAuth] answers [REDIRECT] it was given no code, and a CSRF
    state and a code verifier are stored and a callback server is recorded
    for the path of the redirect URI, its promise resolved.  That server
    listens exactly when its [listen] call bound the port: when the call
    ended with an error, [customAuth] answers [REDIRECT] all the same, with
    no listener behind it. *)
Theorem customAuth_redirect_leaves_provider_awaiting_callback
  (env : Env) (options : Options.t) (p : ProxyOAuthProvider.t) (io : Io) :
  outcome (customAuth env options p io) = Ok REDIRECT ->
  Options.authorizationCode options = None
  /\ awaiting_callback env p (final (customAuth env options p io)).
Proof.
  intros Hr. pose proof (customAuth_outcome env options p io) as H. apply post_run in H.
  rewrite Hr in H. destruct H as (_ & _ & H1 & H2). split; assumption.
Qed.

Definition start_options : Options.t :=
  {| Options.serverUrl := "https://mcp.example/sse";
     Options.scope := Some "read write";
     Options.authorizationCode := None |}.

(** The callback port is held by another process. *)
Definition env_port_taken : Env :=
  let e := env_no_callback in
  {| url_parses := url_parses e;
     url_pathname := url_pathname e;
     url_port := url_port e;
     url_parse := url_parse e;
     route_matches := route_matches e;
     discoverOAuthProtectedResourceMetadata := discoverOAuthProtectedResourceMetadata e;
     registerClient := registerClient e;
     exchangeAuthorization := exchangeAuthorization e;
     refreshAuthorization := refreshAuthorization e;
     startAuthorization := startAuthorization e;
     fetch := fetch e;
     randomBytes := randomBytes e;
     listen := fun _ _ => ListenError "EADDRINUSE" "listen EADDRINUSE: address already in use";
     open := open e;
     callbacks := callbacks e;
     mcp_connect := mcp_connect e;
     mcp_close := mcp_close e;
     mcp_request := mcp_request e;
     stdio_connect := stdio_connect e;
     stdio_close := stdio_close e |}.

Lemma customAuth_redirect_leaves_provider_awaiting_callback_witness :
  let p := ProxyOAuthProvider.new Demo.config in
  let bound := customAuth env_no_callback start_options p io0 in
  let taken := customAuth env_port_taken start_options p io0 in
  (awaiting_callback env_no_callback p (final bound)
   /\ option_map srv_listening (ProxyOAuthProvider.oauthServer (final bound)) = Some true)
  /\ (outcome taken = Ok REDIRECT
      /\ awaiting_callback env_port_taken p (final taken)
      /\ option_map srv_listening (ProxyOAuthProvider.oauthServer (final taken)) = Some false).
Proof.
  cbv zeta. split.
  - split; [|vm_compute; reflexivity].
    refine (proj2 (@customAuth_redirect_leaves_provider_awaiting_callback env_no_callback
                     start_options (ProxyOAuthProvider.new Demo.config) io0 _)).
    vm_compute. reflexivity.
  - split; [vm_compute; reflexivity|]. split; [|vm_compute; reflexivity].
    refine (proj2 (@customAuth_redirect_leaves_provider_awaiting_callback env_port_taken
                     start_options (ProxyOAuthProvider.new Demo.config) io0 _)).
    vm_compute. reflexivity.
Defined.

(** Given a code, [customAuth] makes no refresh, no registration and no
    authorization request and opens no browser; it calls the token
    endpoint at most once, with that code, the stored code verifier and
    the configured redirect URI, and answers [AUTHORIZED] when the call
    succeeded.  Without a stored verifier the token endpoint is not
    called. *)
Theorem code_exchange_uses_stored_verifier
  (env : Env) (options : Options.t) (code : QVal) (p : ProxyOAuthProvider.t) (io : Io) :
  Options.authorizationCode options = Some code ->
  let run := customAuth env options p io in
  exists new,
    trace run = (io_trace io ++ new)%list
    /\ existsb is_refresh new = false
    /\ existsb is_authorize new = false
    /\ existsb is_register new = false
    /\ ((filter is_exchange new = [] /\ is_ok (outcome run) = false)
        \/ exists asu ci v,
             ProxyOAuthProvider._codeVerifier p = Some v
             /\ truthy v = true
             /\ filter is_exchange new =
                  [EvExchange asu ci code v (ProxyOAuthProvider.redirectUrl p)
                     (is_ok (outcome run))]
             /\ (is_ok (outcome run) = true -> outcome run = Ok AUTHORIZED)).
Proof.
  intros Hc. cbv zeta.
  pose proof (customAuth_exchange_shape env options p io Hc) as H. apply post_run in H.
  unfold trace. destruct H as (D & FD & H).
  assert (X : forall f, (forall e, discovery_event e = true -> f e = false) ->
                        existsb f D = false)
    by (intros f W; exact (existsb_none _ _ D W FD)).
  assert (X1 : existsb is_refresh D = false)
    by (apply X; intros []; try discriminate; reflexivity).
  assert (X2 : existsb is_authorize D = false)
    by (apply X; intros []; try discriminate; reflexivity).
  assert (X3 : existsb is_register D = false)
    by (apply X; intros []; try discriminate; reflexivity).
  assert (X4 : filter is_exchange D = [])
    by (apply (filter_none discovery_event is_exchange D); [|exact FD];
        intros []; try discriminate; reflexivity).
  destruct H as [[E [e He]] | (asu & ci & v & Hv & Ht & E & Hok)].
  - exists D. split; [exact E|]. repeat (split; [assumption|]).
    left. split; [exact X4 | now rewrite He].
  - eexists. split; [exact E|].
    rewrite !existsb_app, X1, X2, X3, filter_app, X4.
    destruct (is_ok (outcome (customAuth env options p io))); cbn;
      repeat (split; [reflexivity|]); right; exists asu, ci, v; auto.
Qed.

Definition exchange_options : Options.t :=
  {| Options.serverUrl := "https://mcp.example/sse";
     Options.scope := Some "read write";
     Options.authorizationCode := Some (QStr "abc123") |}.

Lemma code_exchange_uses_stored_verifier_witness :
  existsb is_refresh
    (trace (customAuth env_no_callback exchange_options
              (ProxyOAuthProvider.new Demo.config) io0)) = false.
Proof.
  destruct (@code_exchange_uses_stored_verifier env_no_callback exchange_options
              (QStr "abc123") (ProxyOAuthProvider.new Demo.config) io0 eq_refl)
    as (new & E & R & _).
  rewrite E. exact R.
Defined.

(** Every request of a [customAuth] call that goes to an authorization
    server goes to one and the same: the first server listed by the
    protected-resource metadata, or the given server URL when that
    discovery fails, finds nothing or lists none.  The two metadata
    documents are fetched under it, and registration, token and
    authorization requests are made for it. *)
Theorem customAuth_talks_to_one_authorization_server
  (env : Env) (options : Options.t) (p : ProxyOAuthProvider.t) (io : Io) :
  exists new,
    trace (customAuth env options p io) = (io_trace io ++ new)%list
    /\ forallb (addressed_to (chosen_server env (io_tick io) (Options.serverUrl options))) new
       = true.
Proof.
  pose proof (customAuth_addressed env options p io) as H. apply post_run in H.
  exact H.
Qed.

(** * The refresh grant comes first *)










(** * The state and the verifier across attempts *)

(** No random bytes are drawn, and [startAuthorization] is given the
    state [s]. *)
Definition sends_state (s : string) (e : Event) : bool :=
  match e with
  | EvRandomBytes _ => false
  | EvStartAuthorization _ p => opt_eqb (sa_state p) (Some s)
  | _ => true
  end.

Section StateKept.
Variables (env : Env) (s : string).
Hypothesis s_truthy : truthy s = true.

Lemma newAuthorizationFlow_keeps_state options asu md ci p io0 io :
  ProxyOAuthProvider._state p = Some s ->
  emits (sends_state s) io0 io ->
  post (newAuthorizationFlow env options asu md ci) p io (fun _ p' io' =>
    ProxyOAuthProvider._state p' = Some s /\ emits (sends_state s) io0 io').
Proof.
  intros Hs E.
  unfold newAuthorizationFlow, ProxyOAuthProvider.state,
    ProxyOAuthProvider.redirectToAuthorization, ProxyOAuthProvider.startOAuthServer.
  step. step. step. rewrite Hs. cbn [truthy_opt]. rewrite s_truthy. cbn [negb].
  steps; cbn; rewrite ?Hs.
  all: split.
  all: try (destruct p; cbn in *; assumption).
  all: trace_ok; cbn; rewrite ?Hs; apply String.eqb_refl.
Qed.

Lemma customAuth_keeps_state options p io :
  Options.authorizationCode options = None ->
  ProxyOAuthProvider._state p = Some s ->
  post (customAuth env options) p io (fun _ p' io' =>
    ProxyOAuthProvider._state p' = Some s /\ emits (sends_state s) io io').
Proof.
  intros no_code Hs.
  enter_customAuth (sends_state s) p io.
  2:{ split; assumption. }
  rewrite no_code. step. step.
  apply post_bind.
  apply post_mono with
    (Q := fun r s' io' =>
            (exists b, r = Ok b)
            /\ ProxyOAuthProvider._state s' = Some s
            /\ emits (sends_state s) io io').
  { steps; (split; [eauto | split; [subst p1; destruct p; cbn in *; assumption
                                   | trace_ok]]). }
  intros r p2 io3 ([b ->] & S2 & E3).
  destruct b; [step; split; assumption|].
  cbv beta iota.
  apply newAuthorizationFlow_keeps_state; assumption.
Qed.

(** A connection attempt that finds the state [s] stored leaves it
    stored, draws no random bytes and gives [s] to every
    [startAuthorization] call. *)
Lemma connect_keeps_state c io :
  ProxyOAuthProvider._state (McpOAuthClient.oauthProvider c) = Some s ->
  post (McpOAuthClient.connect env) c io (fun _ c' io' =>
    ProxyOAuthProvider._state (McpOAuthClient.oauthProvider c') = Some s
    /\ emits (sends_state s) io io').
Proof.
  intros Hs.
  unfold McpOAuthClient.connect.
  apply post_catch.
  apply post_mono with
    (Q := fun _ c' io' =>
            ProxyOAuthProvider._state (McpOAuthClient.oauthProvider c') = Some s
            /\ emits (sends_state s) io io').
  2:{ intros r c' io' [H E]. destruct r; [split; assumption|]. steps.
      split; [exact H | trace_ok]. }
  steps.
  2,3: split; [exact Hs | trace_ok].
  cbn [McpOAuthClient.oauthProvider McpOAuthClient.set_resourceMetadata].
  eapply post_mono; [apply customAuth_keeps_state; [reflexivity | exact Hs]|].
  intros r p1 io1 (S1 & E1).
  assert (E1' : emits (sends_state s) io io1) by (eapply emits_trans; [|exact E1]; trace_ok).
  clear E1.
  assert (Fin : forall c1 io2,
            ProxyOAuthProvider._state (McpOAuthClient.oauthProvider c1) = Some s ->
            emits (sends_state s) io io2 ->
            post (McpOAuthClient.connectToMcpServer env ;;
                  modify (McpOAuthClient.set_isConnected true) ;;
                  logInfo "Successfully connected to MCP server with OAuth authentication")
                 c1 io2
                 (fun _ c' io' =>
                    ProxyOAuthProvider._state (McpOAuthClient.oauthProvider c') = Some s
                    /\ emits (sends_state s) io io')).
  { intros c1 io2 S2 E2. unfold McpOAuthClient.connectToMcpServer.
    steps; (split; [exact S2 | trace_ok]). }
  destruct r as [[|]|e]; cbv beta iota.
  - step. apply Fin; [exact S1 | exact E1'].
  - steps.
    eapply post_mono; [apply waitForAuthorizationCode_post|].
    intros r c2 io2 (C2 & S2 & E2 & _). cbn in S2.
    assert (S2' : ProxyOAuthProvider._state (McpOAuthClient.oauthProvider c2) = Some s)
      by congruence.
    assert (E : emits (sends_state s) io io2).
    { eapply emits_trans; [|eapply emits_weaken; [|exact E2]]; [trace_ok|].
      intros [] Hx; try discriminate; reflexivity. }
    clear E2.
    destruct r as [[]|e]; [|split; [exact S2' | exact E]].
    steps.
    all: try (split; [exact S2' | trace_ok]).
    eapply post_mono;
      [eapply (customAuth_exchange_safe env (sends_state s));
       try reflexivity; intros; reflexivity|].
    intros r p3 io3 (S3 & _ & E3).
    assert (S3' : ProxyOAuthProvider._state p3 = Some s)
      by (cbn in S3; rewrite S3; exact S2').
    assert (E' : emits (sends_state s) io io3) by (eapply emits_trans; eauto).
    destruct r as [[|]|e]; steps_to_upstream.
    + apply Fin; [exact S3' | exact E'].
    + split; [exact S3' | trace_ok].
    + split; [exact S3' | trace_ok].
  - split; [exact S1 | exact E1'].
Qed.

End StateKept.

(** [v] is a verifier that [startAuthorization] returned for a call
    that is among the events [new]. *)
Definition verifier_of (env : Env) (new : list Event) (v : string) : Prop :=
  exists tick a params u,
    In (EvStartAuthorization a params) new
    /\ startAuthorization env tick a params = Ok (u, v).

Lemma verifier_of_app env pre new post v :
  verifier_of env new v -> verifier_of env (pre ++ new ++ post) v.
Proof.
  intros (tick & a & params & u & Hin & H). exists tick, a, params, u.
  split; [|exact H]. apply in_or_app. right. apply in_or_app. left. exact Hin.
Qed.

(** The events [new] hold no token exchange, and when the call answered
    [REDIRECT] the verifier it left stored is one that a
    [startAuthorization] call among them returned. *)
Definition redirect_stores_verifier (env : Env) (r : Result AuthResult)
  (p' : ProxyOAuthProvider.t) (new : list Event) : Prop :=
  forallb no_exchange new = true
  /\ (r = Ok REDIRECT ->
      exists v, ProxyOAuthProvider._codeVerifier p' = Some v /\ verifier_of env new v).

Lemma newAuthorizationFlow_verifier env options asu md ci p io :
  post (newAuthorizationFlow env options asu md ci) p io (fun r p' io' =>
    exists new,
      io_trace io' = (io_trace io ++ new)%list
      /\ redirect_stores_verifier env r p' new).
Proof.
  unfold newAuthorizationFlow, ProxyOAuthProvider.state,
    ProxyOAuthProvider.redirectToAuthorization, ProxyOAuthProvider.startOAuthServer.
  steps.
  all: subst.
  all: cbn [tell answered io_trace io_tick] in *.
  all: eexists; (split; [rewrite <- ?app_assoc; reflexivity|]).
  all: split; [reflexivity|]; intros Hr; try discriminate.
  all: match goal with
       | H : startAuthorization _ ?t ?a ?prm = Ok (?u, ?v) |- _ =>
           exists v; split; [destruct p; reflexivity|];
           exists t, a, prm, u; split; [cbn; auto 20 | exact H]
       end.
Qed.

Lemma customAuth_start_verifier env options p io :
  Options.authorizationCode options = None ->
  post (customAuth env options) p io (fun r p' io' =>
    exists new,
      io_trace io' = (io_trace io ++ new)%list
      /\ redirect_stores_verifier env r p' new).
Proof.
  intros no_code.
  enter_customAuth no_exchange p io.
  2:{ destruct H as [D [ED FD]]. exists D. split; [exact ED|].
      split; [exact FD | discriminate]. }
  rewrite no_code. step. step.
  apply post_bind.
  apply post_mono with
    (Q := fun r s' io' => (exists b, r = Ok b) /\ emits no_exchange io io').
  { steps; (split; [eauto | trace_ok]). }
  intros r p2 io3 ([b ->] & [N [EN FN]]).
  destruct b; [step; exists N; split; [exact EN|]; split; [exact FN | discriminate]|].
  cbv beta iota.
  eapply post_mono; [apply newAuthorizationFlow_verifier|].
  intros r p3 io4 (new & E & Fnew & V).
  exists (N ++ new)%list. split; [rewrite E, EN, <- app_assoc; reflexivity|].
  split; [rewrite forallb_app, FN, Fnew; reflexivity|].
  intros Hr. destruct (V Hr) as (v & Hv & Hof). exists v. split; [exact Hv|].
  rewrite <- (app_nil_r new). now apply verifier_of_app.
Qed.

(** Serving requests leaves the stored verifier alone. *)
Lemma deliver_keeps_verifier env req p io :
  ProxyOAuthProvider._codeVerifier (final (ProxyOAuthProvider.deliver env req p io))
  = ProxyOAuthProvider._codeVerifier p.
Proof.
  unfold final.
  destruct (ProxyOAuthProvider.oauthServer p) as [s|] eqn:Hs.
  - destruct (srv_listening s || known req p) eqn:Hl.
    + destruct (route_matches env (srv_path s) (req_path req)) eqn:Hr.
      * destruct (deliver_served env req p io Hs Hl Hr) as [html E].
        rewrite E. unfold accepted_on. destruct (known req p); reflexivity.
      * unfold ProxyOAuthProvider.deliver. run. unfold known in Hl. rewrite Hs, Hl.
        destruct (existsb _ _); cbn; rewrite Hr; reflexivity.
    + apply orb_false_elim in Hl. destruct Hl as [Hl Hk].
      now rewrite (deliver_refused env req p io Hs Hl Hk).
  - unfold ProxyOAuthProvider.deliver. run. now rewrite Hs.
Qed.

Lemma deliver_all_keep_verifier env reqs : forall p io,
  post (forEach reqs (ProxyOAuthProvider.deliver env)) p io (fun r p' _ =>
    r = Ok tt
    /\ ProxyOAuthProvider._codeVerifier p' = ProxyOAuthProvider._codeVerifier p).
Proof.
  induction reqs as [|req reqs IH]; intros p io; [split; reflexivity|].
  cbn [forEach]. apply post_bind.
  pose proof (deliver_keeps_verifier env req p io) as H.
  pose proof (deliver_post env req p io) as D.
  unfold post, final in *.
  destruct (ProxyOAuthProvider.deliver env req p io) as [[r p1] io1]. cbn in H.
  destruct D as (-> & _).
  specialize (IH p1 io1).
  destruct (forEach reqs (ProxyOAuthProvider.deliver env) p1 io1) as [[r2 p2] io2].
  destruct IH as [-> IH]. split; [reflexivity | congruence].
Qed.

Lemma waitForAuthorizationCode_keeps_verifier env c io :
  post (McpOAuthClient.waitForAuthorizationCode env) c io (fun _ c' _ =>
    ProxyOAuthProvider._codeVerifier (McpOAuthClient.oauthProvider c')
    = ProxyOAuthProvider._codeVerifier (McpOAuthClient.oauthProvider c)).
Proof.
  unfold McpOAuthClient.waitForAuthorizationCode.
  step. step. step. step.
  eapply post_mono; [apply deliver_all_keep_verifier|].
  intros r p1 io1 (-> & K).
  unfold ProxyOAuthProvider.oauthServer_timeout.
  steps; cbn; rewrite <- K; destruct p1; cbn in *; subst; reflexivity.
Qed.

(** The events hold at most one token exchange, and it carries a verifier
    that a [startAuthorization] call among the events before it
    returned. *)
Definition exchanges_own_verifier (env : Env) (new : list Event) : Prop :=
  forallb no_exchange new = true
  \/ exists X Y asu ci code v redirect ok,
       new = (X ++ EvExchange asu ci code v redirect ok :: Y)%list
       /\ forallb no_exchange X = true
       /\ forallb no_exchange Y = true
       /\ verifier_of env X v.

Definition own (env : Env) (io io' : Io) : Prop :=
  exists new, io_trace io' = (io_trace io ++ new)%list /\ exchanges_own_verifier env new.

(** No exchange so far, and [v] was returned by [startAuthorization]. *)
Definition ready (env : Env) (v : string) (io io' : Io) : Prop :=
  exists X,
    io_trace io' = (io_trace io ++ X)%list
    /\ forallb no_exchange X = true
    /\ verifier_of env X v.

Lemma own_quiet env io io' : emits no_exchange io io' -> own env io io'.
Proof. intros [new [E F]]. exists new. split; [exact E | left; exact F]. Qed.

Lemma own_then_quiet env io io1 io2 :
  own env io io1 -> emits no_exchange io1 io2 -> own env io io2.
Proof.
  intros (new & E & H) [R [ER FR]]. exists (new ++ R)%list.
  split; [rewrite ER, E, <- app_assoc; reflexivity|].
  destruct H as [F | (X & Y & asu & ci & code & v & rd & ok & -> & FX & FY & V)].
  - left. rewrite forallb_app, F, FR. reflexivity.
  - right. exists X, (Y ++ R)%list, asu, ci, code, v, rd, ok.
    split; [rewrite <- app_assoc; reflexivity|].
    split; [exact FX|]. split; [rewrite forallb_app, FY, FR; reflexivity | exact V].
Qed.

Lemma ready_then_quiet env v io io1 io2 :
  ready env v io io1 -> emits no_exchange io1 io2 -> ready env v io io2.
Proof.
  intros (X & E & FX & V) [R [ER FR]]. exists (X ++ R)%list.
  split; [rewrite ER, E, <- app_assoc; reflexivity|].
  split; [rewrite forallb_app, FX, FR; reflexivity|].
  change (X ++ R)%list with ([] ++ X ++ R)%list. now apply verifier_of_app.
Qed.

Lemma quiet_then_ready env v io io1 io2 :
  emits no_exchange io io1 -> ready env v io1 io2 -> ready env v io io2.
Proof.
  intros [P [EP FP]] (X & E & FX & V). exists (P ++ X)%list.
  split; [rewrite E, EP, <- app_assoc; reflexivity|].
  split; [rewrite forallb_app, FP, FX; reflexivity|].
  rewrite <- (app_nil_r X). now apply verifier_of_app.
Qed.

Lemma ready_exchange env v io io1 io2 D asu ci code rd ok Y :
  ready env v io io1 ->
  io_trace io2 = (io_trace io1 ++ D ++ EvExchange asu ci code v rd ok :: Y)%list ->
  forallb no_exchange D = true ->
  forallb no_exchange Y = true ->
  own env io io2.
Proof.
  intros (X & E & FX & V) E2 FD FY.
  exists ((X ++ D) ++ EvExchange asu ci code v rd ok :: Y)%list.
  split; [rewrite E2, E, <- !app_assoc; reflexivity|].
  right. exists (X ++ D)%list, Y, asu, ci, code, v, rd, ok.
  split; [reflexivity|]. split; [rewrite forallb_app, FX, FD; reflexivity|].
  split; [exact FY|].
  change (X ++ D)%list with ([] ++ X ++ D)%list. now apply verifier_of_app.
Qed.

Lemma listener_no_exchange e : listener_event e = true -> no_exchange e = true.
Proof. destruct e; try discriminate; reflexivity. Qed.

Lemma discovery_no_exchange e : discovery_event e = true -> no_exchange e = true.
Proof. destruct e; try discriminate; reflexivity. Qed.

(** Whatever a connection attempt exchanges, it exchanges with the
    verifier of its own [startAuthorization] call. *)
Lemma connect_exchange_verifier env c io :
  post (McpOAuthClient.connect env) c io (fun _ _ io' => own env io io').
Proof.
  unfold McpOAuthClient.connect.
  apply post_catch.
  apply post_mono with (Q := fun _ _ io' => own env io io').
  2:{ intros r c' io' H. destruct r; [exact H|]. steps.
      eapply own_then_quiet; [exact H | trace_ok]. }
  steps.
  2,3: apply own_quiet; trace_ok.
  eapply post_mono; [apply customAuth_start_verifier; reflexivity|].
  intros r p1 io1 (N1 & E1 & F1 & V1).
  lazymatch type of E1 with
  | io_trace io1 = (io_trace ?i ++ N1)%list =>
      assert (Epre : emits no_exchange io i) by trace_ok;
      assert (EN : emits no_exchange i io1) by (exists N1; split; assumption)
  end.
  assert (E1' : emits no_exchange io io1) by (eapply emits_trans; eassumption).
  destruct r as [[|]|e]; cbv beta iota; [| |apply own_quiet; exact E1'].
  - (* AUTHORIZED by refresh *)
    apply post_mono with (Q := fun _ _ io' => emits no_exchange io io').
    { connect_rest env no_exchange listener_no_exchange. }
    intros r c2 io2 E2. apply own_quiet. exact E2.
  - (* REDIRECT *)
    destruct (V1 eq_refl) as (v0 & Hv0 & Hof).
    assert (R1 : ready env v0 io io1).
    { eapply quiet_then_ready; [exact Epre|]. exists N1. repeat split; assumption. }
    steps.
    eapply post_mono;
      [apply post_conj;
       [apply waitForAuthorizationCode_post | apply waitForAuthorizationCode_keeps_verifier]|].
    intros r c2 io2 ((C2 & _ & E2 & _) & K2). cbn in K2.
    apply (emits_weaken _ listener_no_exchange) in E2.
    assert (R2 : ready env v0 io io2).
    { eapply ready_then_quiet; [|exact E2]. eapply ready_then_quiet; [exact R1|]. trace_ok. }
    assert (Q2 : emits no_exchange io io2).
    { destruct R2 as (X & EX & FX & _). exists X. split; assumption. }
    destruct r as [[]|e]; [|apply own_quiet; exact Q2].
    steps.
    all: try (apply own_quiet; trace_ok).
    eapply post_mono; [eapply customAuth_exchange_shape; reflexivity|].
    intros r p3 io3 (D & FD & S).
    pose proof (forallb_weaken discovery_event no_exchange D discovery_no_exchange FD) as ND.
    cbn [McpOAuthClient.oauthProvider McpOAuthClient.set_oauthProvider] in S.
    destruct S as [[E3 [e ->]] | (asu & ci & v & Hv & _ & E3 & Hok)].
    + apply own_quiet. eapply emits_trans; [exact Q2|]. exists D. split; assumption.
    + assert (v = v0) by congruence. subst v.
      assert (O3 : own env io io3).
      { eapply ready_exchange; [exact R2 | exact E3 | exact ND |].
        destruct (is_ok r); reflexivity. }
      destruct r as [res|e]; [|exact O3].
      injection (Hok eq_refl) as ->.
      steps_to_upstream.
      apply post_mono with (Q := fun _ _ io' => emits no_exchange io3 io').
      { connect_rest env no_exchange listener_no_exchange. }
      intros r4 c4 io4 E4. eapply own_then_quiet; eassumption.
Qed.

(** C5, as amended.  The CSRF state is generated once per provider and
    reused by every later attempt: a [state()] call that finds none stored
    draws 32 random bytes and stores their hex text; a call that finds one
    stored returns it and draws nothing; and a connection attempt on a
    client whose provider stores the state [s] leaves [s] stored, draws no
    random bytes and gives [s] to every [startAuthorization] call it makes,
    whatever the environment answers: a retry after a failed attempt sends
    the state of the first one.  The code verifier is not carried over from
    an earlier attempt: a [customAuth] call that answers REDIRECT has
    stored the verifier that its own [startAuthorization] call returned,
    [codeVerifier] returns the verifier saved last, and a connection
    attempt makes at most one token exchange, with a verifier that a
    [startAuthorization] call of this same attempt returned before it. *)
Theorem csrf_state_generated_once_verifier_replaced
  (env : Env) (p : ProxyOAuthProvider.t) (io : Io) :
  randomBytes env (io_tick io) 32 <> [] ->
  exists s p1 io1,
    ProxyOAuthProvider.state env p io = (Ok (Some s), p1, io1)
    /\ truthy s = true
    /\ ProxyOAuthProvider._state p1 = Some s
    /\ (truthy_opt (ProxyOAuthProvider._state p) = true ->
        ProxyOAuthProvider._state p = Some s /\ p1 = p /\ io1 = io)
    /\ (truthy_opt (ProxyOAuthProvider._state p) = false ->
        s = hex (randomBytes env (io_tick io) 32))
    /\ (forall env' io2, ProxyOAuthProvider.state env' p1 io2 = (Ok (Some s), p1, io2))
    /\ (forall env' c io2,
          ProxyOAuthProvider._state (McpOAuthClient.oauthProvider c) = Some s ->
          let attempt := McpOAuthClient.connect env' c io2 in
          ProxyOAuthProvider._state (McpOAuthClient.oauthProvider (final attempt)) = Some s
          /\ emits (sends_state s) io2 (snd attempt))
    /\ (forall env' c io2,
          exists new,
            trace (McpOAuthClient.connect env' c io2) = (io_trace io2 ++ new)%list
            /\ exchanges_own_verifier env' new)
    /\ (forall env' options q io2,
          Options.authorizationCode options = None ->
          let call := customAuth env' options q io2 in
          exists new,
            trace call = (io_trace io2 ++ new)%list
            /\ redirect_stores_verifier env' (outcome call) (final call) new)
    /\ (forall v q io2,
          truthy v = true ->
          exists q',
            (ProxyOAuthProvider.saveCodeVerifier v ;; ProxyOAuthProvider.codeVerifier)%monad
              q io2 = (Ok v, q', io2)
            /\ ProxyOAuthProvider._codeVerifier q' = Some v).
Proof.
  intros Hrnd.
  assert (V : forall v q io2, truthy v = true ->
            exists q',
              (ProxyOAuthProvider.saveCodeVerifier v ;; ProxyOAuthProvider.codeVerifier)%monad
                q io2 = (Ok v, q', io2)
              /\ ProxyOAuthProvider._codeVerifier q' = Some v).
  { intros v q io2 Hv. unfold ProxyOAuthProvider.saveCodeVerifier,
      ProxyOAuthProvider.codeVerifier. run. cbn. rewrite Hv. eexists; split; reflexivity. }
  assert (K : forall s, truthy s = true -> forall env' c io2,
            ProxyOAuthProvider._state (McpOAuthClient.oauthProvider c) = Some s ->
            let attempt := McpOAuthClient.connect env' c io2 in
            ProxyOAuthProvider._state (McpOAuthClient.oauthProvider (final attempt)) = Some s
            /\ emits (sends_state s) io2 (snd attempt)).
  { intros s Hs env' c io2 Hc.
    exact (post_run _ _ _ _ (@connect_keeps_state env' s Hs c io2 Hc)). }
  assert (X : forall env' c io2,
            exists new,
              trace (McpOAuthClient.connect env' c io2) = (io_trace io2 ++ new)%list
              /\ exchanges_own_verifier env' new).
  { intros env' c io2. exact (post_run _ _ _ _ (@connect_exchange_verifier env' c io2)). }
  assert (R : forall env' options q io2,
            Options.authorizationCode options = None ->
            let call := customAuth env' options q io2 in
            exists new,
              trace call = (io_trace io2 ++ new)%list
              /\ redirect_stores_verifier env' (outcome call) (final call) new).
  { intros env' options q io2 Hno.
    exact (post_run _ _ _ _ (@customAuth_start_verifier env' options q io2 Hno)). }
  unfold ProxyOAuthProvider.state. run.
  destruct p as [cfg tk ci cv st srv code conns]; cbn.
  destruct (truthy_opt st) eqn:Hst; cbn.
  - destruct st as [s|]; [|discriminate]. cbn in Hst.
    exists s. do 2 eexists. repeat split; auto; try congruence.
    + intros env' io2; cbn; now rewrite Hst.
    + apply (K s Hst env' c io2); assumption.
    + apply (K s Hst env' c io2); assumption.
  - pose proof (hex_truthy Hrnd) as Hh.
    do 3 eexists. repeat split; auto; try congruence.
    + intros env' io2; cbn; now rewrite Hh.
    + apply (K _ Hh env' c io2); assumption.
    + apply (K _ Hh env' c io2); assumption.
Qed.

(** On the client that the timed-out first attempt leaves behind, the
    retry keeps and sends the state of the first attempt and exchanges
    nothing. *)
Lemma csrf_state_generated_once_verifier_replaced_witness :
  ProxyOAuthProvider._state (McpOAuthClient.oauthProvider (final first_attempt))
  = Some (Demo.state_at 3)
  /\ ProxyOAuthProvider._state (McpOAuthClient.oauthProvider (final retry))
     = Some (Demo.state_at 3)
  /\ emits (sends_state (Demo.state_at 3)) (snd first_attempt) (snd retry)
  /\ exists new,
       trace retry = (trace first_attempt ++ new)%list
       /\ exchanges_own_verifier env_no_callback new.
Proof.
  destruct (csrf_state_generated_once_verifier_replaced env_no_callback
              (McpOAuthClient.oauthProvider (final first_attempt)) (snd first_attempt))
    as (s & p1 & io1 & _ & _ & _ & Hkept & _ & _ & Hretry & Hown & _).
  - vm_compute. discriminate.
  - destruct (Hkept eq_refl) as (Hs & _ & _).
    assert (Es : s = Demo.state_at 3).
    { vm_compute in Hs. injection Hs as <-. vm_compute. reflexivity. }
    subst s.
    destruct (Hretry env_no_callback (final first_attempt) (snd first_attempt) Hs)
      as [K E].
    split; [exact Hs|]. split; [exact K|]. split; [exact E|].
    exact (Hown env_no_callback (final first_attempt) (snd first_attempt)).
Defined.

(** * The authorization code across attempts *)

Definition is_failed_exchange (e : Event) : bool :=
  match e with EvExchange _ _ _ _ _ false => true | _ => false end.

Definition no_failed_exchange (e : Event) : bool := negb (is_failed_exchange e).

(** Either no exchange was refused, and a successful attempt that began
    without a code ends without one; or the attempt failed with the code
    still stored. *)
Lemma connect_code env c io :
  post (McpOAuthClient.connect env) c io (fun r c' io' =>
    (emits no_failed_exchange io io'
     /\ (is_ok r = true -> stored_code c = None -> stored_code c' = None))
    \/ (is_ok r = false /\ qval_truthy (stored_code c') = true)).
Proof.
  unfold McpOAuthClient.connect.
  apply post_catch.
  apply post_mono with
    (Q := fun r c' io' =>
      (emits no_failed_exchange io io'
       /\ (is_ok r = true -> stored_code c = None -> stored_code c' = None))
      \/ (is_ok r = false /\ qval_truthy (stored_code c') = true)).
  2:{ intros r c' io' H. destruct r; [exact H|]. steps.
      destruct H as [[E _]|H]; [left; split; [trace_ok | discriminate] | right; exact H]. }
  steps.
  2,3: left; split; [trace_ok | discriminate].
  eapply post_mono;
    [apply (customAuth_start_safe env no_failed_exchange); try reflexivity; intros; reflexivity|].
  intros r p1 io1 (F1 & E1). cbn in F1.
  assert (E1' : emits no_failed_exchange io io1) by (eapply emits_trans; [|exact E1]; trace_ok).
  clear E1.
  assert (Fin : forall c1 io2,
            emits no_failed_exchange io io2 ->
            (stored_code c = None -> stored_code c1 = None) ->
            post (McpOAuthClient.connectToMcpServer env ;;
                  modify (McpOAuthClient.set_isConnected true) ;;
                  logInfo "Successfully connected to MCP server with OAuth authentication")
                 c1 io2
                 (fun r c' io' =>
      (emits no_failed_exchange io io'
       /\ (is_ok r = true -> stored_code c = None -> stored_code c' = None))
      \/ (is_ok r = false /\ qval_truthy (stored_code c') = true))).
  { intros c1 io2 E2 K. unfold McpOAuthClient.connectToMcpServer.
    steps; left; (split; [trace_ok | try discriminate]).
    intros _ Hn. exact (K Hn). }
  destruct r as [[|]|e]; cbv beta iota.
  - step. apply Fin; [exact E1'|]. unfold stored_code. cbn. congruence.
  - steps.
    eapply post_mono; [apply waitForAuthorizationCode_post|].
    intros r c2 io2 (C2 & _ & E2 & _).
    assert (E : emits no_failed_exchange io io2).
    { eapply emits_trans; [|eapply emits_weaken; [|exact E2]]; [trace_ok|].
      intros [] Hx; try discriminate; reflexivity. }
    clear E2.
    destruct r as [[]|e]; [|left; split; [exact E | discriminate]].
    steps.
    all: try (left; split; [trace_ok | discriminate]).
    eapply post_mono;
      [apply post_conj;
       [eapply (customAuth_exchange_safe env any_event); try reflexivity; intros; reflexivity
       |eapply customAuth_exchange_shape; reflexivity]|].
    intros r p3 io3 ((_ & C3 & _) & D & FD & S). cbn in C3.
    assert (ND : forallb no_failed_exchange D = true)
      by (apply (forallb_weaken discovery_event no_failed_exchange D); [|exact FD];
          intros [] Hx; try discriminate; reflexivity).
    destruct S as [[E3 [e ->]] | (asu & ci & v & _ & _ & E3 & Hok)].
    + left. split; [|discriminate].
      eapply emits_trans; [exact E|]. exists D. split; assumption.
    + destruct r as [res|e].
      * injection (Hok eq_refl) as ->. cbn [is_ok] in E3.
        assert (E' : emits no_failed_exchange io io3).
        { eapply emits_trans; [exact E|]. eexists. split; [exact E3|].
          rewrite forallb_app, ND. reflexivity. }
        steps_to_upstream.
        apply Fin; [exact E'|]. intros _. reflexivity.
      * right. split; [reflexivity|]. unfold stored_code. cbn. rewrite C3.
        cbn in Heqo0. rewrite Heqo0. apply negb_false_iff. assumption.
  - left. split; [exact E1' | discriminate].
Qed.

(** The authorization code that [connect()] leaves in the provider: none
    after an attempt that succeeded (when none was stored before it), for
    the code is cleared once it has been exchanged; but the code stays
    stored when its exchange is refused, since [clearAuthorizationCode] is
    then skipped. *)
Theorem authorization_code_after_connect
  (env : Env) (c : McpOAuthClient.t) (io : Io) :
  let run := McpOAuthClient.connect env c io in
  (is_ok (outcome run) = true -> stored_code c = None -> stored_code (final run) = None)
  /\ (forall new,
        trace run = (io_trace io ++ new)%list ->
        existsb is_failed_exchange new = true ->
        is_ok (outcome run) = false /\ qval_truthy (stored_code (final run)) = true).
Proof.
  cbv zeta. pose proof (connect_code env c io) as H. apply post_run in H.
  unfold trace. split.
  - intros Hok Hn. destruct H as [[_ H]|[H _]]; [exact (H Hok Hn) | congruence].
  - intros new E X. destruct H as [[[new' [E' F]] _]|H]; [|exact H].
    exfalso. rewrite E in E'. apply app_inv_head in E'. subst new'.
    rewrite (forallb_negb_existsb is_failed_exchange new F) in X. discriminate.
Qed.

(** A code that is already stored when the wait begins, left over from
    an earlier attempt, ends the wait at once: with no callback at all, or
    with callbacks that are all turned down, [waitForAuthorizationCode]
    returns and the stored code is the old one. *)
Theorem leftover_code_ends_the_wait
  (env : Env) (c : McpOAuthClient.t) (io : Io) :
  qval_truthy (stored_code c) = true ->
  (forall req, In req (callbacks env (io_tick io)) ->
               accepts (ProxyOAuthProvider._state (McpOAuthClient.oauthProvider c)) req = false) ->
  let run := McpOAuthClient.waitForAuthorizationCode env c io in
  outcome run = Ok tt /\ stored_code (final run) = stored_code c.
Proof.
  intros Hcode Hrej. cbv zeta.
  assert (H : post (McpOAuthClient.waitForAuthorizationCode env) c io (fun r c' _ =>
                r = Ok tt /\ stored_code c' = stored_code c)).
  { unfold McpOAuthClient.waitForAuthorizationCode.
    step. step. step. step.
    eapply post_mono; [apply deliver_all_post|].
    intros r p1 io1 (-> & _ & _ & C1). cbn in C1.
    specialize (C1 Hrej).
    step. step. step.
    unfold stored_code in *.
    cbn [McpOAuthClient.oauthProvider McpOAuthClient.set_oauthProvider].
    rewrite C1, Hcode. step.
    split; [reflexivity|]. cbn. exact C1. }
  apply post_run in H. exact H.
Qed.

Definition client_with_leftover_code : McpOAuthClient.t :=
  McpOAuthClient.set_oauthProvider
    (ProxyOAuthProvider.set_authorizationCode (Some (QStr "abc123")) listening_provider)
    (McpOAuthClient.new Demo.config).

Lemma leftover_code_ends_the_wait_witness :
  outcome (McpOAuthClient.waitForAuthorizationCode env_no_callback
             client_with_leftover_code io0) = Ok tt.
Proof.
  refine (proj1 (@leftover_code_ends_the_wait env_no_callback client_with_leftover_code io0
                   eq_refl _)).
  intros req [].
Defined.

(** [connect()] needs the protected-resource metadata of the MCP server:
    when its discovery fails or finds nothing, the attempt ends there,
    with the fault logged and no request to any authorization server
    (though [customAuth] by itself would fall back on the server URL). *)
Theorem connect_needs_resource_metadata
  (env : Env) (c : McpOAuthClient.t) (io : Io) :
  let url := Config.url (Config.mcpServer (McpOAuthClient.config c)) in
  (forall m, discoverOAuthProtectedResourceMetadata env (io_tick io) url <> Ok (Some m)) ->
  let run := McpOAuthClient.connect env c io in
  outcome run =
    Throw match discoverOAuthProtectedResourceMetadata env (io_tick io) url with
          | Throw e => e
          | _ => "No OAuth protected resource metadata found"
          end
  /\ trace run =
       (io_trace io
        ++ [EvLog info "Discovering OAuth protected resource metadata...";
            EvDiscoverPRM url;
            EvLog error "Failed to connect to MCP server:"])%list
  /\ McpOAuthClient.oauthProvider (final run) = McpOAuthClient.oauthProvider c
  /\ McpOAuthClient.connected (final run) = McpOAuthClient.connected c.
Proof.
  cbv zeta. intros H. unfold McpOAuthClient.connect, outcome, final, trace. run.
  cbn [io_tick tell].
  destruct (discoverOAuthProtectedResourceMetadata env (io_tick io) _) as [[m|]|e] eqn:E.
  - destruct (H m eq_refl).
  - cbn. rewrite <- ?app_assoc. destruct c. repeat split.
  - cbn. rewrite <- ?app_assoc. destruct c. repeat split.
Qed.

(** The resource server publishes no protected-resource metadata. *)
Definition env_without_resource_metadata : Env :=
  let e := env_no_callback in
  {| url_parses := url_parses e;
     url_pathname := url_pathname e;
     url_port := url_port e;
     url_parse := url_parse e;
     route_matches := route_matches e;
     discoverOAuthProtectedResourceMetadata := fun _ _ => Throw "HTTP 404";
     registerClient := registerClient e;
     exchangeAuthorization := exchangeAuthorization e;
     refreshAuthorization := refreshAuthorization e;
     startAuthorization := startAuthorization e;
     fetch := fetch e;
     randomBytes := randomBytes e;
     listen := listen e;
     open := open e;
     callbacks := callbacks e;
     mcp_connect := mcp_connect e;
     mcp_close := mcp_close e;
     mcp_request := mcp_request e;
     stdio_connect := stdio_connect e;
     stdio_close := stdio_close e |}.

Lemma connect_needs_resource_metadata_witness :
  outcome (McpOAuthClient.connect env_without_resource_metadata
             (McpOAuthClient.new Demo.config) io0) = Throw "HTTP 404".
Proof.
  refine (proj1 (@connect_needs_resource_metadata env_without_resource_metadata
                   (McpOAuthClient.new Demo.config) io0 _)).
  intros m. discriminate.
Defined.

(** * The wait that ends at the deadline *)

(** [waitForAuthorizationCode] returns exactly when, the requests having
    been served, a code is stored; otherwise it throws the timeout fault,
    and the callback server, if there is one, is closed. *)
Theorem wait_returns_with_a_code_or_times_out
  (env : Env) (c : McpOAuthClient.t) (io : Io) :
  let run := McpOAuthClient.waitForAuthorizationCode env c io in
  (outcome run = Ok tt /\ qval_truthy (stored_code (final run)) = true)
  \/ (outcome run = Throw timeout
      /\ qval_truthy (stored_code (final run)) = false
      /\ match ProxyOAuthProvider.oauthServer (McpOAuthClient.oauthProvider (final run)) with
         | Some s => srv_listening s = false
         | None => True
         end).
Proof.
  cbv zeta.
  assert (H : post (McpOAuthClient.waitForAuthorizationCode env) c io (fun r c' _ =>
                (r = Ok tt /\ qval_truthy (stored_code c') = true)
                \/ (r = Throw timeout
                    /\ qval_truthy (stored_code c') = false
                    /\ match ProxyOAuthProvider.oauthServer (McpOAuthClient.oauthProvider c') with
                       | Some s => srv_listening s = false
                       | None => True
                       end))).
  { unfold McpOAuthClient.waitForAuthorizationCode.
    step. step. step. step.
    eapply post_mono; [apply deliver_all_post|].
    intros r p1 io1 (-> & _ & _ & _).
    step. step. step. unfold stored_code.
    cbn [McpOAuthClient.oauthProvider McpOAuthClient.set_oauthProvider].
    destruct (qval_truthy (ProxyOAuthProvider.authorizationCode p1)) eqn:Hc.
    - step. left. split; [reflexivity | exact Hc].
    - unfold ProxyOAuthProvider.oauthServer_timeout.
      steps; right; (split; [reflexivity|]); cbn;
        destruct p1 as [? ? ? ? ? srv ?]; cbn in *; subst; cbn;
        (split; [exact Hc|]); auto. }
  apply post_run in H. exact H.
Qed.

(** * A leftover code in the next attempt *)

(** Equality of query values. *)
Definition list_eqb (a b : list string) : bool :=
  (List.length a =? List.length b)%nat
  && forallb (fun xy => fst xy =? snd xy) (combine a b).

Definition qval_eqb (a b : QVal) : bool :=
  match a, b with
  | QStr x, QStr y => x =? y
  | QArr x, QArr y => list_eqb x y
  | _, _ => false
  end.

Lemma list_eqb_refl a : list_eqb a a = true.
Proof.
  unfold list_eqb. rewrite Nat.eqb_refl. cbn.
  induction a as [|x a IH]; [reflexivity|]. cbn. now rewrite String.eqb_refl.
Qed.

Lemma qval_eqb_refl a : qval_eqb a a = true.
Proof. destruct a; cbn; [apply String.eqb_refl | apply list_eqb_refl]. Qed.

Lemma list_eqb_eq a : forall b, list_eqb a b = true -> a = b.
Proof.
  unfold list_eqb. induction a as [|x a IH]; intros [|y b]; cbn; try discriminate;
    [reflexivity|].
  intros H. apply andb_prop in H. destruct H as [Hl H].
  apply andb_prop in H. destruct H as [Hx H].
  apply String.eqb_eq in Hx. subst y. f_equal. apply IH. now rewrite Hl, H.
Qed.

Lemma qval_eqb_eq a b : qval_eqb a b = true -> a = b.
Proof.
  destruct a, b; cbn; try discriminate.
  - intros H. apply String.eqb_eq in H. now subst.
  - intros H. apply list_eqb_eq in H. now subst.
Qed.

(** The event, when it is a code exchange, is for [code]. *)
Definition exchanges_only (code : QVal) (e : Event) : bool :=
  match e with
  | EvExchange _ _ c _ _ _ => qval_eqb c code
  | _ => true
  end.

(** With a leftover code and no callback, whatever [connect] exchanges
    is that code. *)
Lemma connect_exchanges_leftover env c io code :
  stored_code c = Some code ->
  qval_truthy (Some code) = true ->
  (forall tick, callbacks env tick = []) ->
  post (McpOAuthClient.connect env) c io (fun _ _ io' =>
    emits (exchanges_only code) io io').
Proof.
  intros Hcode Htruthy Hnone.
  unfold McpOAuthClient.connect.
  apply post_catch.
  apply post_mono with (Q := fun _ _ io' => emits (exchanges_only code) io io').
  2:{ intros r c' io' H. destruct r; [exact H|]. steps. trace_ok. }
  steps.
  2,3: trace_ok.
  eapply post_mono;
    [apply (customAuth_start_safe env quiet); try reflexivity; intros; reflexivity|].
  intros r p1 io1 (F1 & E1). cbn in F1.
  assert (E1' : emits (exchanges_only code) io io1).
  { eapply emits_trans; [|eapply emits_weaken; [|exact E1]]; [trace_ok|].
    intros [] Hx; try discriminate; reflexivity. }
  clear E1.
  destruct r as [[|]|e]; cbv beta iota; [| |exact E1'].
  - connect_rest env (exchanges_only code)
      (fun e => match e return listener_event e = true -> exchanges_only code e = true with
                | EvSend _ | EvNotFound _ | EvServerClose | EvAwaitCallback =>
                    fun _ => eq_refl
                | _ => fun H => match Bool.diff_false_true H with end
                end).
  - step. step. step.
    unfold McpOAuthClient.waitForAuthorizationCode.
    step. step. step. rewrite Hnone. cbn [forEach].
    step. step. step. step. step. step.
    unfold stored_code in Hcode.
    cbn [McpOAuthClient.oauthProvider McpOAuthClient.set_oauthProvider].
    rewrite F1, Hcode, Htruthy. step. step. step. step.
    cbn [McpOAuthClient.oauthProvider McpOAuthClient.set_oauthProvider].
    rewrite F1, Hcode, Htruthy. cbn [negb]. cbv beta iota.
    step. step.
    match goal with
    | |- post _ _ ?iow _ =>
        assert (Ew : emits (exchanges_only code) io iow) by trace_ok
    end.
    eapply post_mono; [eapply customAuth_exchange_shape; reflexivity|].
    intros r p3 io3 (D & FD & S).
    assert (ND : forallb (exchanges_only code) D = true)
      by (apply (forallb_weaken discovery_event (exchanges_only code) D); [|exact FD];
          intros [] Hx; try discriminate; reflexivity).
    assert (E3 : emits (exchanges_only code) io io3).
    { eapply emits_trans; [exact Ew|].
      destruct S as [[E3 _] | (asu & ci & v & _ & _ & E3 & _)].
      - exists D. split; assumption.
      - eexists. split; [exact E3|]. rewrite forallb_app, ND. cbn.
        rewrite qval_eqb_refl. destruct (is_ok r); reflexivity. }
    destruct r as [[|]|e]; [| |exact E3].
    + connect_rest env (exchanges_only code)
        (fun e => match e return listener_event e = true -> exchanges_only code e = true with
                  | EvSend _ | EvNotFound _ | EvServerClose | EvAwaitCallback =>
                      fun _ => eq_refl
                  | _ => fun H => match Bool.diff_false_true H with end
                  end).
    + connect_rest env (exchanges_only code)
        (fun e => match e return listener_event e = true -> exchanges_only code e = true with
                  | EvSend _ | EvNotFound _ | EvServerClose | EvAwaitCallback =>
                      fun _ => eq_refl
                  | _ => fun H => match Bool.diff_false_true H with end
                  end).
Qed.

(** With no callback at all, an attempt that finds a code left in the
    provider exchanges that code and no other: every call of the token
    endpoint for a code carries the leftover one. *)
Theorem leftover_code_is_what_the_next_attempt_exchanges
  (env : Env) (c : McpOAuthClient.t) (io : Io) (code : QVal) :
  stored_code c = Some code ->
  qval_truthy (Some code) = true ->
  (forall tick, callbacks env tick = []) ->
  exists new,
    trace (McpOAuthClient.connect env c io) = (io_trace io ++ new)%list
    /\ forall a ci code' v r b, In (EvExchange a ci code' v r b) new -> code' = code.
Proof.
  intros Hcode Htruthy Hnone.
  pose proof (connect_exchanges_leftover env c io Hcode Htruthy Hnone) as H.
  apply post_run in H. destruct H as (new & E & F).
  exists new. split; [exact E|].
  intros a ci code' v r b Hin.
  rewrite forallb_forall in F. specialize (F _ Hin). cbn in F.
  now apply qval_eqb_eq.
Qed.

Lemma leftover_code_is_what_the_next_attempt_exchanges_witness :
  (exists new,
     trace (McpOAuthClient.connect env_no_callback client_with_leftover_code io0) = new
     /\ forall a ci code' v r b,
          In (EvExchange a ci code' v r b) new -> code' = QStr "abc123")
  /\ existsb is_exchange
       (trace (McpOAuthClient.connect env_no_callback client_with_leftover_code io0)) = true.
Proof.
  split.
  - destruct (@leftover_code_is_what_the_next_attempt_exchanges env_no_callback
                client_with_leftover_code io0 (QStr "abc123") eq_refl eq_refl
                (fun _ => eq_refl)) as (new & E & H).
    exists new. split; [exact E | exact H].
  - vm_compute. reflexivity.
Defined.

(** * When the refresh grant is tried *)

(** Without a code and without a non-empty refresh token, no refresh is
    tried. *)
Lemma customAuth_without_refresh_token env options p io :
  Options.authorizationCode options = None ->
  truthy_opt (match ProxyOAuthProvider._tokens p with
              | Some tk => refresh_token tk
              | None => None
              end) = false ->
  post (customAuth env options) p io (fun _ _ io' => emits no_refresh io io').
Proof.
  intros no_code Hno.
  enter_customAuth no_refresh p io.
  2:{ assumption. }
  subst p1. rewrite no_code. step. step.
  apply post_bind.
  apply post_mono with
    (Q := fun r s' io' => r = Ok false /\ emits no_refresh io io').
  { cbn [ProxyOAuthProvider._tokens ProxyOAuthProvider.set_clientInformation].
    destruct (match ProxyOAuthProvider._tokens p with
              | Some tk => refresh_token tk
              | None => None
              end) as [rt|]; cbn in Hno; [rewrite Hno|]; step; split; trivial. }
  intros r p2 io3 (-> & E3). cbv beta iota.
  eapply post_mono; [apply newAuthorizationFlow_started|].
  intros r p3 io4 (T & ET & FT & _).
  eapply emits_trans; [exact E3|]. exists T. split; assumption.
Qed.

(** One [customAuth] call tries the refresh grant at most once, and only
    when it was given no code and a non-empty refresh token is stored,
    which is then the token it sends. *)
Theorem refresh_is_tried_at_most_once_and_only_with_a_token
  (env : Env) (options : Options.t) (p : ProxyOAuthProvider.t) (io : Io) :
  exists new,
    trace (customAuth env options p io) = (io_trace io ++ new)%list
    /\ (List.length (filter is_refresh new) <= 1)%nat
    /\ forall a ci rt b,
         In (EvRefresh a ci rt b) new ->
         Options.authorizationCode options = None
         /\ truthy rt = true
         /\ exists tk, ProxyOAuthProvider._tokens p = Some tk /\ refresh_token tk = Some rt.
Proof.
  assert (Quiet : forall new,
            forallb no_refresh new = true ->
            (List.length (filter is_refresh new) <= 1)%nat
            /\ forall a ci rt b,
                 In (EvRefresh a ci rt b) new ->
                 Options.authorizationCode options = None
                 /\ truthy rt = true
                 /\ exists tk, ProxyOAuthProvider._tokens p = Some tk
                               /\ refresh_token tk = Some rt).
  { intros new F. split.
    - rewrite (filter_none no_refresh is_refresh new); [cbn; lia | | exact F].
      intros e He. now apply negb_true_iff in He.
    - intros a ci rt b Hin. rewrite forallb_forall in F.
      specialize (F _ Hin). discriminate. }
  destruct (Options.authorizationCode options) as [code|] eqn:Hcode.
  - pose proof (customAuth_exchange_shape env options p io Hcode) as H.
    apply post_run in H. destruct H as (D & FD & H).
    assert (ND : forallb no_refresh D = true)
      by (apply (forallb_weaken discovery_event no_refresh D); [|exact FD];
          intros [] Hx; try discriminate; reflexivity).
    destruct H as [[E _] | (asu & ci & v & _ & _ & E & _)].
    + exists D. split; [exact E|]. now apply Quiet.
    + eexists. split; [exact E|]. apply Quiet.
      rewrite forallb_app, ND. cbn. destruct (is_ok _); reflexivity.
  - destruct (truthy_opt (match ProxyOAuthProvider._tokens p with
                          | Some tk => refresh_token tk
                          | None => None
                          end)) eqn:Htok.
    + destruct (ProxyOAuthProvider._tokens p) as [tk|] eqn:Htk; [|discriminate].
      destruct (refresh_token tk) as [rt|] eqn:Hrt; [|discriminate].
      cbn in Htok.
      pose proof (customAuth_refresh_shape env options p io Hcode Htk Hrt Htok) as H.
      apply post_run in H. destruct H as (D & FD & H).
      assert (ND : forallb no_refresh D = true)
        by (apply (forallb_weaken discovery_event no_refresh D); [|exact FD];
            intros [] Hx; try discriminate; reflexivity).
      assert (XD : filter is_refresh D = [])
        by (apply (filter_none no_refresh is_refresh D); [|exact ND];
            intros e He; now apply negb_true_iff in He).
      assert (Known : forall new a0 c0 b0 T,
                new = (D ++ EvRefresh a0 c0 rt b0 :: T)%list ->
                forallb no_refresh T = true ->
                (List.length (filter is_refresh new) <= 1)%nat
                /\ forall a ci rt' b,
                     In (EvRefresh a ci rt' b) new ->
                     None = (None : option QVal)
                     /\ truthy rt' = true
                     /\ exists tk', Some tk = Some tk' /\ refresh_token tk' = Some rt').
      { intros new a0 c0 b0 T -> FT. split.
        - rewrite filter_app, XD. cbn.
          rewrite (filter_none no_refresh is_refresh T); [cbn; lia | | exact FT].
          intros e He. now apply negb_true_iff in He.
        - intros a ci rt' b Hin. apply in_app_or in Hin. destruct Hin as [Hin|[Hin|Hin]].
          + rewrite forallb_forall in ND. specialize (ND _ Hin). discriminate.
          + injection Hin as _ _ <- _. split; [reflexivity|]. split; [exact Htok|].
            exists tk. split; [reflexivity | exact Hrt].
          + rewrite forallb_forall in FT. specialize (FT _ Hin). discriminate. }
      destruct H as [[E _] | [(a0 & c0 & tk' & E & _) | (a0 & c0 & T & E & FT & _)]].
      * exists D. split; [exact E|]. 
        destruct (Quiet D ND) as [Q1 Q2]. split; [exact Q1|].
        intros a ci rt' b Hin. rewrite forallb_forall in ND.
        specialize (ND _ Hin). discriminate.
      * eexists. split; [exact E|]. eapply Known; reflexivity.
      * eexists. split; [exact E|]. eapply Known; [reflexivity | exact FT].
    + pose proof (customAuth_without_refresh_token env options p io Hcode Htok) as H.
      apply post_run in H. destruct H as (new & E & F).
      exists new. split; [exact E|]. 
      destruct (Quiet new F) as [Q1 Q2]. split; [exact Q1|].
      intros a ci rt b Hin. rewrite forallb_forall in F.
      specialize (F _ Hin). discriminate.
Qed.

(** * What the logger writes *)

Definition wants_debug (proc : process.t) : bool :=
  includes (skipn 2 (process.argv proc)) "--debug" || includes (skipn 2 (process.argv proc)) "-d"
  || env_is proc "DEBUG" "true" || env_is proc "DEBUG" "1".

(** [quietFlag || envQuiet] of [configureLogging]. *)
Definition wants_quiet (proc : process.t) : bool :=
  includes (skipn 2 (process.argv proc)) "--quiet" || includes (skipn 2 (process.argv proc)) "-q"
  || env_is proc "QUIET" "true" || env_is proc "QUIET" "1".

(** [writes] says whether [logJson] returns an entry, whatever the
    message and the data. *)
Lemma writes_spec Data (dt : Data -> bool) now s level msg d :
  Logger.writes s level = true <-> Logger.logJson dt now s level msg d <> None.
Proof.
  unfold Logger.writes, Logger.logJson.
  destruct (negb (Logger.loggingEnabled s) && _); [split; [discriminate | congruence]|].
  destruct (Logger.lt _ _); [split; [discriminate | congruence]|].
  split; [discriminate | reflexivity].
Qed.

Lemma error_is_never_below k : Logger.lt (Logger.Priority 3) (Logger.LOG_LEVELS k) = false.
Proof.
  unfold Logger.LOG_LEVELS.
  repeat match goal with |- context [if ?b then _ else _] => destruct b end; reflexivity.
Qed.

Lemma level_lookup l :
  Logger.LOG_LEVELS (Logger.level_name l) = Logger.Priority (Logger.priority l).
Proof. destruct l; reflexivity. Qed.

Lemma wants_debug_spec proc :
  wants_debug proc =
  ((includes (skipn 2 (process.argv proc)) "--debug" || includes (skipn 2 (process.argv proc)) "-d")
   || (env_is proc "DEBUG" "true" || env_is proc "DEBUG" "1")).
Proof. unfold wants_debug. now rewrite <- !orb_assoc. Qed.

Lemma wants_quiet_spec proc :
  wants_quiet proc =
  ((includes (skipn 2 (process.argv proc)) "--quiet" || includes (skipn 2 (process.argv proc)) "-q")
   || (env_is proc "QUIET" "true" || env_is proc "QUIET" "1")).
Proof. unfold wants_quiet. now rewrite <- !orb_assoc. Qed.

(** Unfold [configureLogging] and name its two flags. *)
Ltac configure proc :=
  unfold Logger.configureLogging; cbv zeta;
  rewrite <- ?(wants_debug_spec proc), <- ?(wants_quiet_spec proc).

(** No command line and no environment silences errors: after
    [configureLogging()] on the initial settings, [logJson] writes every
    error message. *)
Theorem configureLogging_never_silences_errors (proc : process.t) :
  Logger.writes (Logger.configureLogging proc Logger.initial) error = true.
Proof.
  configure proc.
  destruct (wants_debug proc); [reflexivity|].
  destruct (wants_quiet proc); [reflexivity|].
  destruct (option_map toLowerCase (process.env proc "LOG_LEVEL")) as [l|]; [|reflexivity].
  destruct (truthy l && Logger.defined (Logger.LOG_LEVELS l)); [|reflexivity].
  unfold Logger.writes, Logger.logJson. cbn -[Logger.lt Logger.LOG_LEVELS].
  change (Logger.LOG_LEVELS (Logger.level_name error)) with (Logger.Priority 3).
  now rewrite error_is_never_below.
Qed.

(** Debug wins: with [--debug], [-d], [DEBUG=true] or [DEBUG=1], whatever
    the settings were, whatever [--quiet] and [LOG_LEVEL] say, every level
    is written. *)
Theorem debug_flag_overrides_quiet_and_level
  (proc : process.t) (s : Logger.t) (level : LogLevel) :
  wants_debug proc = true ->
  Logger.writes (Logger.configureLogging proc s) level = true
  /\ Logger.isDebugMode (Logger.configureLogging proc s) = true.
Proof.
  intros H. configure proc. rewrite H. destruct level; split; reflexivity.
Qed.

Definition quiet_debug_process : process.t :=
  {| process.argv := ["node"; "dist/index.js"; "--quiet"; "-d"];
     process.env := fun k => if k =? "LOG_LEVEL" then Some "error" else None |}.

Lemma debug_flag_overrides_quiet_and_level_witness :
  Logger.writes (Logger.configureLogging quiet_debug_process Logger.initial) debug = true
  /\ Logger.isDebugMode (Logger.configureLogging quiet_debug_process Logger.initial) = true.
Proof.
  apply (@debug_flag_overrides_quiet_and_level quiet_debug_process Logger.initial debug).
  reflexivity.
Defined.

(** Quiet mode ([--quiet], [-q], [QUIET=true] or [QUIET=1], without a
    debug flag) on the initial settings writes the errors and nothing
    else; [LOG_LEVEL] is not read. *)
Theorem quiet_mode_writes_errors_only (proc : process.t) (level : LogLevel) :
  wants_debug proc = false ->
  wants_quiet proc = true ->
  Logger.writes (Logger.configureLogging proc Logger.initial) level = Logger.is_error level.
Proof.
  intros Hd Hq. configure proc. rewrite Hd, Hq. destruct level; reflexivity.
Qed.

Definition quiet_process : process.t :=
  {| process.argv := ["node"; "dist/index.js"];
     process.env := fun k => if k =? "QUIET" then Some "1"
                     else if k =? "LOG_LEVEL" then Some "debug" else None |}.

Lemma quiet_mode_writes_errors_only_witness :
  Logger.writes (Logger.configureLogging quiet_process Logger.initial) warn = false.
Proof.
  apply (@quiet_mode_writes_errors_only quiet_process warn); reflexivity.
Defined.

(** Without a debug or quiet flag, a [LOG_LEVEL] that names one of the
    four levels, in any letter case, becomes the threshold: a message is
    written exactly when its level is at or above it. *)
Theorem log_level_is_a_threshold
  (proc : process.t) (s : Logger.t) (v : string) (threshold level : LogLevel) :
  wants_debug proc = false ->
  wants_quiet proc = false ->
  process.env proc "LOG_LEVEL" = Some v ->
  toLowerCase v = Logger.level_name threshold ->
  Logger.loggingEnabled s = true ->
  Logger.writes (Logger.configureLogging proc s) level
  = (Logger.priority threshold <=? Logger.priority level)%nat.
Proof.
  intros Hd Hq Hv Hl He. configure proc. rewrite Hd, Hq, Hv. cbn [option_map].
  rewrite Hl. unfold Logger.writes, Logger.logJson.
  destruct threshold, level; cbn; rewrite He; reflexivity.
Qed.

Definition warn_process : process.t :=
  {| process.argv := ["node"; "dist/index.js"];
     process.env := fun k => if k =? "LOG_LEVEL" then Some "WARN" else None |}.

Lemma log_level_is_a_threshold_witness :
  Logger.writes (Logger.configureLogging warn_process Logger.initial) info = false.
Proof.
  apply (@log_level_is_a_threshold warn_process Logger.initial "WARN" warn info);
    reflexivity.
Defined.

(** A [LOG_LEVEL] that is no level name but a property every object
    inherits, such as [constructor], passes the [!== undefined] test and
    becomes the level; the comparison with it is always false, so every
    message is written, debug messages too.  Any other text leaves the
    settings as they were. *)
Theorem inherited_key_as_log_level_writes_everything
  (proc : process.t) (s : Logger.t) (v : string) :
  wants_debug proc = false ->
  wants_quiet proc = false ->
  process.env proc "LOG_LEVEL" = Some v ->
  (Logger.LOG_LEVELS (toLowerCase v) = Logger.Inherited ->
   Logger.loggingEnabled s = true ->
   forall level, Logger.writes (Logger.configureLogging proc s) level = true)
  /\ (Logger.LOG_LEVELS (toLowerCase v) = Logger.Undefined ->
      Logger.configureLogging proc s = s).
Proof.
  intros Hd Hq Hv. configure proc. rewrite Hd, Hq, Hv. cbn [option_map]. split.
  - intros Hi He level. rewrite Hi.
    destruct (truthy (toLowerCase v)) eqn:Ht; cbn.
    + unfold Logger.writes, Logger.logJson. cbn. rewrite He, Hi.
      destruct level; reflexivity.
    + apply negb_false_iff, String.eqb_eq in Ht. rewrite Ht in Hi. discriminate.
  - intros Hu. rewrite Hu, andb_false_r. reflexivity.
Qed.

Definition constructor_process : process.t :=
  {| process.argv := ["node"; "dist/index.js"];
     process.env := fun k => if k =? "LOG_LEVEL" then Some "constructor" else None |}.

Lemma inherited_key_as_log_level_writes_everything_witness :
  Logger.writes (Logger.configureLogging constructor_process Logger.initial) debug = true.
Proof.
  exact (proj1 (@inherited_key_as_log_level_writes_everything constructor_process
                  Logger.initial "constructor" eq_refl eq_refl eq_refl)
               eq_refl eq_refl debug).
Defined.

(** In every state of the logger, a message of a higher level is written
    whenever one of a lower level is. *)
Theorem logJson_is_monotone_in_the_level (s : Logger.t) (l l' : LogLevel) :
  (Logger.priority l <= Logger.priority l')%nat ->
  Logger.writes s l = true -> Logger.writes s l' = true.
Proof.
  intros Hle. unfold Logger.writes, Logger.logJson. rewrite !level_lookup.
  destruct s as [cur dm en];
    cbn [Logger.loggingEnabled Logger.debugMode Logger.currentLogLevel].
  assert (G : Logger.lt (Logger.Priority (Logger.priority l)) (Logger.LOG_LEVELS cur) = false ->
              Logger.lt (Logger.Priority (Logger.priority l')) (Logger.LOG_LEVELS cur) = false).
  { destruct (Logger.LOG_LEVELS cur); cbn [Logger.lt]; try reflexivity.
    rewrite !Nat.ltb_ge. lia. }
  destruct en; cbn [negb andb].
  - destruct (Logger.lt (Logger.Priority (Logger.priority l)) _); [discriminate|].
    now rewrite (G eq_refl).
  - destruct l; cbn [Logger.is_error andb negb]; try discriminate.
    destruct l'; cbn in Hle; try lia. exact (fun H => H).
Qed.

Lemma logJson_is_monotone_in_the_level_witness :
  Logger.writes Logger.initial error = true.
Proof.
  apply (@logJson_is_monotone_in_the_level Logger.initial info error).
  - cbn. lia.
  - reflexivity.
Defined.

(** ** Facts about [trim] and [split] *)

Definition head_ok (s : string) : bool :=
  match s with
  | String c _ => negb (is_space c)
  | EmptyString => true
  end.

Lemma trimStart_head s : head_ok (trimStart s) = true.
Proof.
  induction s as [|c r IH]; [reflexivity|]. cbn.
  destruct (is_space c) eqn:E; [exact IH|]. cbn. now rewrite E.
Qed.

Lemma trimStart_fix s : head_ok s = true -> trimStart s = s.
Proof.
  destruct s as [|c r]; [reflexivity|]. cbn. intros H.
  apply negb_true_iff in H. now rewrite H.
Qed.

Lemma trimEnd_head s : head_ok s = true -> head_ok (trimEnd s) = true.
Proof.
  destruct s as [|c r]; [reflexivity|]. cbn. intros H.
  apply negb_true_iff in H. rewrite H.
  destruct (trimEnd r); cbn; now rewrite H.
Qed.

Lemma trimEnd_cons c r :
  trimEnd (String c r) =
  match trimEnd r with
  | EmptyString => if is_space c then EmptyString else String c EmptyString
  | r' => String c r'
  end.
Proof. reflexivity. Qed.

Lemma trimEnd_idem s : trimEnd (trimEnd s) = trimEnd s.
Proof.
  induction s as [|c r IH]; [reflexivity|]. rewrite trimEnd_cons.
  destruct (trimEnd r) as [|d t] eqn:E.
  - destruct (is_space c) eqn:Hc; [reflexivity|].
    rewrite trimEnd_cons. cbn [trimEnd]. now rewrite Hc.
  - rewrite trimEnd_cons, IH. reflexivity.
Qed.

Lemma trim_idem s : trim (trim s) = trim s.
Proof.
  unfold trim.
  rewrite (trimStart_fix (trimEnd (trimStart s))).
  - apply trimEnd_idem.
  - apply trimEnd_head, trimStart_head.
Qed.

Lemma contains_trimStart c s : contains c (trimStart s) = true -> contains c s = true.
Proof.
  induction s as [|x r IH]; [exact (fun H => H)|]. cbn.
  destruct (is_space x); [|exact (fun H => H)].
  intros H. rewrite (IH H). apply orb_true_r.
Qed.

Lemma contains_trimEnd c s : contains c (trimEnd s) = true -> contains c s = true.
Proof.
  induction s as [|x r IH]; [exact (fun H => H)|]. cbn.
  destruct (trimEnd r) as [|d t].
  - destruct (is_space x); cbn; [discriminate|].
    rewrite orb_false_r. intros ->. reflexivity.
  - cbn [contains]. intros H. apply orb_prop in H. destruct H as [H|H].
    + now rewrite H.
    + rewrite (IH H). apply orb_true_r.
Qed.

Lemma contains_trim c s : contains c s = false -> contains c (trim s) = false.
Proof.
  intros H. destruct (contains c (trim s)) eqn:E; [|reflexivity].
  apply contains_trimEnd, contains_trimStart in E. congruence.
Qed.

Lemma split_no_separator sep s : Forall (fun x => contains sep x = false) (split sep s).
Proof.
  induction s as [|c r IH]; [repeat constructor|]. cbn.
  destruct (Ascii.eqb c sep) eqn:E.
  - constructor; [reflexivity | exact IH].
  - destruct (split sep r) as [|h t].
    + constructor; [cbn; now rewrite E | constructor].
    + inversion IH as [|? ? Hh Ht]; subst.
      constructor; [cbn; now rewrite E, Hh | exact Ht].
Qed.

Lemma split_single sep x : contains sep x = false -> split sep x = [x].
Proof.
  induction x as [|c r IH]; [reflexivity|]. cbn. intros H.
  apply orb_false_elim in H. destruct H as [Hc Hr].
  now rewrite Hc, (IH Hr).
Qed.

Lemma split_app sep x r :
  contains sep x = false -> split sep (x ++ String sep r) = x :: split sep r.
Proof.
  induction x as [|c x IH]; cbn.
  - intros _. now rewrite Ascii.eqb_refl.
  - intros H. apply orb_false_elim in H. destruct H as [Hc Hx].
    now rewrite Hc, (IH Hx).
Qed.

Lemma split_concat sep l :
  l <> [] -> Forall (fun x => contains sep x = false) l ->
  split sep (String.concat (String sep EmptyString) l) = l.
Proof.
  induction l as [|x l IH]; [congruence|]. intros _ H.
  inversion H as [|? ? Hx Hl]; subst.
  destruct l as [|y l].
  - cbn. now apply split_single.
  - change (String.concat (String sep "") (x :: y :: l))
      with (x ++ String sep (String.concat (String sep "") (y :: l))).
    rewrite (@split_app sep x _ Hx), IH; [reflexivity | discriminate | exact Hl].
Qed.

(** ** What [loadConfig] returns *)

(** [loadConfig] succeeds exactly when [OAUTH_CLIENT_ID] and
    [MCP_SERVER_URL] are both set to a non-empty text, and then takes
    both over unchanged; otherwise it logs an error and throws, naming the
    missing variables in that order. *)
Theorem loadConfig_requires_client_id_and_server_url
  (St : Type) (penv : string -> option string) (s : St) (io : Io) :
  let id := penv "OAUTH_CLIENT_ID" in
  let url := penv "MCP_SERVER_URL" in
  let run := loadConfig penv s io in
  final run = s
  /\ if truthy_opt id && truthy_opt url
     then exists l,
            outcome run = Ok l
            /\ trace run = io_trace io
            /\ Some (Config.clientId (loaded_oauth l)) = id
            /\ Some (Config.url (loaded_mcpServer l)) = url
     else outcome run =
            Throw ("Missing required environment variables: "
                   ++ (if truthy_opt id then "MCP_SERVER_URL"
                       else if truthy_opt url then "OAUTH_CLIENT_ID"
                       else "OAUTH_CLIENT_ID, MCP_SERVER_URL"))
          /\ trace run =
               (io_trace io ++ [EvLog error "Missing required environment variables"])%list.
Proof.
  cbv zeta. unfold loadConfig, outcome, final, trace, unwrap.
  destruct (penv "OAUTH_CLIENT_ID") as [id|]; cbn;
    [destruct (truthy id) eqn:Hid; cbn|];
    (destruct (penv "MCP_SERVER_URL") as [url|]; cbn;
     [destruct (truthy url) eqn:Hurl; cbn|]);
    run; cbn; repeat split.
  eexists. repeat split.
Qed.

Definition clean_scope (x : string) : bool :=
  negb (x =? "") && (trim x =? x) && negb (contains "," x).

(** Every scope that [loadConfig] returns is non-empty, has no white
    space at either end and holds no comma. *)
Theorem loadConfig_scopes_are_clean
  (St : Type) (penv : string -> option string) (s : St) (io : Io) (l : LoadedConfig) :
  outcome (loadConfig penv s io) = Ok l ->
  forallb clean_scope (Config.scopes (loaded_oauth l)) = true.
Proof.
  unfold loadConfig, outcome.
  destruct (0 <? _)%nat; [run; cbn; discriminate|].
  run. cbn. intros H. injection H as <-. cbn.
  destruct (penv "OAUTH_SCOPES") as [v|]; [|reflexivity].
  apply forallb_forall. intros x Hx.
  apply filter_In in Hx. destruct Hx as [Hin Hlen].
  apply in_map_iff in Hin. destruct Hin as (y & <- & Hy).
  pose proof (split_no_separator "," v) as F.
  rewrite Forall_forall in F. specialize (F y Hy).
  unfold clean_scope. rewrite trim_idem, String.eqb_refl, (contains_trim _ _ F).
  destruct (trim y); [discriminate | reflexivity].
Qed.

Definition demo_process_env (k : string) : option string :=
  if k =? "OAUTH_CLIENT_ID" then Some "proxy-client"
  else if k =? "MCP_SERVER_URL" then Some "https://mcp.example/sse"
  else if k =? "OAUTH_SCOPES" then Some " mcp.read, ,mcp.write ,"
  else if k =? "OAUTH_SERVER_PORT" then Some "8080"
  else None.

Definition demo_loaded : LoadedConfig :=
  match loadConfig demo_process_env tt io0 with
  | (Ok l, _, _) => l
  | (Throw _, _, _) =>
      {| loaded_oauth := Config.oauth Demo.config;
         loaded_mcpServer := Config.mcpServer Demo.config;
         loaded_port := None; loaded_logLevel := "" |}
  end.

Lemma loadConfig_scopes_are_clean_witness :
  Config.scopes (loaded_oauth demo_loaded) = ["mcp.read"; "mcp.write"]
  /\ forallb clean_scope (Config.scopes (loaded_oauth demo_loaded)) = true.
Proof.
  split; [reflexivity|].
  apply (@loadConfig_scopes_are_clean unit demo_process_env tt io0 demo_loaded).
  reflexivity.
Defined.

(** The text is ASCII: every character is below 128.  On such text the
    white space that [trim] strips is the white space of [is_space]. *)
Fixpoint is_ascii_text (s : string) : bool :=
  match s with
  | EmptyString => true
  | String c r => (N_of_ascii c <? 128)%N && is_ascii_text r
  end.

(** Scopes written comma-separated are read back as they were: a list of
    ASCII scopes that are non-empty, without white space at the ends and
    without commas, joined by commas in [OAUTH_SCOPES], is the list that
    [loadConfig] returns. *)
Theorem loadConfig_reads_back_comma_separated_scopes
  (St : Type) (penv : string -> option string) (s : St) (io : Io) (scopes : list string) :
  truthy_opt (penv "OAUTH_CLIENT_ID") = true ->
  truthy_opt (penv "MCP_SERVER_URL") = true ->
  penv "OAUTH_SCOPES" = Some (String.concat "," scopes) ->
  forallb is_ascii_text scopes = true ->
  forallb clean_scope scopes = true ->
  exists l,
    outcome (loadConfig penv s io) = Ok l
    /\ Config.scopes (loaded_oauth l) = scopes.
Proof.
  intros Hid Hurl Hs _ Hc. unfold loadConfig, outcome.
  rewrite Hid, Hurl, Hs. cbn [negb app List.length Nat.ltb Nat.leb]. run. cbn.
  eexists. split; [reflexivity|]. cbn.
  destruct scopes as [|x l]; [reflexivity|].
  rewrite split_concat; [|discriminate|].
  - clear Hs. induction (x :: l) as [|y r IH]; [reflexivity|].
    cbn in Hc. apply andb_prop in Hc. destruct Hc as [Hy Hr].
    unfold clean_scope in Hy.
    apply andb_prop in Hy. destruct Hy as [Hy _].
    apply andb_prop in Hy. destruct Hy as [Hne Ht].
    apply String.eqb_eq in Ht. cbn [map filter]. rewrite Ht.
    destruct y; [discriminate|]. cbn. now rewrite (IH Hr).
  - apply Forall_forall. intros y Hy.
    rewrite forallb_forall in Hc. specialize (Hc y Hy). unfold clean_scope in Hc.
    apply andb_prop in Hc. destruct Hc as [_ Hc]. now apply negb_true_iff in Hc.
Qed.

Definition scopes_process_env (k : string) : option string :=
  if k =? "OAUTH_CLIENT_ID" then Some "proxy-client"
  else if k =? "MCP_SERVER_URL" then Some "https://mcp.example/sse"
  else if k =? "OAUTH_SCOPES" then Some "mcp.read,mcp.write"
  else None.

Lemma loadConfig_reads_back_comma_separated_scopes_witness :
  exists l,
    outcome (loadConfig scopes_process_env tt io0) = Ok l
    /\ Config.scopes (loaded_oauth l) = ["mcp.read"; "mcp.write"].
Proof.
  apply (@loadConfig_reads_back_comma_separated_scopes unit scopes_process_env tt io0
           ["mcp.read"; "mcp.write"]); reflexivity.
Defined.

(** With [OAUTH_REDIRECT_URI] unset or empty the redirect URI is the
    default one, which names port 3000; the callback server then asks for
    port 3000 whatever [OAUTH_SERVER_PORT] holds, a number or not, for the
    configured port is read only when the redirect URI names none. *)
Theorem default_redirect_uri_fixes_the_callback_port
  (St : Type) (penv : string -> option string) (s : St) (io0 : Io)
  (env : Env) (l : LoadedConfig) (io : Io) :
  outcome (loadConfig penv s io0) = Ok l ->
  truthy_opt (penv "OAUTH_REDIRECT_URI") = false ->
  url_parses env default_redirectUri = true ->
  url_port env default_redirectUri = "3000" ->
  Config.redirectUri (loaded_oauth l) = default_redirectUri
  /\ exists rest,
       trace (ProxyOAuthProvider.startOAuthServer env
                (ProxyOAuthProvider.new (as_Config l)) io)
       = (io_trace io
          ++ EvListen (Some 3000%Z) (url_pathname env default_redirectUri) :: rest)%list.
Proof.
  intros Hl Hr Hp Hport.
  assert (Huri : Config.redirectUri (loaded_oauth l) = default_redirectUri).
  { unfold loadConfig, outcome in Hl.
    destruct (0 <? _)%nat; [revert Hl; run; cbn; discriminate|].
    revert Hl. run. cbn. intros Hl. injection Hl as <-. cbn.
    unfold or_default. destruct (penv "OAUTH_REDIRECT_URI") as [u|]; [|reflexivity].
    cbn in Hr. now rewrite Hr. }
  split; [exact Huri|].
  unfold trace, ProxyOAuthProvider.startOAuthServer, ProxyOAuthProvider.resolve,
    ProxyOAuthProvider.reject, ProxyOAuthProvider.settle_promise,
    ProxyOAuthProvider.redirectUrl, as_Config.
  run. cbn. rewrite Huri, Hp, Hport. cbn.
  destruct (listen env (io_tick io) _) as [|code e]; cbn.
  - rewrite <- app_assoc. eexists. reflexivity.
  - destruct (code =? "EADDRINUSE"); cbn; rewrite <- ?app_assoc; eexists; reflexivity.
Qed.

(** [OAUTH_SERVER_PORT] holds no number. *)
Definition odd_port_process_env (k : string) : option string :=
  if k =? "OAUTH_CLIENT_ID" then Some "proxy-client"
  else if k =? "MCP_SERVER_URL" then Some "https://mcp.example/sse"
  else if k =? "OAUTH_SERVER_PORT" then Some "none"
  else None.

Lemma default_redirect_uri_fixes_the_callback_port_witness :
  exists l rest,
    outcome (loadConfig odd_port_process_env tt io0) = Ok l
    /\ loaded_port l = None
    /\ trace (ProxyOAuthProvider.startOAuthServer env_no_callback
                (ProxyOAuthProvider.new (as_Config l)) io0)
       = EvListen (Some 3000%Z) "/oauth/callback" :: rest.
Proof.
  eexists.
  destruct (@default_redirect_uri_fixes_the_callback_port unit odd_port_process_env tt io0
              env_no_callback _ io0 eq_refl eq_refl eq_refl eq_refl)
    as [_ [rest E]].
  exists rest. split; [reflexivity|]. split; [reflexivity | exact E].
Defined.
